(** * wholeBodyTorqueObserver: a shallow embedding of [main.cpp]

    The module has two execution contexts: the rate thread
    [inverseDynamics] (constructor, [threadInit], [run] and its helpers)
    and the callback port [dataFilter] that low-pass filters the raw
    inertial samples with [lpf_ord1_3hz].

    Conventions of the embedding.
    - A C++ [double] is an exact rational ([Q]): the arithmetic of the
      source is read over the rationals, rounding, infinities and NaN are
      not represented.  Equalities that depend on arithmetic are stated
      with [==]; equalities that only move data around are stated with [=].
      Where a statement would not survive rounding, the arithmetic in
      question is given a second time on binary64 numbers ([Binary64]).
    - A [yarp::sig::Vector] is a [list Q]; [v(i)] and [v[i]] do no bounds
      check in the source, the embedding reads [0] and writes nothing out
      of range, and the theorems that go through an index carry the size
      hypotheses under which the source stays in range.
    - Member variables of a class are the fields of a record that is passed
      through every method; the messages written to output ports are
      appended to a log kept in that record.
    - The clock, the input ports and the encoder interfaces are the
      environment of one call: a record of the values the calls return.
    - ctrlLib's estimators and iDyn's dynamics are not part of the module:
      they enter as the class [Collaborators], and every theorem of the
      thread holds for all of its instances.  [Bench] gives one instance to
      run the definitions on.
    - [run], [readAndUpdate] and the body of the calibration loop are
      written block by block, each block a definition that follows the
      statements of the source in their order.
    - The pointer members [threadRelease] deletes are kept apart from the
      values they point to: a pointer is null, live or dangling, and a
      method that would use a dangling pointer has no result.
    - The module class [wholeBodyTorqueObserver] ([configure], [close],
      [updateModule]) keeps a trace of what it asks of yarp: the ports it
      opens and closes, the devices it creates and closes, the thread it
      starts and stops. *)

From Stdlib Require Import QArith Qabs Qpower Qround Lqa ZArith Lia Ascii String.
From Stdlib Require SpecFloat.
From stdpp Require Import base list.

Local Open Scope Q_scope.

(** ** Vectors *)

Abbreviation Vector := (list Q).
Abbreviation Matrix := (list (list Q)).

#[global] Instance Q_inhabited : Inhabited Q := populate 0.

(** [Vector::zero()] and [v = 0.0]: every element becomes the value, the
    size is kept. *)
Definition vfill (v : Vector) (x : Q) : Vector := (fun _ => x) <$> v.

(** [v.resize(n, 0.0)] on a freshly constructed vector. *)
Definition vzeros (n : nat) : Vector := replicate n 0.

(** [a + b], [a - b] and [k * v] of yarp::math. *)
Definition vadd (a b : Vector) : Vector := zip_with Qplus a b.
Definition vsub (a b : Vector) : Vector := zip_with Qminus a b.
Definition vscale (k : Q) (v : Vector) : Vector := Qmult k <$> v.

(** [v(i)] with an [int] index. *)
Definition vget (v : Vector) (i : Z) : Q :=
  if (i <? 0)%Z then 0 else v !!! Z.to_nat i.

(** [m.getCol(c)] for a matrix kept as its list of rows. *)
Definition getCol (m : Matrix) (c : nat) : Vector := (fun row => row !!! c) <$> m.

(** Elementwise rational equality of two vectors. *)
Definition veq (a b : Vector) : Prop := Forall2 Qeq a b.

(** A natural number as a rational, and the sum [f 0 + ... + f (n-1)]. *)
Definition QofN (n : nat) : Q := inject_Z (Z.of_nat n).

Fixpoint Qsum (f : nat -> Q) (n : nat) : Q :=
  match n with
  | O => 0
  | S n' => Qsum f n' + f n'
  end.

(** ** The first-order low-pass filter [lpf_ord1_3hz] *)

Module Filter.

Definition MAX_JN : Z := 12.
Definition MAX_FILTER_ORDER : nat := 6.

(** The two literals of the filter. *)
Definition GAIN : Q := 1870043440 # 100000000.
Definition POLE : Q := 8930506128 # 10000000000.

(** The function-local [static double xv[MAX_FILTER_ORDER][MAX_JN]] and
    [yv], which keep their contents from one call to the next. *)
Record Memory := { xv : list (list Q); yv : list (list Q) }.

Definition rd (m : list (list Q)) (r j : nat) : Q := (m !!! r) !!! j.
Definition wr (m : list (list Q)) (r j : nat) (v : Q) : list (list Q) :=
  <[r := <[j := v]> (m !!! r)]> m.

(** Static storage is zero-initialised. *)
Definition zero_table : list (list Q) :=
  replicate MAX_FILTER_ORDER (replicate (Z.to_nat MAX_JN) 0).
Definition zero_memory : Memory := {| xv := zero_table; yv := zero_table |}.

Definition lpf_ord1_3hz (mem : Memory) (input : Q) (j : Z) : Q * Memory :=
  if ((j <? 0) || (j >=? MAX_JN))%Z then (0, mem)
  else
    let i := Z.to_nat j in
    let xv1 := wr (xv mem) 0 i (rd (xv mem) 1 i) in
    let xv2 := wr xv1 1 i (input / GAIN) in
    let yv1 := wr (yv mem) 0 i (rd (yv mem) 1 i) in
    let yv2 := wr yv1 1 i ((rd xv2 0 i + rd xv2 1 i) + POLE * rd yv1 0 i) in
    (rd yv2 1 i, {| xv := xv2; yv := yv2 |}).

(** The loop of [dataFilter::onRead]: element [i] of the inbound bottle is
    filtered on channel [i]. *)
Fixpoint filter_loop (mem : Memory) (i : Z) (x : list Q) : Vector * Memory :=
  match x with
  | [] => ([], mem)
  | xi :: rest =>
      let '(y, mem1) := lpf_ord1_3hz mem xi i in
      let '(ys, mem2) := filter_loop mem1 (i + 1) rest in
      (y :: ys, mem2)
  end.

(** The envelope of a message. *)
Record Stamp := { count : Z; stamp_time : Q }.

(** [dataFilter]: the member [g] and, for the process, the filter memory
    and what has been written to [port_filtered]. *)
Record dataFilter := {
  mem : Memory;
  g : Vector;
  port_filtered : list (Stamp * Vector)
}.

Definition dataFilter_init : dataFilter :=
  {| mem := zero_memory; g := vzeros 6; port_filtered := [] |}.

(** [onRead] also returns the local vector [inertial]. *)
Definition onRead (d : dataFilter) (info : Stamp) (b : list Q) : Vector * dataFilter :=
  let '(inertial, mem1) := filter_loop (mem d) 0 b in
  let g0 := <[0%nat := vget inertial 3]> (g d) in
  let g1 := <[1%nat := vget inertial 4]> g0 in
  let g2 := <[2%nat := vget inertial 5]> g1 in
  let g3 := <[3%nat := vget inertial 6]> g2 in
  let g4 := <[4%nat := vget inertial 7]> g3 in
  let g5 := <[5%nat := vget inertial 8]> g4 in
  (inertial,
   {| mem := mem1; g := g5; port_filtered := port_filtered d ++ [(info, g5)] |}).

(** The inbound samples one after the other; the result lists the filtered
    vector of every sample. *)
Fixpoint onRead_all (d : dataFilter) (samples : list (Stamp * list Q))
  : list Vector * dataFilter :=
  match samples with
  | [] => ([], d)
  | (info, b) :: rest =>
      let '(y, d1) := onRead d info b in
      let '(ys, d2) := onRead_all d1 rest in
      (y :: ys, d2)
  end.

(** The recursion as the specification words it, for one channel:
    [y[n] = (x[n-1] + x[n]) / 18.70043440 + 0.8930506128 * y[n-1]]. *)
Fixpoint spec_recursion (x_prev y_prev : Q) (x : list Q) : list Q :=
  match x with
  | [] => []
  | xn :: rest =>
      let yn := (x_prev + xn) / GAIN + POLE * y_prev in
      yn :: spec_recursion xn yn rest
  end.

(** What channel [j] sees of a sequence of vectors: the entry [j] of each
    vector that has one. *)
Definition channel (j : nat) (vs : list (list Q)) : list Q :=
  omap (fun v => v !! j) vs.

(** Unit step on channel [j]: the output of call [n] when every call so far
    had input [1], from zeroed memory. *)
Fixpoint step_run (j : Z) (n : nat) : Q * Memory :=
  match n with
  | O => lpf_ord1_3hz zero_memory 1 j
  | S k => lpf_ord1_3hz (snd (step_run j k)) 1 j
  end.
Definition step_response (j : Z) (n : nat) : Q := fst (step_run j n).

(** The limit the specification names. *)
Definition K : Q := 2 / (GAIN * (1 - POLE)).

(** *** Vocabulary of the statements *)

(** A table has the shape of the static arrays. *)
Definition shaped (m : list (list Q)) : Prop :=
  (2 <= length m)%nat /\ Forall (fun row => length row = 12%nat) m.

Definition wf (mem : Memory) : Prop := shaped (xv mem) /\ shaped (yv mem).

(** The last scaled input and the last output kept for a channel. *)
Definition last_in (mem : Memory) (j : nat) : Q := rd (xv mem) 1 j.
Definition last_out (mem : Memory) (j : nat) : Q := rd (yv mem) 1 j.

(** Every entry of a vector is within [M] of zero. *)
Definition within (M : Q) (v : Vector) : Prop := Forall (fun x => Qabs x <= M) v.

(** The histories a sequence of inputs within [M] leaves behind, and a
    filter with such histories whose messages are within [K * M]. *)
Definition mem_within (M : Q) (m : Memory) : Prop :=
  wf m /\ forall j, (j < 12)%nat ->
    Qabs (last_in m j) <= M / GAIN /\ Qabs (last_out m j) <= K * M.

Definition filter_within (M : Q) (d : dataFilter) : Prop :=
  mem_within M (mem d) /\ within (K * M) (g d)
  /\ Forall (fun m => within (K * M) (snd m)) (port_filtered d).

(** The vector [a * u + b * v], and two sequences of samples combined this
    way sample by sample (with the stamps of the first). *)
Definition mixv (a b : Q) (u v : Vector) : Vector := vadd (vscale a u) (vscale b v).

Definition mixed (a b : Q) (xs ys : list (Stamp * list Q)) : list (Stamp * list Q) :=
  zip_with (fun x y => (fst x, mixv a b (snd x) (snd y))) xs ys.

(** The histories of [m] are those of [mx] and [my] combined. *)
Definition mem_mixed (a b : Q) (m mx my : Memory) : Prop :=
  wf m /\ wf mx /\ wf my
  /\ forall j, (j < 12)%nat ->
       last_in m j == a * last_in mx j + b * last_in my j
       /\ last_out m j == a * last_out mx j + b * last_out my j.

End Filter.

(** ** The rate thread [inverseDynamics] *)

Module Dyn.

Local Open Scope string_scope.
Local Open Scope list_scope.
Local Open Scope Q_scope.

Inductive thread_status_enum := STATUS_OK | STATUS_DISCONNECTED.

(** [VOCAB4] of yarp packs four characters into an [int]. *)
Definition VOCAB4 (a b c d : Ascii.ascii) : Z :=
  let code ch := Z.of_nat (Ascii.nat_of_ascii ch) in
  (Z.shiftl (code d) 24 + Z.shiftl (code c) 16 + Z.shiftl (code b) 8 + code a)%Z.
Definition VOCAB_TEST : Z := VOCAB4 "t"%char "e"%char "s"%char "t"%char.
Definition VOCAB_COMP : Z := VOCAB4 "c"%char "o"%char "m"%char "p"%char.

(** A [Bottle] as the list of the values added to it. *)
Inductive BottleItem := BInt (z : Z) | BDouble (d : Q).
Definition Bottle := list BottleItem.
Definition addInt (b : Bottle) (z : Z) : Bottle := b ++ [BInt z].
Definition addDouble (b : Bottle) (d : Q) : Bottle := b ++ [BDouble d].

(** The output ports of the thread. *)
Inductive OutPort :=
  | port_RATorques | port_RLTorques | port_LATorques | port_LLTorques
  | port_perf_test | port_perf_test_ftRead | port_compare_test.

Definition is_torque_port (p : OutPort) : bool :=
  match p with
  | port_RATorques | port_RLTorques | port_LATorques | port_LLTorques => true
  | _ => false
  end.

(** The sample handed to an estimator of ctrlLib. *)
Record AWPolyElement := { data : Vector; time : Q }.

(** *** The dynamics model (iDyn), an external collaborator *)

Inductive NodeKind := UpperTorsoNode | LowerTorsoNode.

(** Modelled from the spec: the joint state of one limb of the Kinematic
    Chain Model, as the last [setAng], [setDAng] and [setD2Ang] left it. *)
Record LimbState := { Ang : Vector; DAng : Vector; D2Ang : Vector }.

(** Modelled from the spec: what one evaluation of a chain makes available,
    the torques of its three limbs and the motion of the torso boundary. *)
Record NodeOutput := {
  Torques_up : Vector; Torques_left : Vector; Torques_right : Vector;
  TorsoAngVel : Vector; TorsoAngAcc : Vector; TorsoLinAcc : Vector
}.

(** Modelled from the spec: one chain ([iCubUpperTorso] with head and arms,
    [iCubLowerTorso] with torso and legs) holds the joint state of its three
    limbs, the base motion last given to it and the result of its last
    evaluation. *)
Record iDynNode := {
  kind : NodeKind;
  limb_up : LimbState; limb_left : LimbState; limb_right : LimbState;
  meas_w : Vector; meas_dw : Vector; meas_d2p : Vector;
  out : NodeOutput
}.

Record iCubWholeBody := { upperTorso : iDynNode; lowerTorso : iDynNode }.

Definition set_Ang v s := Build_LimbState v (DAng s) (D2Ang s).
Definition set_DAng v s := Build_LimbState (Ang s) v (D2Ang s).
Definition set_D2Ang v s := Build_LimbState (Ang s) (DAng s) v.
Definition set_kind v s := Build_iDynNode v (limb_up s) (limb_left s) (limb_right s) (meas_w s) (meas_dw s) (meas_d2p s) (out s).
Definition set_limb_up v s := Build_iDynNode (kind s) v (limb_left s) (limb_right s) (meas_w s) (meas_dw s) (meas_d2p s) (out s).
Definition set_limb_left v s := Build_iDynNode (kind s) (limb_up s) v (limb_right s) (meas_w s) (meas_dw s) (meas_d2p s) (out s).
Definition set_limb_right v s := Build_iDynNode (kind s) (limb_up s) (limb_left s) v (meas_w s) (meas_dw s) (meas_d2p s) (out s).
Definition set_meas_w v s := Build_iDynNode (kind s) (limb_up s) (limb_left s) (limb_right s) v (meas_dw s) (meas_d2p s) (out s).
Definition set_meas_dw v s := Build_iDynNode (kind s) (limb_up s) (limb_left s) (limb_right s) (meas_w s) v (meas_d2p s) (out s).
Definition set_meas_d2p v s := Build_iDynNode (kind s) (limb_up s) (limb_left s) (limb_right s) (meas_w s) (meas_dw s) v (out s).
Definition set_out v s := Build_iDynNode (kind s) (limb_up s) (limb_left s) (limb_right s) (meas_w s) (meas_dw s) (meas_d2p s) v.
Definition set_upperTorso v s := Build_iCubWholeBody v (lowerTorso s).
Definition set_lowerTorso v s := Build_iCubWholeBody (upperTorso s) v.
Inductive Slot := SlotUp | SlotLeft | SlotRight.

(** Modelled from the spec: the limb a name selects in a chain.  The upper
    chain calls its three limbs head, left_arm and right_arm, the lower
    chain torso, left_leg and right_leg; the module only ever names a limb
    the chain has. *)
Definition slot_of (limbType : string) : option Slot :=
  if String.eqb limbType "head" || String.eqb limbType "torso" then Some SlotUp
  else if String.eqb limbType "left_arm" || String.eqb limbType "left_leg"
  then Some SlotLeft
  else if String.eqb limbType "right_arm" || String.eqb limbType "right_leg"
  then Some SlotRight
  else None.

Definition get_limb (n : iDynNode) (sl : Slot) : LimbState :=
  match sl with
  | SlotUp => limb_up n | SlotLeft => limb_left n | SlotRight => limb_right n
  end.

Definition set_limb (sl : Slot) (l : LimbState) (n : iDynNode) : iDynNode :=
  match sl with
  | SlotUp => set_limb_up l n
  | SlotLeft => set_limb_left l n
  | SlotRight => set_limb_right l n
  end.

Definition on_limb (f : LimbState -> LimbState) (n : iDynNode) (limbType : string)
  : iDynNode :=
  match slot_of limbType with
  | Some sl => set_limb sl (f (get_limb n sl)) n
  | None => n
  end.

(** Modelled from the spec: the setters and getters of a chain. *)
Definition setAng (n : iDynNode) (limbType : string) (v : Vector) : iDynNode :=
  on_limb (set_Ang v) n limbType.
Definition setDAng (n : iDynNode) (limbType : string) (v : Vector) : iDynNode :=
  on_limb (set_DAng v) n limbType.
Definition setD2Ang (n : iDynNode) (limbType : string) (v : Vector) : iDynNode :=
  on_limb (set_D2Ang v) n limbType.

Definition setInertialMeasure (n : iDynNode) (w dw d2p : Vector) : iDynNode :=
  set_meas_d2p d2p (set_meas_dw dw (set_meas_w w n)).

Definition getTorsoAngVel (n : iDynNode) : Vector := TorsoAngVel (out n).
Definition getTorsoAngAcc (n : iDynNode) : Vector := TorsoAngAcc (out n).
Definition getTorsoLinAcc (n : iDynNode) : Vector := TorsoLinAcc (out n).

Definition getTorques (n : iDynNode) (limbType : string) : Vector :=
  match slot_of limbType with
  | Some SlotUp => Torques_up (out n)
  | Some SlotLeft => Torques_left (out n)
  | Some SlotRight => Torques_right (out n)
  | None => []
  end.

(** What the module takes from ctrlLib and iDyn.  The estimators are
    objects with a window of past samples, so an estimate returns the new
    estimator with the value.  The dynamics recursion is a function of the
    joint state of the three limbs, the base motion and the wrenches. *)
Class Collaborators := {
  AWLinEstimator : Type;
  AWQuadEstimator : Type;
  new_AWLinEstimator : nat -> Q -> AWLinEstimator;
  new_AWQuadEstimator : nat -> Q -> AWQuadEstimator;
  lin_estimate : AWLinEstimator -> AWPolyElement -> Vector * AWLinEstimator;
  quad_estimate : AWQuadEstimator -> AWPolyElement -> Vector * AWQuadEstimator;
  CTRL_DEG2RAD : Q;
  new_iCubWholeBody : iCubWholeBody;
  solve_update :
    NodeKind -> LimbState -> LimbState -> LimbState ->
    Vector -> Vector -> Vector -> Vector -> Vector -> Vector -> NodeOutput;
  solve_sensors :
    NodeKind -> LimbState -> LimbState -> LimbState ->
    Vector -> Vector -> Vector -> Matrix -> bool -> Matrix * NodeOutput
}.

Section Thread.
Context {C : Collaborators}.

(** Modelled from the spec: [node->update(w0, dw0, d2p0, F_right, F_left,
    F_up)] evaluates the chain on the joint state it holds, the base motion
    and the three wrenches. *)
Definition update (n : iDynNode) (w dw d2p FR FL Fup : Vector) : iDynNode :=
  let n1 := setInertialMeasure n w dw d2p in
  set_out
    (solve_update (kind n1) (limb_up n1) (limb_left n1) (limb_right n1)
       w dw d2p FR FL Fup) n1.

(** Modelled from the spec: [node->estimateSensorsWrench(F_ext, afterAttach)]
    returns the predicted sensor wrenches, one column per sensor. *)
Definition estimateSensorsWrench (n : iDynNode) (Fext : Matrix) (afterAttach : bool)
  : Matrix * iDynNode :=
  let r :=
    solve_sensors (kind n) (limb_up n) (limb_left n) (limb_right n)
      (meas_w n) (meas_dw n) (meas_d2p n) Fext afterAttach in
  (fst r, set_out (snd r) n).

(** *** The member variables *)

Record JointGroup := {
  g_encoders : Vector; g_q : Vector; g_dq : Vector; g_d2q : Vector
}.
Record Joints := {
  head : JointGroup; larm : JointGroup; rarm : JointGroup;
  torso : JointGroup; lleg : JointGroup; rleg : JointGroup
}.
Record SuperGroup := { sg_all_q : Vector; sg_all_dq : Vector; sg_all_d2q : Vector }.
Record FTLimb := {
  l_ft : option Vector; l_F : Vector; l_F_iDyn : Vector; l_Offset : Vector
}.
Record FTs := {
  arm_left : FTLimb; arm_right : FTLimb; leg_left : FTLimb; leg_right : FTLimb
}.
Record Inertial := {
  i_inertial : option Vector; i_inertial_measurements : Vector;
  i_w0 : Vector; i_dw0 : Vector; i_d2p0 : Vector
}.
Record Estimators := {
  e_InertialEst : AWLinEstimator;
  e_linEstUp : AWLinEstimator; e_quadEstUp : AWQuadEstimator;
  e_linEstLow : AWLinEstimator; e_quadEstLow : AWQuadEstimator
}.
Record Sens := {
  m_F_ext_up : Matrix; m_F_ext_low : Matrix;
  m_FM_sens_up : Matrix; m_FM_sens_low : Matrix
}.
Record Perf := {
  p_test : Z; p_comp : Z;
  p_startRun : Q; p_endRun : Q; p_startCompute : Q; p_endCompute : Q;
  p_ftRead : Q; p_ftCur : Q; p_ftNew : Z
}.

(** The object: its member variables by group, and [sent], the messages
    written to the output ports so far, oldest first. *)
Record inverseDynamics := {
  joints : Joints;
  up : SuperGroup; low : SuperGroup;
  fts : FTs;
  imu : Inertial;
  est : Estimators;
  icub : iCubWholeBody; icub_sens : iCubWholeBody;
  sens : Sens;
  thread_status : thread_status_enum;
  perf : Perf;
  sent : list (OutPort * Bottle)
}.

(** Assignment to one member of a group. *)
Definition set_g_encoders v s := Build_JointGroup v (g_q s) (g_dq s) (g_d2q s).
Definition set_g_q v s := Build_JointGroup (g_encoders s) v (g_dq s) (g_d2q s).
Definition set_g_dq v s := Build_JointGroup (g_encoders s) (g_q s) v (g_d2q s).
Definition set_g_d2q v s := Build_JointGroup (g_encoders s) (g_q s) (g_dq s) v.
Definition set_head v s := Build_Joints v (larm s) (rarm s) (torso s) (lleg s) (rleg s).
Definition set_larm v s := Build_Joints (head s) v (rarm s) (torso s) (lleg s) (rleg s).
Definition set_rarm v s := Build_Joints (head s) (larm s) v (torso s) (lleg s) (rleg s).
Definition set_torso v s := Build_Joints (head s) (larm s) (rarm s) v (lleg s) (rleg s).
Definition set_lleg v s := Build_Joints (head s) (larm s) (rarm s) (torso s) v (rleg s).
Definition set_rleg v s := Build_Joints (head s) (larm s) (rarm s) (torso s) (lleg s) v.
Definition set_sg_all_q v s := Build_SuperGroup v (sg_all_dq s) (sg_all_d2q s).
Definition set_sg_all_dq v s := Build_SuperGroup (sg_all_q s) v (sg_all_d2q s).
Definition set_sg_all_d2q v s := Build_SuperGroup (sg_all_q s) (sg_all_dq s) v.
Definition set_l_ft v s := Build_FTLimb v (l_F s) (l_F_iDyn s) (l_Offset s).
Definition set_l_F v s := Build_FTLimb (l_ft s) v (l_F_iDyn s) (l_Offset s).
Definition set_l_F_iDyn v s := Build_FTLimb (l_ft s) (l_F s) v (l_Offset s).
Definition set_l_Offset v s := Build_FTLimb (l_ft s) (l_F s) (l_F_iDyn s) v.
Definition set_arm_left v s := Build_FTs v (arm_right s) (leg_left s) (leg_right s).
Definition set_arm_right v s := Build_FTs (arm_left s) v (leg_left s) (leg_right s).
Definition set_leg_left v s := Build_FTs (arm_left s) (arm_right s) v (leg_right s).
Definition set_leg_right v s := Build_FTs (arm_left s) (arm_right s) (leg_left s) v.
Definition set_i_inertial v s := Build_Inertial v (i_inertial_measurements s) (i_w0 s) (i_dw0 s) (i_d2p0 s).
Definition set_i_inertial_measurements v s := Build_Inertial (i_inertial s) v (i_w0 s) (i_dw0 s) (i_d2p0 s).
Definition set_i_w0 v s := Build_Inertial (i_inertial s) (i_inertial_measurements s) v (i_dw0 s) (i_d2p0 s).
Definition set_i_dw0 v s := Build_Inertial (i_inertial s) (i_inertial_measurements s) (i_w0 s) v (i_d2p0 s).
Definition set_i_d2p0 v s := Build_Inertial (i_inertial s) (i_inertial_measurements s) (i_w0 s) (i_dw0 s) v.
Definition set_e_InertialEst v s := Build_Estimators v (e_linEstUp s) (e_quadEstUp s) (e_linEstLow s) (e_quadEstLow s).
Definition set_e_linEstUp v s := Build_Estimators (e_InertialEst s) v (e_quadEstUp s) (e_linEstLow s) (e_quadEstLow s).
Definition set_e_quadEstUp v s := Build_Estimators (e_InertialEst s) (e_linEstUp s) v (e_linEstLow s) (e_quadEstLow s).
Definition set_e_linEstLow v s := Build_Estimators (e_InertialEst s) (e_linEstUp s) (e_quadEstUp s) v (e_quadEstLow s).
Definition set_e_quadEstLow v s := Build_Estimators (e_InertialEst s) (e_linEstUp s) (e_quadEstUp s) (e_linEstLow s) v.
Definition set_m_F_ext_up v s := Build_Sens v (m_F_ext_low s) (m_FM_sens_up s) (m_FM_sens_low s).
Definition set_m_F_ext_low v s := Build_Sens (m_F_ext_up s) v (m_FM_sens_up s) (m_FM_sens_low s).
Definition set_m_FM_sens_up v s := Build_Sens (m_F_ext_up s) (m_F_ext_low s) v (m_FM_sens_low s).
Definition set_m_FM_sens_low v s := Build_Sens (m_F_ext_up s) (m_F_ext_low s) (m_FM_sens_up s) v.
Definition set_p_test v s := Build_Perf v (p_comp s) (p_startRun s) (p_endRun s) (p_startCompute s) (p_endCompute s) (p_ftRead s) (p_ftCur s) (p_ftNew s).
Definition set_p_comp v s := Build_Perf (p_test s) v (p_startRun s) (p_endRun s) (p_startCompute s) (p_endCompute s) (p_ftRead s) (p_ftCur s) (p_ftNew s).
Definition set_p_startRun v s := Build_Perf (p_test s) (p_comp s) v (p_endRun s) (p_startCompute s) (p_endCompute s) (p_ftRead s) (p_ftCur s) (p_ftNew s).
Definition set_p_endRun v s := Build_Perf (p_test s) (p_comp s) (p_startRun s) v (p_startCompute s) (p_endCompute s) (p_ftRead s) (p_ftCur s) (p_ftNew s).
Definition set_p_startCompute v s := Build_Perf (p_test s) (p_comp s) (p_startRun s) (p_endRun s) v (p_endCompute s) (p_ftRead s) (p_ftCur s) (p_ftNew s).
Definition set_p_endCompute v s := Build_Perf (p_test s) (p_comp s) (p_startRun s) (p_endRun s) (p_startCompute s) v (p_ftRead s) (p_ftCur s) (p_ftNew s).
Definition set_p_ftRead v s := Build_Perf (p_test s) (p_comp s) (p_startRun s) (p_endRun s) (p_startCompute s) (p_endCompute s) v (p_ftCur s) (p_ftNew s).
Definition set_p_ftCur v s := Build_Perf (p_test s) (p_comp s) (p_startRun s) (p_endRun s) (p_startCompute s) (p_endCompute s) (p_ftRead s) v (p_ftNew s).
Definition set_p_ftNew v s := Build_Perf (p_test s) (p_comp s) (p_startRun s) (p_endRun s) (p_startCompute s) (p_endCompute s) (p_ftRead s) (p_ftCur s) v.
Definition set_joints v s := Build_inverseDynamics v (up s) (low s) (fts s) (imu s) (est s) (icub s) (icub_sens s) (sens s) (thread_status s) (perf s) (sent s).
Definition set_up v s := Build_inverseDynamics (joints s) v (low s) (fts s) (imu s) (est s) (icub s) (icub_sens s) (sens s) (thread_status s) (perf s) (sent s).
Definition set_low v s := Build_inverseDynamics (joints s) (up s) v (fts s) (imu s) (est s) (icub s) (icub_sens s) (sens s) (thread_status s) (perf s) (sent s).
Definition set_fts v s := Build_inverseDynamics (joints s) (up s) (low s) v (imu s) (est s) (icub s) (icub_sens s) (sens s) (thread_status s) (perf s) (sent s).
Definition set_imu v s := Build_inverseDynamics (joints s) (up s) (low s) (fts s) v (est s) (icub s) (icub_sens s) (sens s) (thread_status s) (perf s) (sent s).
Definition set_est v s := Build_inverseDynamics (joints s) (up s) (low s) (fts s) (imu s) v (icub s) (icub_sens s) (sens s) (thread_status s) (perf s) (sent s).
Definition set_icub v s := Build_inverseDynamics (joints s) (up s) (low s) (fts s) (imu s) (est s) v (icub_sens s) (sens s) (thread_status s) (perf s) (sent s).
Definition set_icub_sens v s := Build_inverseDynamics (joints s) (up s) (low s) (fts s) (imu s) (est s) (icub s) v (sens s) (thread_status s) (perf s) (sent s).
Definition set_sens v s := Build_inverseDynamics (joints s) (up s) (low s) (fts s) (imu s) (est s) (icub s) (icub_sens s) v (thread_status s) (perf s) (sent s).
Definition set_thread_status v s := Build_inverseDynamics (joints s) (up s) (low s) (fts s) (imu s) (est s) (icub s) (icub_sens s) (sens s) v (perf s) (sent s).
Definition set_perf v s := Build_inverseDynamics (joints s) (up s) (low s) (fts s) (imu s) (est s) (icub s) (icub_sens s) (sens s) (thread_status s) v (sent s).
Definition set_sent v s := Build_inverseDynamics (joints s) (up s) (low s) (fts s) (imu s) (est s) (icub s) (icub_sens s) (sens s) (thread_status s) (perf s) v.
(** The members under the names the source gives them. *)
Definition encoders_head s := g_encoders (head (joints s)).
Definition set_encoders_head v s := set_joints (set_head (set_g_encoders v (head (joints s))) (joints s)) s.
Definition q_head s := g_q (head (joints s)).
Definition set_q_head v s := set_joints (set_head (set_g_q v (head (joints s))) (joints s)) s.
Definition dq_head s := g_dq (head (joints s)).
Definition set_dq_head v s := set_joints (set_head (set_g_dq v (head (joints s))) (joints s)) s.
Definition d2q_head s := g_d2q (head (joints s)).
Definition set_d2q_head v s := set_joints (set_head (set_g_d2q v (head (joints s))) (joints s)) s.
Definition encoders_arm_left s := g_encoders (larm (joints s)).
Definition set_encoders_arm_left v s := set_joints (set_larm (set_g_encoders v (larm (joints s))) (joints s)) s.
Definition q_larm s := g_q (larm (joints s)).
Definition set_q_larm v s := set_joints (set_larm (set_g_q v (larm (joints s))) (joints s)) s.
Definition dq_larm s := g_dq (larm (joints s)).
Definition set_dq_larm v s := set_joints (set_larm (set_g_dq v (larm (joints s))) (joints s)) s.
Definition d2q_larm s := g_d2q (larm (joints s)).
Definition set_d2q_larm v s := set_joints (set_larm (set_g_d2q v (larm (joints s))) (joints s)) s.
Definition encoders_arm_right s := g_encoders (rarm (joints s)).
Definition set_encoders_arm_right v s := set_joints (set_rarm (set_g_encoders v (rarm (joints s))) (joints s)) s.
Definition q_rarm s := g_q (rarm (joints s)).
Definition set_q_rarm v s := set_joints (set_rarm (set_g_q v (rarm (joints s))) (joints s)) s.
Definition dq_rarm s := g_dq (rarm (joints s)).
Definition set_dq_rarm v s := set_joints (set_rarm (set_g_dq v (rarm (joints s))) (joints s)) s.
Definition d2q_rarm s := g_d2q (rarm (joints s)).
Definition set_d2q_rarm v s := set_joints (set_rarm (set_g_d2q v (rarm (joints s))) (joints s)) s.
Definition encoders_torso s := g_encoders (torso (joints s)).
Definition set_encoders_torso v s := set_joints (set_torso (set_g_encoders v (torso (joints s))) (joints s)) s.
Definition q_torso s := g_q (torso (joints s)).
Definition set_q_torso v s := set_joints (set_torso (set_g_q v (torso (joints s))) (joints s)) s.
Definition dq_torso s := g_dq (torso (joints s)).
Definition set_dq_torso v s := set_joints (set_torso (set_g_dq v (torso (joints s))) (joints s)) s.
Definition d2q_torso s := g_d2q (torso (joints s)).
Definition set_d2q_torso v s := set_joints (set_torso (set_g_d2q v (torso (joints s))) (joints s)) s.
Definition encoders_leg_left s := g_encoders (lleg (joints s)).
Definition set_encoders_leg_left v s := set_joints (set_lleg (set_g_encoders v (lleg (joints s))) (joints s)) s.
Definition q_lleg s := g_q (lleg (joints s)).
Definition set_q_lleg v s := set_joints (set_lleg (set_g_q v (lleg (joints s))) (joints s)) s.
Definition dq_lleg s := g_dq (lleg (joints s)).
Definition set_dq_lleg v s := set_joints (set_lleg (set_g_dq v (lleg (joints s))) (joints s)) s.
Definition d2q_lleg s := g_d2q (lleg (joints s)).
Definition set_d2q_lleg v s := set_joints (set_lleg (set_g_d2q v (lleg (joints s))) (joints s)) s.
Definition encoders_leg_right s := g_encoders (rleg (joints s)).
Definition set_encoders_leg_right v s := set_joints (set_rleg (set_g_encoders v (rleg (joints s))) (joints s)) s.
Definition q_rleg s := g_q (rleg (joints s)).
Definition set_q_rleg v s := set_joints (set_rleg (set_g_q v (rleg (joints s))) (joints s)) s.
Definition dq_rleg s := g_dq (rleg (joints s)).
Definition set_dq_rleg v s := set_joints (set_rleg (set_g_dq v (rleg (joints s))) (joints s)) s.
Definition d2q_rleg s := g_d2q (rleg (joints s)).
Definition set_d2q_rleg v s := set_joints (set_rleg (set_g_d2q v (rleg (joints s))) (joints s)) s.
Definition all_q_up s := sg_all_q (up s).
Definition set_all_q_up v s := set_up (set_sg_all_q v (up s)) s.
Definition all_dq_up s := sg_all_dq (up s).
Definition set_all_dq_up v s := set_up (set_sg_all_dq v (up s)) s.
Definition all_d2q_up s := sg_all_d2q (up s).
Definition set_all_d2q_up v s := set_up (set_sg_all_d2q v (up s)) s.
Definition all_q_low s := sg_all_q (low s).
Definition set_all_q_low v s := set_low (set_sg_all_q v (low s)) s.
Definition all_dq_low s := sg_all_dq (low s).
Definition set_all_dq_low v s := set_low (set_sg_all_dq v (low s)) s.
Definition all_d2q_low s := sg_all_d2q (low s).
Definition set_all_d2q_low v s := set_low (set_sg_all_d2q v (low s)) s.
Definition ft_arm_left s := l_ft (arm_left (fts s)).
Definition set_ft_arm_left v s := set_fts (set_arm_left (set_l_ft v (arm_left (fts s))) (fts s)) s.
Definition F_LArm s := l_F (arm_left (fts s)).
Definition set_F_LArm v s := set_fts (set_arm_left (set_l_F v (arm_left (fts s))) (fts s)) s.
Definition F_iDyn_LArm s := l_F_iDyn (arm_left (fts s)).
Definition set_F_iDyn_LArm v s := set_fts (set_arm_left (set_l_F_iDyn v (arm_left (fts s))) (fts s)) s.
Definition Offset_LArm s := l_Offset (arm_left (fts s)).
Definition set_Offset_LArm v s := set_fts (set_arm_left (set_l_Offset v (arm_left (fts s))) (fts s)) s.
Definition ft_arm_right s := l_ft (arm_right (fts s)).
Definition set_ft_arm_right v s := set_fts (set_arm_right (set_l_ft v (arm_right (fts s))) (fts s)) s.
Definition F_RArm s := l_F (arm_right (fts s)).
Definition set_F_RArm v s := set_fts (set_arm_right (set_l_F v (arm_right (fts s))) (fts s)) s.
Definition F_iDyn_RArm s := l_F_iDyn (arm_right (fts s)).
Definition set_F_iDyn_RArm v s := set_fts (set_arm_right (set_l_F_iDyn v (arm_right (fts s))) (fts s)) s.
Definition Offset_RArm s := l_Offset (arm_right (fts s)).
Definition set_Offset_RArm v s := set_fts (set_arm_right (set_l_Offset v (arm_right (fts s))) (fts s)) s.
Definition ft_leg_left s := l_ft (leg_left (fts s)).
Definition set_ft_leg_left v s := set_fts (set_leg_left (set_l_ft v (leg_left (fts s))) (fts s)) s.
Definition F_LLeg s := l_F (leg_left (fts s)).
Definition set_F_LLeg v s := set_fts (set_leg_left (set_l_F v (leg_left (fts s))) (fts s)) s.
Definition F_iDyn_LLeg s := l_F_iDyn (leg_left (fts s)).
Definition set_F_iDyn_LLeg v s := set_fts (set_leg_left (set_l_F_iDyn v (leg_left (fts s))) (fts s)) s.
Definition Offset_LLeg s := l_Offset (leg_left (fts s)).
Definition set_Offset_LLeg v s := set_fts (set_leg_left (set_l_Offset v (leg_left (fts s))) (fts s)) s.
Definition ft_leg_right s := l_ft (leg_right (fts s)).
Definition set_ft_leg_right v s := set_fts (set_leg_right (set_l_ft v (leg_right (fts s))) (fts s)) s.
Definition F_RLeg s := l_F (leg_right (fts s)).
Definition set_F_RLeg v s := set_fts (set_leg_right (set_l_F v (leg_right (fts s))) (fts s)) s.
Definition F_iDyn_RLeg s := l_F_iDyn (leg_right (fts s)).
Definition set_F_iDyn_RLeg v s := set_fts (set_leg_right (set_l_F_iDyn v (leg_right (fts s))) (fts s)) s.
Definition Offset_RLeg s := l_Offset (leg_right (fts s)).
Definition set_Offset_RLeg v s := set_fts (set_leg_right (set_l_Offset v (leg_right (fts s))) (fts s)) s.
Definition inertial s := i_inertial (imu s).
Definition set_inertial v s := set_imu (set_i_inertial v (imu s)) s.
Definition inertial_measurements s := i_inertial_measurements (imu s).
Definition set_inertial_measurements v s := set_imu (set_i_inertial_measurements v (imu s)) s.
Definition w0 s := i_w0 (imu s).
Definition set_w0 v s := set_imu (set_i_w0 v (imu s)) s.
Definition dw0 s := i_dw0 (imu s).
Definition set_dw0 v s := set_imu (set_i_dw0 v (imu s)) s.
Definition d2p0 s := i_d2p0 (imu s).
Definition set_d2p0 v s := set_imu (set_i_d2p0 v (imu s)) s.
Definition InertialEst s := e_InertialEst (est s).
Definition set_InertialEst v s := set_est (set_e_InertialEst v (est s)) s.
Definition linEstUp s := e_linEstUp (est s).
Definition set_linEstUp v s := set_est (set_e_linEstUp v (est s)) s.
Definition quadEstUp s := e_quadEstUp (est s).
Definition set_quadEstUp v s := set_est (set_e_quadEstUp v (est s)) s.
Definition linEstLow s := e_linEstLow (est s).
Definition set_linEstLow v s := set_est (set_e_linEstLow v (est s)) s.
Definition quadEstLow s := e_quadEstLow (est s).
Definition set_quadEstLow v s := set_est (set_e_quadEstLow v (est s)) s.
Definition F_ext_up s := m_F_ext_up (sens s).
Definition set_F_ext_up v s := set_sens (set_m_F_ext_up v (sens s)) s.
Definition F_ext_low s := m_F_ext_low (sens s).
Definition set_F_ext_low v s := set_sens (set_m_F_ext_low v (sens s)) s.
Definition FM_sens_up s := m_FM_sens_up (sens s).
Definition set_FM_sens_up v s := set_sens (set_m_FM_sens_up v (sens s)) s.
Definition FM_sens_low s := m_FM_sens_low (sens s).
Definition set_FM_sens_low v s := set_sens (set_m_FM_sens_low v (sens s)) s.
Definition test s := p_test (perf s).
Definition set_test v s := set_perf (set_p_test v (perf s)) s.
Definition comp s := p_comp (perf s).
Definition set_comp v s := set_perf (set_p_comp v (perf s)) s.
Definition startRun s := p_startRun (perf s).
Definition set_startRun v s := set_perf (set_p_startRun v (perf s)) s.
Definition endRun s := p_endRun (perf s).
Definition set_endRun v s := set_perf (set_p_endRun v (perf s)) s.
Definition startCompute s := p_startCompute (perf s).
Definition set_startCompute v s := set_perf (set_p_startCompute v (perf s)) s.
Definition endCompute s := p_endCompute (perf s).
Definition set_endCompute v s := set_perf (set_p_endCompute v (perf s)) s.
Definition ftRead s := p_ftRead (perf s).
Definition set_ftRead v s := set_perf (set_p_ftRead v (perf s)) s.
Definition ftCur s := p_ftCur (perf s).
Definition set_ftCur v s := set_perf (set_p_ftCur v (perf s)) s.
Definition ftNew s := p_ftNew (perf s).
Definition set_ftNew v s := set_perf (set_p_ftNew v (perf s)) s.

(** *** The environment of one call *)

(** What [port->read(waitMeasure)] returns on the five input ports: a
    vector, or the null pointer ([None]). *)
Record PortReads := {
  rd_ft_arm_left : option Vector; rd_ft_arm_right : option Vector;
  rd_ft_leg_left : option Vector; rd_ft_leg_right : option Vector;
  rd_inertial : option Vector
}.

(** What [getEncoders] returns for each of the six boards: its result and
    the values the board wrote. *)
Record EncoderReads := {
  enc_arm_left : bool * Vector; enc_arm_right : bool * Vector;
  enc_head : bool * Vector;
  enc_leg_left : bool * Vector; enc_leg_right : bool * Vector;
  enc_torso : bool * Vector
}.

(** The value of [Time::now()] at each place that reads the clock. *)
Record Clock := {
  now_startRun : Q; now_ftCur : Q; now_domega : Q;
  now_velUp : Q; now_accUp : Q; now_velLow : Q; now_accLow : Q;
  now_startCompute : Q; now_endCompute : Q; now_endRun : Q
}.

Record Env := { ports : PortReads; encs : EncoderReads; clock : Clock }.

(** [iencs->getEncoders(buf.data())]: the values of the board land in the
    buffer, whose size does not change. *)
Definition getEncoders (r : bool * Vector) (buf : Vector) : bool * Vector :=
  (fst r, take (length buf) (snd r) ++ drop (length (snd r)) buf).

(** *** The estimator wrappers *)

Definition evalVelUp (s : inverseDynamics) (now : Q) (x : Vector)
  : Vector * inverseDynamics :=
  let el := {| data := x; time := now |} in
  let r := lin_estimate (linEstUp s) el in (fst r, set_linEstUp (snd r) s).

Definition evalVelLow (s : inverseDynamics) (now : Q) (x : Vector)
  : Vector * inverseDynamics :=
  let el := {| data := x; time := now |} in
  let r := lin_estimate (linEstLow s) el in (fst r, set_linEstLow (snd r) s).

Definition eval_domega (s : inverseDynamics) (now : Q) (x : Vector)
  : Vector * inverseDynamics :=
  let el := {| data := x; time := now |} in
  let r := lin_estimate (InertialEst s) el in (fst r, set_InertialEst (snd r) s).

Definition evalAccUp (s : inverseDynamics) (now : Q) (x : Vector)
  : Vector * inverseDynamics :=
  let el := {| data := x; time := now |} in
  let r := quad_estimate (quadEstUp s) el in (fst r, set_quadEstUp (snd r) s).

Definition evalAccLow (s : inverseDynamics) (now : Q) (x : Vector)
  : Vector * inverseDynamics :=
  let el := {| data := x; time := now |} in
  let r := quad_estimate (quadEstLow s) el in (fst r, set_quadEstLow (snd r) s).

(** *** Construction *)

(** The object before the body of the constructor has run: the estimators
    and the two bodies are built, every vector is empty, the pointers hold
    nothing.  (The source gives [thread_status] no value before
    [threadInit]; [threadInit] and [run] assign it before it is read.) *)
Definition blank : inverseDynamics :=
  let grp := {| g_encoders := []; g_q := []; g_dq := []; g_d2q := [] |} in
  let sup := {| sg_all_q := []; sg_all_dq := []; sg_all_d2q := [] |} in
  let lim := {| l_ft := None; l_F := []; l_F_iDyn := []; l_Offset := [] |} in
  {| joints := {| head := grp; larm := grp; rarm := grp;
                  torso := grp; lleg := grp; rleg := grp |};
     up := sup; low := sup;
     fts := {| arm_left := lim; arm_right := lim; leg_left := lim; leg_right := lim |};
     imu := {| i_inertial := None; i_inertial_measurements := [];
               i_w0 := []; i_dw0 := []; i_d2p0 := [] |};
     est := {| e_InertialEst := new_AWLinEstimator 16 1;
               e_linEstUp := new_AWLinEstimator 16 1;
               e_quadEstUp := new_AWQuadEstimator 25 1;
               e_linEstLow := new_AWLinEstimator 16 1;
               e_quadEstLow := new_AWQuadEstimator 25 1 |};
     icub := new_iCubWholeBody; icub_sens := new_iCubWholeBody;
     sens := {| m_F_ext_up := []; m_F_ext_low := [];
                m_FM_sens_up := []; m_FM_sens_low := [] |};
     thread_status := STATUS_OK;
     perf := {| p_test := 0; p_comp := 0; p_startRun := 0; p_endRun := 0;
                p_startCompute := 0; p_endCompute := 0;
                p_ftRead := 0; p_ftCur := 0; p_ftNew := 0 |};
     sent := [] |}.

(** [m.resize(r, c)] followed by [m.zero()]. *)
Definition mzeros (r c : nat) : Matrix := replicate r (vzeros c).

(** [init_upper]; the three arguments are what [getAxes] reports.  (The
    encoder buffers are resized without a fill value; they are shown zeroed,
    and [getEncoders] overwrites them before they are read.) *)
Definition init_upper (jnt_arm_left jnt_arm_right jnt_head : nat)
    (s : inverseDynamics) : inverseDynamics :=
  let allJnt := 0%nat in
  let s := set_encoders_arm_left (vzeros jnt_arm_left) s in
  let s := set_F_LArm (vzeros 6) s in
  let s := set_F_iDyn_LArm (vzeros 6) s in
  let s := set_Offset_LArm (vzeros 6) s in
  let s := set_q_larm (vzeros 7) s in
  let s := set_dq_larm (vzeros 7) s in
  let s := set_d2q_larm (vzeros 7) s in
  let allJnt := (allJnt + jnt_arm_left)%nat in
  let s := set_encoders_arm_right (vzeros jnt_arm_right) s in
  let s := set_q_rarm (vzeros 7) s in
  let s := set_dq_rarm (vzeros 7) s in
  let s := set_d2q_rarm (vzeros 7) s in
  let s := set_F_RArm (vzeros 6) s in
  let s := set_F_iDyn_RArm (vzeros 6) s in
  let s := set_Offset_RArm (vzeros 6) s in
  let allJnt := (allJnt + jnt_arm_right)%nat in
  let s := set_encoders_head (vzeros jnt_head) s in
  let s := set_q_head (vzeros 3) s in
  let s := set_dq_head (vzeros 3) s in
  let s := set_d2q_head (vzeros 3) s in
  let allJnt := (allJnt + jnt_head)%nat in
  let s := set_all_q_up (vzeros allJnt) s in
  let s := set_all_dq_up (vzeros allJnt) s in
  let s := set_all_d2q_up (vzeros allJnt) s in
  set_FM_sens_up (mzeros 6 2) s.

(** [init_lower]. *)
Definition init_lower (jnt_leg_left jnt_leg_right jnt_torso : nat)
    (s : inverseDynamics) : inverseDynamics :=
  let allJnt := 0%nat in
  let s := set_encoders_leg_left (vzeros jnt_leg_left) s in
  let s := set_F_LLeg (vzeros 6) s in
  let s := set_F_iDyn_LLeg (vzeros 6) s in
  let s := set_Offset_LLeg (vzeros 6) s in
  let s := set_q_lleg (vzeros 7) s in
  let s := set_dq_lleg (vzeros 7) s in
  let s := set_d2q_lleg (vzeros 7) s in
  let allJnt := (allJnt + jnt_leg_left)%nat in
  let s := set_encoders_leg_right (vzeros jnt_leg_right) s in
  let s := set_q_rleg (vzeros 7) s in
  let s := set_dq_rleg (vzeros 7) s in
  let s := set_d2q_rleg (vzeros 7) s in
  let s := set_F_RLeg (vzeros 6) s in
  let s := set_F_iDyn_RLeg (vzeros 6) s in
  let s := set_Offset_RLeg (vzeros 6) s in
  let allJnt := (allJnt + jnt_leg_right)%nat in
  let s := set_encoders_torso (vzeros jnt_torso) s in
  let s := set_q_torso (vzeros 3) s in
  let s := set_dq_torso (vzeros 3) s in
  let s := set_d2q_torso (vzeros 3) s in
  let allJnt := (allJnt + jnt_torso)%nat in
  let s := set_all_q_low (vzeros allJnt) s in
  let s := set_all_dq_low (vzeros allJnt) s in
  let s := set_all_d2q_low (vzeros allJnt) s in
  set_FM_sens_low (mzeros 6 2) s.

(** The constructor, after the ports are opened and the devices viewed. *)
Definition inverseDynamics_new
    (jnt_arm_left jnt_arm_right jnt_head jnt_leg_left jnt_leg_right jnt_torso : nat)
  : inverseDynamics :=
  let s := blank in
  let s := set_test 0%Z s in
  let s := set_comp 0%Z s in
  let s := init_upper jnt_arm_left jnt_arm_right jnt_head s in
  let s := init_lower jnt_leg_left jnt_leg_right jnt_torso s in
  let s := set_w0 (vzeros 3) s in
  let s := set_dw0 (vzeros 3) s in
  let s := set_d2p0 (vzeros 3) s in
  let s := set_F_ext_up (mzeros 6 3) s in
  let s := set_F_ext_low (mzeros 6 3) s in
  let s := set_inertial_measurements (vzeros 12) s in
  let s := set_startRun 0 s in
  let s := set_endRun 0 s in
  let s := set_startCompute 0 s in
  let s := set_endCompute 0 s in
  set_ftRead 0 s.

Definition getThreadStatus (s : inverseDynamics) : thread_status_enum :=
  thread_status s.

(** *** Reading the joints *)

(** [for (i = 0; i < q.length(); i++) { q(i) = src(i); all(off+i) = q(i); }],
    [i] the index reached and [n] the iterations left. *)
Fixpoint read_loop (src : nat -> Q) (off i n : nat) (qv allv : Vector)
  : Vector * Vector :=
  match n with
  | O => (qv, allv)
  | S n' =>
      let qv1 := <[i := src i]> qv in
      let allv1 := <[(off + i)%nat := qv1 !!! i]> allv in
      read_loop src off (S i) n' qv1 allv1
  end.

(** [for (i = 0; i < q.length(); i++) { dq(i) = all_dq(i+off);
    d2q(i) = all_d2q(i+off); }]. *)
Fixpoint slice_loop (all_dq all_d2q : Vector) (off i n : nat) (dqv d2qv : Vector)
  : Vector * Vector :=
  match n with
  | O => (dqv, d2qv)
  | S n' =>
      let dqv1 := <[i := all_dq !!! (i + off)%nat]> dqv in
      let d2qv1 := <[i := all_d2q !!! (i + off)%nat]> d2qv in
      slice_loop all_dq all_d2q off (S i) n' dqv1 d2qv1
  end.

Definition getLowerEncodersSpeedAndAcceleration (s : inverseDynamics) (env : Env)
  : bool * inverseDynamics :=
  let b := true in
  let '(r, buf) := getEncoders (enc_leg_left (encs env)) (encoders_leg_left s) in
  let s := set_encoders_leg_left buf s in
  let b := b && r in
  let '(r, buf) := getEncoders (enc_leg_right (encs env)) (encoders_leg_right s) in
  let s := set_encoders_leg_right buf s in
  let b := b && r in
  let '(r, buf) := getEncoders (enc_torso (encs env)) (encoders_torso s) in
  let s := set_encoders_torso buf s in
  let b := b && r in
  let nt := length (q_torso s) in
  let nl := length (q_lleg s) in
  let nr := length (q_rleg s) in
  let r :=
    read_loop (fun i => vget (encoders_torso s) (2 - Z.of_nat i)) 0 0 nt
      (q_torso s) (all_q_low s) in
  let s := set_all_q_low (snd r) (set_q_torso (fst r) s) in
  let r :=
    read_loop (fun i => vget (encoders_leg_left s) (Z.of_nat i)) nt 0 nl
      (q_lleg s) (all_q_low s) in
  let s := set_all_q_low (snd r) (set_q_lleg (fst r) s) in
  let r :=
    read_loop (fun i => vget (encoders_leg_right s) (Z.of_nat i)) (nt + nl) 0 nr
      (q_rleg s) (all_q_low s) in
  let s := set_all_q_low (snd r) (set_q_rleg (fst r) s) in
  let '(v, s) := evalVelLow s (now_velLow (clock env)) (all_q_low s) in
  let s := set_all_dq_low v s in
  let '(v, s) := evalAccLow s (now_accLow (clock env)) (all_q_low s) in
  let s := set_all_d2q_low v s in
  let r :=
    slice_loop (all_dq_low s) (all_d2q_low s) 0 0 nt (dq_torso s) (d2q_torso s) in
  let s := set_d2q_torso (snd r) (set_dq_torso (fst r) s) in
  let r :=
    slice_loop (all_dq_low s) (all_d2q_low s) nt 0 nl (dq_lleg s) (d2q_lleg s) in
  let s := set_d2q_lleg (snd r) (set_dq_lleg (fst r) s) in
  let r :=
    slice_loop (all_dq_low s) (all_d2q_low s) (nt + nl) 0 nr (dq_rleg s) (d2q_rleg s) in
  let s := set_d2q_rleg (snd r) (set_dq_rleg (fst r) s) in
  (b, s).

Definition getUpperEncodersSpeedAndAcceleration (s : inverseDynamics) (env : Env)
  : bool * inverseDynamics :=
  let b := true in
  let '(r, buf) := getEncoders (enc_arm_left (encs env)) (encoders_arm_left s) in
  let s := set_encoders_arm_left buf s in
  let b := b && r in
  let '(r, buf) := getEncoders (enc_arm_right (encs env)) (encoders_arm_right s) in
  let s := set_encoders_arm_right buf s in
  let b := b && r in
  let '(r, buf) := getEncoders (enc_head (encs env)) (encoders_head s) in
  let s := set_encoders_head buf s in
  let b := b && r in
  let nh := length (q_head s) in
  let nl := length (q_larm s) in
  let nr := length (q_rarm s) in
  let r :=
    read_loop (fun i => vget (encoders_head s) (Z.of_nat i)) 0 0 nh
      (q_head s) (all_q_up s) in
  let s := set_all_q_up (snd r) (set_q_head (fst r) s) in
  let r :=
    read_loop (fun i => vget (encoders_arm_left s) (Z.of_nat i)) nh 0 nl
      (q_larm s) (all_q_up s) in
  let s := set_all_q_up (snd r) (set_q_larm (fst r) s) in
  let r :=
    read_loop (fun i => vget (encoders_arm_right s) (Z.of_nat i)) (nh + nl) 0 nr
      (q_rarm s) (all_q_up s) in
  let s := set_all_q_up (snd r) (set_q_rarm (fst r) s) in
  let '(v, s) := evalVelUp s (now_velUp (clock env)) (all_q_up s) in
  let s := set_all_dq_up v s in
  let '(v, s) := evalAccUp s (now_accUp (clock env)) (all_q_up s) in
  let s := set_all_d2q_up v s in
  let r :=
    slice_loop (all_dq_up s) (all_d2q_up s) 0 0 nh (dq_head s) (d2q_head s) in
  let s := set_d2q_head (snd r) (set_dq_head (fst r) s) in
  let r :=
    slice_loop (all_dq_up s) (all_d2q_up s) nh 0 nl (dq_larm s) (d2q_larm s) in
  let s := set_d2q_larm (snd r) (set_dq_larm (fst r) s) in
  let r :=
    slice_loop (all_dq_up s) (all_d2q_up s) (nh + nl) 0 nr (dq_rarm s) (d2q_rarm s) in
  let s := set_d2q_rarm (snd r) (set_dq_rarm (fst r) s) in
  (b, s).

(** *** Handing the joint state to the model *)

(** The nine calls on the lower chain of one body. *)
Definition lower_measure (n : iDynNode) (s : inverseDynamics) : iDynNode :=
  let n := setAng n "torso" (vscale CTRL_DEG2RAD (q_torso s)) in
  let n := setDAng n "torso" (vscale CTRL_DEG2RAD (dq_torso s)) in
  let n := setD2Ang n "torso" (vscale CTRL_DEG2RAD (d2q_torso s)) in
  let n := setAng n "left_leg" (vscale CTRL_DEG2RAD (q_lleg s)) in
  let n := setDAng n "left_leg" (vscale CTRL_DEG2RAD (dq_lleg s)) in
  let n := setD2Ang n "left_leg" (vscale CTRL_DEG2RAD (d2q_lleg s)) in
  let n := setAng n "right_leg" (vscale CTRL_DEG2RAD (q_rleg s)) in
  let n := setDAng n "right_leg" (vscale CTRL_DEG2RAD (dq_rleg s)) in
  setD2Ang n "right_leg" (vscale CTRL_DEG2RAD (d2q_rleg s)).

(** The ten calls on the upper chain of one body. *)
Definition upper_measure (n : iDynNode) (s : inverseDynamics) : iDynNode :=
  let n := setAng n "head" (vscale CTRL_DEG2RAD (q_head s)) in
  let n := setAng n "left_arm" (vscale CTRL_DEG2RAD (q_larm s)) in
  let n := setAng n "right_arm" (vscale CTRL_DEG2RAD (q_rarm s)) in
  let n := setDAng n "head" (vscale CTRL_DEG2RAD (dq_head s)) in
  let n := setDAng n "left_arm" (vscale CTRL_DEG2RAD (dq_larm s)) in
  let n := setDAng n "right_arm" (vscale CTRL_DEG2RAD (dq_rarm s)) in
  let n := setD2Ang n "head" (vscale CTRL_DEG2RAD (d2q_head s)) in
  let n := setD2Ang n "left_arm" (vscale CTRL_DEG2RAD (d2q_larm s)) in
  let n := setD2Ang n "right_arm" (vscale CTRL_DEG2RAD (d2q_rarm s)) in
  setInertialMeasure n (w0 s) (dw0 s) (d2p0 s).

Definition setLowerMeasure (s : inverseDynamics) (_init : bool) : inverseDynamics :=
  if negb _init then
    let s := set_icub (set_lowerTorso (lower_measure (lowerTorso (icub s)) s) (icub s)) s in
    if (test s =? VOCAB_COMP)%Z then
      set_icub_sens
        (set_lowerTorso (lower_measure (lowerTorso (icub_sens s)) s) (icub_sens s)) s
    else s
  else
    set_icub_sens
      (set_lowerTorso (lower_measure (lowerTorso (icub_sens s)) s) (icub_sens s)) s.

Definition setUpperMeasure (s : inverseDynamics) (_init : bool) : inverseDynamics :=
  if negb _init then
    let s := set_icub (set_upperTorso (upper_measure (upperTorso (icub s)) s) (icub s)) s in
    if (test s =? VOCAB_COMP)%Z then
      set_icub_sens
        (set_upperTorso (upper_measure (upperTorso (icub_sens s)) s) (icub_sens s)) s
    else s
  else
    set_icub_sens
      (set_upperTorso (upper_measure (upperTorso (icub_sens s)) s) (icub_sens s)) s.

Definition setZeroJntAngVelAcc (s : inverseDynamics) : inverseDynamics :=
  let s := set_dq_head (vfill (dq_head s) 0) s in
  let s := set_d2q_head (vfill (d2q_head s) 0) s in
  let s := set_dq_larm (vfill (dq_larm s) 0) s in
  let s := set_d2q_larm (vfill (d2q_larm s) 0) s in
  let s := set_dq_rarm (vfill (dq_rarm s) 0) s in
  let s := set_d2q_rarm (vfill (d2q_rarm s) 0) s in
  let s := set_dq_rleg (vfill (dq_rleg s) 0) s in
  let s := set_d2q_rleg (vfill (d2q_rleg s) 0) s in
  let s := set_dq_lleg (vfill (dq_lleg s) 0) s in
  let s := set_d2q_lleg (vfill (d2q_lleg s) 0) s in
  let s := set_dq_torso (vfill (dq_torso s) 0) s in
  set_d2q_torso (vfill (d2q_torso s) 0) s.

(** *** [readAndUpdate] *)

Definition is_null {A} (p : option A) : bool :=
  match p with Some _ => false | None => true end.

(** The result of a call that waits when [shouldWait] is set: a call that
    waits may never return, a call that does not wait always returns. *)
Definition Read (shouldWait : bool) (A : Type) : Type :=
  if shouldWait then option A else A.

Definition retR {A} (shouldWait : bool) : A -> Read shouldWait A :=
  match shouldWait with
  | true => fun a => Some a
  | false => fun a => a
  end.

Definition bindR {A B} (shouldWait : bool)
  : Read shouldWait A -> (A -> Read shouldWait B) -> Read shouldWait B :=
  match shouldWait with
  | true => fun x f => match x with Some a => f a | None => None end
  | false => fun x f => f x
  end.

(** [port->read(shouldWait)] on a port that holds the message [r], or none:
    without waiting the call returns at once, with a null pointer when
    there is no message; with waiting it returns only with a message. *)
Definition read (shouldWait : bool) (r : option Vector) : Read shouldWait (option Vector) :=
  match shouldWait with
  | true => match r with Some v => Some (Some v) | None => None end
  | false => r
  end.

(** The five reads at the head of [readAndUpdate]. *)
Definition read_ports (s : inverseDynamics) (env : Env) (waitMeasure : bool)
  : Read waitMeasure inverseDynamics :=
  bindR waitMeasure (read waitMeasure (rd_ft_arm_left (ports env))) (fun p =>
  let s := set_ft_arm_left p s in
  bindR waitMeasure (read waitMeasure (rd_ft_arm_right (ports env))) (fun p =>
  let s := set_ft_arm_right p s in
  bindR waitMeasure (read waitMeasure (rd_ft_leg_left (ports env))) (fun p =>
  let s := set_ft_leg_left p s in
  bindR waitMeasure (read waitMeasure (rd_ft_leg_right (ports env))) (fun p =>
  let s := set_ft_leg_right p s in
  bindR waitMeasure (read waitMeasure (rd_inertial (ports env))) (fun p =>
  retR waitMeasure (set_inertial p s)))))).

(** The block [if (test == VOCAB_TEST) { ... }] of [readAndUpdate]. *)
Definition read_timing (s : inverseDynamics) (env : Env) : inverseDynamics :=
  if (test s =? VOCAB_TEST)%Z then
    let s := set_ftCur (now_ftCur (clock env)) s in
    if negb (is_null (ft_arm_left s)) && negb (is_null (ft_arm_right s))
       && negb (is_null (ft_leg_left s)) && negb (is_null (ft_leg_right s))
    then set_ftRead (ftCur s) (set_ftNew 1%Z s)
    else set_ftNew 0%Z s
  else s.

(** The block [if (inertial != 0) { ... }] of [readAndUpdate]. *)
Definition read_inertial (s : inverseDynamics) (env : Env) : inverseDynamics :=
  match inertial s with
  | Some v =>
      let s := set_inertial_measurements v s in
      let s := set_d2p0 (<[0%nat := vget (inertial_measurements s) 0]> (d2p0 s)) s in
      let s := set_d2p0 (<[1%nat := vget (inertial_measurements s) 1]> (d2p0 s)) s in
      let s := set_d2p0 (<[2%nat := vget (inertial_measurements s) 2]> (d2p0 s)) s in
      let s := set_w0 (<[0%nat := vget (inertial_measurements s) 3]> (w0 s)) s in
      let s := set_w0 (<[1%nat := vget (inertial_measurements s) 4]> (w0 s)) s in
      let s := set_w0 (<[2%nat := vget (inertial_measurements s) 5]> (w0 s)) s in
      let '(v, s) := eval_domega s (now_domega (clock env)) (w0 s) in
      set_dw0 v s
  | None => s
  end.

(** With [waitMeasure] the call returns only when each of the five ports
    has delivered a message. *)
Definition readAndUpdate (s : inverseDynamics) (env : Env) (waitMeasure _init : bool)
  : Read waitMeasure (bool * inverseDynamics) :=
  let b := true in
  bindR waitMeasure (read_ports s env waitMeasure) (fun s =>
  let s := read_timing s env in
  let s := read_inertial s env in
  let '(r, s) := getUpperEncodersSpeedAndAcceleration s env in
  let b := b && r in
  let s := setUpperMeasure s _init in
  let '(r, s) := getLowerEncodersSpeedAndAcceleration s env in
  let b := b && r in
  let s := setLowerMeasure s _init in
  retR waitMeasure (b, s)).

(** *** Publishing *)

Definition writeTorque (_values : Vector) (_address : Z) (_port : OutPort)
    (s : inverseDynamics) : inverseDynamics :=
  let a := addInt [] _address in
  let a := fold_left addDouble _values a in
  set_sent (sent s ++ [(_port, a)]) s.

(** [for (i = 0; i < 6; i++) b.addDouble(f(i))]. *)
Definition add6 (f : nat -> Q) (b : Bottle) : Bottle :=
  fold_left (fun b i => addDouble b (f i)) (seq 0 6) b.

(** *** The model on the sensor body, as [calibrateOffset] and the
    comparison branch of [run] call it *)

Definition sensor_wrenches (s : inverseDynamics) : Matrix * Matrix * inverseDynamics :=
  let n := setInertialMeasure (upperTorso (icub_sens s)) (w0 s) (dw0 s) (d2p0 s) in
  let '(m_up, n) := estimateSensorsWrench n (F_ext_up s) false in
  let s := set_icub_sens (set_upperTorso n (icub_sens s)) s in
  let u := upperTorso (icub_sens s) in
  let n := setInertialMeasure (lowerTorso (icub_sens s))
             (getTorsoAngVel u) (getTorsoAngAcc u) (getTorsoLinAcc u) in
  let '(m_low, n) := estimateSensorsWrench n (F_ext_low s) false in
  let s := set_icub_sens (set_lowerTorso n (icub_sens s)) s in
  (m_up, m_low, s).

(** *** [run], block by block *)

(** From the head of [run] to the test of what [readAndUpdate] returned.
    (The message the source prints once a minute leaves nothing in the
    object and is not represented.) *)
Definition run_read (s : inverseDynamics) (env : Env) : inverseDynamics :=
  let s :=
    if (test s =? VOCAB_TEST)%Z
    then set_ftNew 0%Z (set_startRun (now_startRun (clock env)) s)
    else s in
  let s := set_thread_status STATUS_OK s in
  let '(r, s) := readAndUpdate s env false false in
  if negb r then set_thread_status STATUS_DISCONNECTED s else s.

(** [setZeroJntAngVelAcc(); setUpperMeasure(); setLowerMeasure();] *)
Definition run_zero (s : inverseDynamics) : inverseDynamics :=
  let s := setZeroJntAngVelAcc s in
  let s := setUpperMeasure s false in
  setLowerMeasure s false.

(** The four guarded assignments of the measured wrenches: where the
    pointer [ft_...] is not null, [F_...] becomes [-1.0] times the difference
    of the vector it points to and [Offset_...]. *)
Definition run_wrench (s : inverseDynamics) : inverseDynamics :=
  let s :=
    match ft_arm_left s with
    | Some f => set_F_LArm (vscale (-1) (vsub f (Offset_LArm s))) s
    | None => s
    end in
  let s :=
    match ft_arm_right s with
    | Some f => set_F_RArm (vscale (-1) (vsub f (Offset_RArm s))) s
    | None => s
    end in
  let s :=
    match ft_leg_left s with
    | Some f => set_F_LLeg (vscale (-1) (vsub f (Offset_LLeg s))) s
    | None => s
    end in
  match ft_leg_right s with
  | Some f => set_F_RLeg (vscale (-1) (vsub f (Offset_RLeg s))) s
  | None => s
  end.

(** From [Vector F_up(6)] to the second reading of the clock: the two
    evaluations of the model. *)
Definition run_dynamics (s : inverseDynamics) (env : Env) : inverseDynamics :=
  let F_up := vfill (vzeros 6) 0 in
  let s :=
    if (test s =? VOCAB_TEST)%Z
    then set_startCompute (now_startCompute (clock env)) s else s in
  let s :=
    set_icub
      (set_upperTorso
         (update (upperTorso (icub s)) (w0 s) (dw0 s) (d2p0 s)
            (F_RArm s) (F_LArm s) F_up) (icub s)) s in
  let s :=
    set_icub
      (set_lowerTorso
         (update (lowerTorso (icub s))
            (getTorsoAngVel (upperTorso (icub s)))
            (getTorsoAngAcc (upperTorso (icub s)))
            (getTorsoLinAcc (upperTorso (icub s)))
            (F_RLeg s) (F_LLeg s) F_up) (icub s)) s in
  if (test s =? VOCAB_TEST)%Z
  then set_endCompute (now_endCompute (clock env)) s else s.

(** The six calls of [getTorques] and the four calls of [writeTorque]. *)
Definition run_publish (s : inverseDynamics) : inverseDynamics :=
  let LATorques := getTorques (upperTorso (icub s)) "left_arm" in
  let RATorques := getTorques (upperTorso (icub s)) "right_arm" in
  let HDTorques := getTorques (upperTorso (icub s)) "head" in
  let LLTorques := getTorques (lowerTorso (icub s)) "left_leg" in
  let RLTorques := getTorques (lowerTorso (icub s)) "right_leg" in
  let TSTorques := getTorques (lowerTorso (icub s)) "torso" in
  let s := writeTorque RLTorques 2 port_RLTorques s in
  let s := writeTorque LLTorques 2 port_LLTorques s in
  let s := writeTorque RATorques 1 port_RATorques s in
  writeTorque LATorques 1 port_LATorques s.

(** The block [if (test == VOCAB_TEST) { endRun = ...; ... }]. *)
Definition run_timing (s : inverseDynamics) (env : Env) : inverseDynamics :=
  if (test s =? VOCAB_TEST)%Z then
    let s := set_endRun (now_endRun (clock env)) s in
    let infoTest := addInt [] (ftNew s) in
    let infoTest := addDouble infoTest (startRun s) in
    let infoTest := addDouble infoTest (endRun s - startRun s) in
    let infoTest := addDouble infoTest (endCompute s - startCompute s) in
    let s := set_sent (sent s ++ [(port_perf_test, infoTest)]) s in
    let infoTest := addInt [] (ftNew s) in
    let infoTest := addDouble infoTest (startRun s) in
    let infoTest := addDouble infoTest (endRun s - ftCur s) in
    let infoTest := addDouble infoTest (ftCur s - ftRead s) in
    set_sent (sent s ++ [(port_perf_test_ftRead, infoTest)]) s
  else s.

(** The block [if (comp == VOCAB_COMP) { ... }]. *)
Definition run_compare (s : inverseDynamics) : inverseDynamics :=
  if (comp s =? VOCAB_COMP)%Z then
    let '(m_up, m_low, s) := sensor_wrenches s in
    let s := set_FM_sens_up m_up s in
    let s := set_FM_sens_low m_low s in
    let compareTest := addInt [] (ftNew s) in
    let compareTest := addDouble compareTest (startRun s) in
    let compareTest := add6 (fun i => - (getCol (FM_sens_up s) 0 !!! i)) compareTest in
    let compareTest := add6 (fun i => - (getCol (FM_sens_up s) 1 !!! i)) compareTest in
    let compareTest := add6 (fun i => - (getCol (FM_sens_low s) 0 !!! i)) compareTest in
    let compareTest := add6 (fun i => - (getCol (FM_sens_low s) 1 !!! i)) compareTest in
    let compareTest := add6 (fun i => F_RArm s !!! i) compareTest in
    let compareTest := add6 (fun i => F_LArm s !!! i) compareTest in
    let compareTest := add6 (fun i => F_RLeg s !!! i) compareTest in
    let compareTest := add6 (fun i => F_LLeg s !!! i) compareTest in
    set_sent (sent s ++ [(port_compare_test, compareTest)]) s
  else s.

(** One period of the thread. *)
Definition run (s : inverseDynamics) (env : Env) : inverseDynamics :=
  let s := run_read s env in
  let s := run_zero s in
  let s := run_wrench s in
  let s := run_dynamics s env in
  let s := run_publish s in
  let s := run_timing s env in
  run_compare s.


(** The messages one call of [run] appends to the log. *)
Definition published (s : inverseDynamics) (env : Env) : list (OutPort * Bottle) :=
  drop (length (sent s)) (sent (run s env)).

(** *** [calibrateOffset] *)

(** The body of the loop after [readAndUpdate(true, true)] has returned:
    the model on the sensor body and the four predicted wrenches. *)
Definition calibrate_predict (s : inverseDynamics) : inverseDynamics :=
  let '(F_sensor_up, F_sensor_low, s) := sensor_wrenches s in
  let s := set_F_iDyn_LArm (vscale (-1) (getCol F_sensor_up 1)) s in
  let s := set_F_iDyn_RArm (vscale (-1) (getCol F_sensor_up 0)) s in
  let s := set_F_iDyn_LLeg (vscale (-1) (getCol F_sensor_low 1)) s in
  set_F_iDyn_RLeg (vscale (-1) (getCol F_sensor_low 0)) s.

(** Last part of the body.  The four assignments [F_... = *ft_...]
    dereference the pointers without a test: with a null pointer there is
    no next state.  (After reads that wait no pointer is null.) *)
Definition calibrate_accumulate (s : inverseDynamics) : option inverseDynamics :=
  match ft_arm_right s, ft_arm_left s, ft_leg_right s, ft_leg_left s with
  | Some ra, Some la, Some rl, Some ll =>
      let s := set_F_RArm ra s in
      let s := set_F_LArm la s in
      let s := set_F_RLeg rl s in
      let s := set_F_LLeg ll s in
      let s := set_Offset_LArm (vadd (Offset_LArm s) (vsub (F_LArm s) (F_iDyn_LArm s))) s in
      let s := set_Offset_RArm (vadd (Offset_RArm s) (vsub (F_RArm s) (F_iDyn_RArm s))) s in
      let s := set_Offset_LLeg (vadd (Offset_LLeg s) (vsub (F_LLeg s) (F_iDyn_LLeg s))) s in
      let s := set_Offset_RLeg (vadd (Offset_RLeg s) (vsub (F_RLeg s) (F_iDyn_RLeg s))) s in
      Some s
  | _, _, _, _ => None
  end.

(** The body of the loop: it has no next state when one of the five reads
    never returns. *)
Definition calibrate_trial (s : inverseDynamics) (env : Env) : option inverseDynamics :=
  match readAndUpdate s env true true with
  | Some (_, s) => calibrate_accumulate (calibrate_predict s)
  | None => None
  end.

(** [for (i = 0; i < Ntrials; i++)]: trial [i] meets the environment
    [envs i]; [n] counts the trials left. *)
Fixpoint calibrate_loop (envs : nat -> Env) (i n : nat) (s : inverseDynamics)
  : option inverseDynamics :=
  match n with
  | O => Some s
  | S n' =>
      match calibrate_trial s (envs i) with
      | Some s1 => calibrate_loop envs (S i) n' s1
      | None => None
      end
  end.

(** [calibrateOffset].  (With [Ntrials = 0] the source multiplies by
    [1.0/0]; the statements about the offsets take [Ntrials >= 1].  The sum
    and the scaling are exact here; [Binary64.Offset] has them as the
    source computes them.) *)
Definition calibrateOffset (s : inverseDynamics) (Ntrials : nat) (envs : nat -> Env)
  : option inverseDynamics :=
  let s := set_Offset_LArm (vfill (Offset_LArm s) 0) s in
  let s := set_Offset_RArm (vfill (Offset_RArm s) 0) s in
  let s := set_Offset_LLeg (vfill (Offset_LLeg s) 0) s in
  let s := set_Offset_RLeg (vfill (Offset_RLeg s) 0) s in
  match calibrate_loop envs 0 Ntrials s with
  | Some s =>
      let k := 1 / inject_Z (Z.of_nat Ntrials) in
      let s := set_Offset_LArm (vscale k (Offset_LArm s)) s in
      let s := set_Offset_RArm (vscale k (Offset_RArm s)) s in
      let s := set_Offset_LLeg (vscale k (Offset_LLeg s)) s in
      let s := set_Offset_RLeg (vscale k (Offset_RLeg s)) s in
      Some s
  | None => None
  end.

Definition threadInit (s : inverseDynamics) (envs : nat -> Env)
  : option (bool * inverseDynamics) :=
  match calibrateOffset s 10 envs with
  | Some s => Some (true, set_thread_status STATUS_OK s)
  | None => None
  end.

(** *** Vocabulary of the statements *)

(** Every board answered its [getEncoders]. *)
Definition all_ok (env : Env) : bool :=
  (fst (enc_arm_left (encs env)) && fst (enc_arm_right (encs env))
   && fst (enc_head (encs env)))
  && (fst (enc_leg_left (encs env)) && fst (enc_leg_right (encs env))
      && fst (enc_torso (encs env))).

(** The four force/torque sensors and, for each, its input port and the
    members that belong to it. *)
Inductive FTSensor := LArm | RArm | LLeg | RLeg.

Definition rd_of (l : FTSensor) (env : Env) : option Vector :=
  match l with
  | LArm => rd_ft_arm_left (ports env) | RArm => rd_ft_arm_right (ports env)
  | LLeg => rd_ft_leg_left (ports env) | RLeg => rd_ft_leg_right (ports env)
  end.

Definition limb_of (l : FTSensor) (s : inverseDynamics) : FTLimb :=
  match l with
  | LArm => arm_left (fts s) | RArm => arm_right (fts s)
  | LLeg => leg_left (fts s) | RLeg => leg_right (fts s)
  end.

Definition ft_of (l : FTSensor) (s : inverseDynamics) : option Vector := l_ft (limb_of l s).
Definition F_of (l : FTSensor) (s : inverseDynamics) : Vector := l_F (limb_of l s).
Definition F_iDyn_of (l : FTSensor) (s : inverseDynamics) : Vector := l_F_iDyn (limb_of l s).
Definition Offset_of (l : FTSensor) (s : inverseDynamics) : Vector := l_Offset (limb_of l s).

(** Each of the five ports holds a message: the reads of a call that waits
    return. *)
Definition arrives (env : Env) : bool :=
  negb (is_null (rd_ft_arm_left (ports env))) && negb (is_null (rd_ft_arm_right (ports env)))
  && negb (is_null (rd_ft_leg_left (ports env))) && negb (is_null (rd_ft_leg_right (ports env)))
  && negb (is_null (rd_inertial (ports env))).

(** All four sensor ports deliver a six-axis frame, and the inertial port
    delivers a sample. *)
Definition delivers (env : Env) : Prop :=
  (forall l, exists f, rd_of l env = Some f /\ length f = 6%nat)
  /\ rd_inertial (ports env) <> None.

(** The messages of a log that went to a torque port. *)
Definition torque_messages (log : list (OutPort * Bottle)) : list (OutPort * Bottle) :=
  filter (fun m => is_torque_port (fst m) = true) log.

(** The message [writeTorque] builds. *)
Definition torque_bottle (address : Z) (values : Vector) : Bottle :=
  BInt address :: (BDouble <$> values).

(** The sizes the constructor gives to the vectors of the joints, with
    encoder buffers and concatenated vectors large enough for the loops of
    the two readers to stay in range. *)
Record sized (s : inverseDynamics) : Prop := {
  sz_q_head : length (q_head s) = 3%nat;
  sz_q_larm : length (q_larm s) = 7%nat;
  sz_q_rarm : length (q_rarm s) = 7%nat;
  sz_q_torso : length (q_torso s) = 3%nat;
  sz_q_lleg : length (q_lleg s) = 7%nat;
  sz_q_rleg : length (q_rleg s) = 7%nat;
  sz_all_q_up : (17 <= length (all_q_up s))%nat;
  sz_all_q_low : (17 <= length (all_q_low s))%nat;
  sz_encoders_head : (3 <= length (encoders_head s))%nat;
  sz_encoders_arm_left : (7 <= length (encoders_arm_left s))%nat;
  sz_encoders_arm_right : (7 <= length (encoders_arm_right s))%nat;
  sz_encoders_torso : (3 <= length (encoders_torso s))%nat;
  sz_encoders_leg_left : (7 <= length (encoders_leg_left s))%nat;
  sz_encoders_leg_right : (7 <= length (encoders_leg_right s))%nat
}.

(** Two objects agree on every group of members whose flag is [false]. *)
Record same_but (j u l f i e ic ics se st p sn : bool) (a b : inverseDynamics) : Prop := {
  sb_joints : j = false -> joints b = joints a;
  sb_up : u = false -> up b = up a;
  sb_low : l = false -> low b = low a;
  sb_fts : f = false -> fts b = fts a;
  sb_imu : i = false -> imu b = imu a;
  sb_est : e = false -> est b = est a;
  sb_icub : ic = false -> icub b = icub a;
  sb_icub_sens : ics = false -> icub_sens b = icub_sens a;
  sb_sens : se = false -> sens b = sens a;
  sb_status : st = false -> thread_status b = thread_status a;
  sb_perf : p = false -> perf b = perf a;
  sb_sent : sn = false -> sent b = sent a
}.

(** No block assigns the flags [test] and [comp]. *)
Definition flags_kept (a b : inverseDynamics) : Prop :=
  test b = test a /\ comp b = comp a.

(** The first statements of [run], up to the call of [readAndUpdate]. *)
Definition run_enter (s : inverseDynamics) (env : Env) : inverseDynamics :=
  set_thread_status STATUS_OK
    (if (test s =? VOCAB_TEST)%Z
     then set_ftNew 0%Z (set_startRun (now_startRun (clock env)) s)
     else s).

(** The object on which the model is evaluated. *)
Definition before_dynamics (s : inverseDynamics) (env : Env) : inverseDynamics :=
  run_wrench (run_zero (run_read s env)).

(** The four messages of one period, from the model after its evaluation. *)
Definition four_messages (b : iCubWholeBody) : list (OutPort * Bottle) :=
  [ (port_RLTorques, torque_bottle 2 (getTorques (lowerTorso b) "right_leg"));
    (port_LLTorques, torque_bottle 2 (getTorques (lowerTorso b) "left_leg"));
    (port_RATorques, torque_bottle 1 (getTorques (upperTorso b) "right_arm"));
    (port_LATorques, torque_bottle 1 (getTorques (upperTorso b) "left_arm")) ].

(** The sizes of the twelve vectors of joint velocity and acceleration. *)
Definition rate_sizes (s : inverseDynamics) : list nat :=
  [ length (dq_head s); length (d2q_head s);
    length (dq_larm s); length (d2q_larm s);
    length (dq_rarm s); length (d2q_rarm s);
    length (dq_torso s); length (d2q_torso s);
    length (dq_lleg s); length (d2q_lleg s);
    length (dq_rleg s); length (d2q_rleg s) ].

(** A chain holds zero velocity and zero acceleration for a limb of [n]
    and [m] joints. *)
Definition zero_rates (n m : nat) (l : LimbState) : Prop :=
  DAng l = vscale CTRL_DEG2RAD (vzeros n) /\ D2Ang l = vscale CTRL_DEG2RAD (vzeros m).

(** The object in which [calibrateOffset] starts its loop. *)
Definition offsets_zeroed (s : inverseDynamics) : inverseDynamics :=
  let s := set_Offset_LArm (vfill (Offset_LArm s) 0) s in
  let s := set_Offset_RArm (vfill (Offset_RArm s) 0) s in
  let s := set_Offset_LLeg (vfill (Offset_LLeg s) 0) s in
  set_Offset_RLeg (vfill (Offset_RLeg s) 0) s.

(** The four offsets after the loop, each multiplied by [1.0 / Ntrials]. *)
Definition offsets_scaled (Ntrials : nat) (s : inverseDynamics) : inverseDynamics :=
  let k := 1 / inject_Z (Z.of_nat Ntrials) in
  let s := set_Offset_LArm (vscale k (Offset_LArm s)) s in
  let s := set_Offset_RArm (vscale k (Offset_RArm s)) s in
  let s := set_Offset_LLeg (vscale k (Offset_LLeg s)) s in
  set_Offset_RLeg (vscale k (Offset_RLeg s)) s.

(** The object of a trial of the calibration loop when its reads have
    returned, and after the wrenches have been predicted on it. *)
Definition trial_read (s : inverseDynamics) (env : Env) : inverseDynamics :=
  snd (readAndUpdate s env false true).

Definition trial_predicted (s : inverseDynamics) (env : Env) : inverseDynamics :=
  calibrate_predict (trial_read s env).

(** The object of each trial of the calibration loop when its reads have
    returned, before the model is asked: [n] trials from trial [i], started
    in [s]. *)
Fixpoint trials (envs : nat -> Env) (i n : nat) (s : inverseDynamics)
  : list inverseDynamics :=
  match n with
  | O => []
  | S n' =>
      let r := trial_read s (envs i) in
      r :: match calibrate_accumulate (calibrate_predict r) with
           | Some s1 => trials envs (S i) n' s1
           | None => []
           end
  end.

(** What the model predicts for sensor [l] on the object [r]: minus the
    column of the sensor in the matrix [estimateSensorsWrench] returns for
    its chain.  The upper chain is asked with the base motion of [r], the
    lower chain with the motion of the torso the upper chain then reports;
    column 0 is the right limb, column 1 the left. *)
Definition model_wrench (l : FTSensor) (r : inverseDynamics) : Vector :=
  let up := setInertialMeasure (upperTorso (icub_sens r)) (w0 r) (dw0 r) (d2p0 r) in
  let F_sensor_up := estimateSensorsWrench up (F_ext_up r) false in
  let low := setInertialMeasure (lowerTorso (icub_sens r))
               (getTorsoAngVel (snd F_sensor_up)) (getTorsoAngAcc (snd F_sensor_up))
               (getTorsoLinAcc (snd F_sensor_up)) in
  let F_sensor_low := estimateSensorsWrench low (F_ext_low r) false in
  vscale (-1)
    match l with
    | LArm => getCol (fst F_sensor_up) 1
    | RArm => getCol (fst F_sensor_up) 0
    | LLeg => getCol (fst F_sensor_low) 1
    | RLeg => getCol (fst F_sensor_low) 0
    end.

(** Axis [k] of what sensor [l] measured, and of what the model predicted
    for it, in trial [t] of a calibration started in [s]. *)
Definition measured (l : FTSensor) (envs : nat -> Env) (t k : nat) : Q :=
  default [] (rd_of l (envs t)) !!! k.

Definition predicted (l : FTSensor) (envs : nat -> Env) (Ntrials : nat)
    (s : inverseDynamics) (t k : nat) : Q :=
  match trials envs 0 Ntrials (offsets_zeroed s) !! t with
  | Some r => model_wrench l r !!! k
  | None => 0
  end.

(** The objects a thread goes through: [threadInit] on the object [s0],
    then any number of periods. *)
Inductive reaches (s0 : inverseDynamics) : inverseDynamics -> Prop :=
  | reaches_init envs s : threadInit s0 envs = Some (true, s) -> reaches s0 s
  | reaches_run s env : reaches s0 s -> reaches s0 (run s env).

(** The same, from an object as the constructor leaves it. *)
Definition started (s : inverseDynamics) : Prop :=
  exists jal jar jh jll jlr jt, reaches (inverseDynamics_new jal jar jh jll jlr jt) s.

(** What the thread keeps of the motion of the base is the same in two
    objects. *)
Definition base_motion_kept (a b : inverseDynamics) : Prop :=
  d2p0 b = d2p0 a /\ w0 b = w0 a /\ dw0 b = dw0 a
  /\ InertialEst b = InertialEst a
  /\ inertial_measurements b = inertial_measurements a.

(** The sizes of the encoder buffers and of the position vectors, and the
    sizes of all the vectors the readers index. *)
Definition position_sizes (s : inverseDynamics) : list nat :=
  [ length (encoders_head s); length (encoders_arm_left s); length (encoders_arm_right s);
    length (encoders_torso s); length (encoders_leg_left s); length (encoders_leg_right s);
    length (q_head s); length (q_larm s); length (q_rarm s);
    length (q_torso s); length (q_lleg s); length (q_rleg s) ].

Definition vector_sizes (s : inverseDynamics) : list nat :=
  position_sizes s ++ rate_sizes s
  ++ [ length (all_q_up s); length (all_q_low s); length (w0 s); length (d2p0 s) ].

Definition sizes_kept (a b : inverseDynamics) : Prop :=
  position_sizes b = position_sizes a /\ rate_sizes b = rate_sizes a
  /\ length (all_q_up b) = length (all_q_up a)
  /\ length (all_q_low b) = length (all_q_low a)
  /\ length (w0 b) = length (w0 a) /\ length (d2p0 b) = length (d2p0 a).

(** Every board wrote at least as many values as the loops of the readers
    take from it. *)
Definition enough (env : Env) : Prop :=
  (3 <= length (snd (enc_head (encs env))))%nat
  /\ (7 <= length (snd (enc_arm_left (encs env))))%nat
  /\ (7 <= length (snd (enc_arm_right (encs env))))%nat
  /\ (3 <= length (snd (enc_torso (encs env))))%nat
  /\ (7 <= length (snd (enc_leg_left (encs env))))%nat
  /\ (7 <= length (snd (enc_leg_right (encs env))))%nat.

(** The six position vectors are the same in two objects. *)
Definition positions_kept (a b : inverseDynamics) : Prop :=
  q_head b = q_head a /\ q_larm b = q_larm a /\ q_rarm b = q_rarm a
  /\ q_torso b = q_torso a /\ q_lleg b = q_lleg a /\ q_rleg b = q_rleg a.

(** The vectors and the estimators of the upper groups, and those of the
    lower groups, are the same in two objects. *)
Definition upper_kept (a b : inverseDynamics) : Prop :=
  up b = up a /\ linEstUp b = linEstUp a /\ quadEstUp b = quadEstUp a.

Definition lower_kept (a b : inverseDynamics) : Prop :=
  low b = low a /\ linEstLow b = linEstLow a /\ quadEstLow b = quadEstLow a.

(** The reader of the upper groups has fed the two estimators of [s] once,
    with the concatenated positions of [hi], and left the answers and the
    estimators in [hi]; the same for the lower groups. *)
Definition fed_up (s hi : inverseDynamics) (env : Env) : Prop :=
  let v := lin_estimate (linEstUp s)
             {| data := all_q_up hi; time := now_velUp (clock env) |} in
  let a := quad_estimate (quadEstUp s)
             {| data := all_q_up hi; time := now_accUp (clock env) |} in
  all_dq_up hi = fst v /\ linEstUp hi = snd v
  /\ all_d2q_up hi = fst a /\ quadEstUp hi = snd a.

Definition fed_low (s lo : inverseDynamics) (env : Env) : Prop :=
  let v := lin_estimate (linEstLow s)
             {| data := all_q_low lo; time := now_velLow (clock env) |} in
  let a := quad_estimate (quadEstLow s)
             {| data := all_q_low lo; time := now_accLow (clock env) |} in
  all_dq_low lo = fst v /\ linEstLow lo = snd v
  /\ all_d2q_low lo = fst a /\ quadEstLow lo = snd a.

End Thread.

(** *** The estimators and the ports as objects the thread owns *)

(** The five input ports of the thread. *)
Inductive InPort :=
  | port_inertial_thread | port_ft_arm_left | port_ft_arm_right
  | port_ft_leg_left | port_ft_leg_right.

(** The five estimators. *)
Inductive EstimatorMember :=
  | member_InertialEst | member_linEstUp | member_quadEstUp
  | member_linEstLow | member_quadEstLow.

(** A pointer member of the thread. *)
Inductive Member :=
  | estimator (e : EstimatorMember) | input (p : InPort) | output (p : OutPort).

#[global] Instance InPort_eq_dec : EqDecision InPort.
Proof. solve_decision. Defined.
#[global] Instance EstimatorMember_eq_dec : EqDecision EstimatorMember.
Proof. solve_decision. Defined.
#[global] Instance OutPort_eq_dec : EqDecision OutPort.
Proof. solve_decision. Defined.
#[global] Instance Member_eq_dec : EqDecision Member.
Proof. solve_decision. Defined.

(** What a pointer member holds: the null pointer, the address of the
    object created for it, or the address of an object that has been
    deleted. *)
Inductive Pointer := Null | Live | Dangling.

Definition Heap := Member -> Pointer.

Definition assign (m : Member) (p : Pointer) (h : Heap) : Heap :=
  fun m' => if decide (m' = m) then p else h m'.

(** After the constructor every member points to the object made for it. *)
Definition constructed : Heap := fun _ => Live.

(** [if (p) { delete p; p = 0; }] on an estimator member. *)
Definition release (e : EstimatorMember) (h : Heap) : option Heap :=
  match h (estimator e) with
  | Null => Some h
  | Live => Some (assign (estimator e) Null h)
  | Dangling => None
  end.

(** [closePort(Contactable *_port)]: the port is interrupted, closed and
    deleted when the pointer is not null.  The pointer is passed by value:
    [_port = 0] clears the parameter, the member keeps the address. *)
Definition closePort (m : Member) (h : Heap) : option Heap :=
  match h m with
  | Null => Some h
  | Live => Some (assign m Dangling h)
  | Dangling => None
  end.

(** A method with a result goes on, one without stops the rest. *)
Definition and_then {A B} (x : option A) (f : A -> option B) : option B :=
  match x with Some a => f a | None => None end.

Notation "x >>= f" := (and_then x f) (at level 50, left associativity).

(** [threadRelease]: the five estimators, then ten of the twelve ports. *)
Definition threadRelease (h : Heap) : option Heap :=
  Some h
  >>= release member_linEstUp
  >>= release member_linEstLow
  >>= release member_quadEstUp
  >>= release member_quadEstLow
  >>= release member_InertialEst
  >>= closePort (output port_RATorques)
  >>= closePort (output port_LATorques)
  >>= closePort (output port_RLTorques)
  >>= closePort (output port_LLTorques)
  >>= closePort (input port_inertial_thread)
  >>= closePort (input port_ft_arm_right)
  >>= closePort (input port_ft_arm_left)
  >>= closePort (output port_perf_test)
  >>= closePort (output port_perf_test_ftRead)
  >>= closePort (output port_compare_test).

(** The ports [threadRelease] passes to [closePort]. *)
Definition closed_on_release (m : Member) : bool :=
  match m with
  | estimator _ => false
  | input port_ft_leg_left | input port_ft_leg_right => false
  | input _ | output _ => true
  end.

(** [threadRelease] as a list of steps, each on one member, and what a
    step makes of the pointer it finds. *)
Inductive Step := step_release (e : EstimatorMember) | step_close (m : Member).

Definition step_member (s : Step) : Member :=
  match s with step_release e => estimator e | step_close m => m end.

Definition do_step (s : Step) (h : Heap) : option Heap :=
  match s with step_release e => release e h | step_close m => closePort m h end.

Definition after_step (s : Step) (p : Pointer) : Pointer :=
  match p, s with
  | Live, step_release _ => Null
  | Live, step_close _ => Dangling
  | _, _ => p
  end.

Definition steps : list Step :=
  [ step_release member_linEstUp; step_release member_linEstLow;
    step_release member_quadEstUp; step_release member_quadEstLow;
    step_release member_InertialEst;
    step_close (output port_RATorques); step_close (output port_LATorques);
    step_close (output port_RLTorques); step_close (output port_LLTorques);
    step_close (input port_inertial_thread); step_close (input port_ft_arm_right);
    step_close (input port_ft_arm_left); step_close (output port_perf_test);
    step_close (output port_perf_test_ftRead); step_close (output port_compare_test) ].

End Dyn.

(** ** The arithmetic of [calibrateOffset] on doubles *)

Module Binary64.
Import SpecFloat.

Local Open Scope Z_scope.

(** IEEE 754 binary64 as the Standard Library specifies it: 53 bits of
    precision, exponents below 1024, every operation rounded to nearest,
    ties to even. *)
Definition double : Type := spec_float.
Definition prec : Z := 53.
Definition emax : Z := 1024.

Definition add : double -> double -> double := SFadd prec emax.
Definition sub : double -> double -> double := SFsub prec emax.
Definition mul : double -> double -> double := SFmul prec emax.
Definition div : double -> double -> double := SFdiv prec emax.

(** The double of an integer, as the cast [(double)Ntrials] and the
    literals [0] and [1.0] give it. *)
Definition of_Z (z : Z) : double := binary_normalize prec emax z 0 false.

(** One axis of the offset of one sensor as [calibrateOffset] computes it,
    [F i] and [F_iDyn i] being what the axis measured and what the model
    predicted for it in trial [i]: [Offset.zero()], then
    [Offset = Offset + (F - F_iDyn)] in every trial, then
    [Offset = 1.0/(double)Ntrials * Offset]. *)
Definition Offset (Ntrials : nat) (F F_iDyn : nat -> double) : double :=
  let Offset := of_Z 0 in
  let Offset :=
    fold_left (fun Offset i => add Offset (sub (F i) (F_iDyn i))) (seq 0 Ntrials) Offset in
  mul (div (of_Z 1) (of_Z (Z.of_nat Ntrials))) Offset.

(** The double nearest to [a / b]. *)
Definition ratio (a b : Z) : double := div (of_Z a) (of_Z b).

End Binary64.

(** ** The module [wholeBodyTorqueObserver] *)

Module Observer.
Import Dyn.

Local Open Scope string_scope.
Local Open Scope list_scope.

(** *** What the module takes from yarp *)

(** [yarp::os::Value], read as a string or as an int. *)
Record Value := { asString : string; asInt : Z }.

(** [ResourceFinder]: what [check] and [find] answer for a key. *)
Record ResourceFinder := { check : string -> bool; find : string -> Value }.

(** [Property] is yarp's: the table a default constructor gives, and
    [put]. *)
Class Yarp := {
  Property : Type;
  Property_new : Property;
  put : Property -> string -> string -> Property
}.

(** The view of a device as encoders, and what the module asks of a
    [PolyDriver]. *)
Record IEncoders := { getAxes : nat }.
Record PolyDriver := { isValid : bool; view : option IEncoders }.

(** *** The members *)

(** The six limbs the module opens a device for; the members
    [OptionsLeftArm] ... [OptionsTorso] and [dd_left_arm] ... [dd_torso] are
    kept by limb. *)
Inductive Limb := LeftArm | RightArm | Head | LeftLeg | RightLeg | Torso.

#[global] Instance Limb_eq_dec : EqDecision Limb.
Proof. solve_decision. Defined.

Section Module.
Context {C : Collaborators} {Y : Yarp}.

(** The thread object: the period given to [RateThread] and the members of
    [inverseDynamics]. *)
Record RateThread := { period : Z; obj : inverseDynamics }.

(** What the module asks of yarp, in order. *)
Inductive Action :=
  | port_open (name : string)
  | port_interrupt (name : string)
  | port_close (name : string)
  | network_connect (src dest : string)
  | device_new (l : Limb) (options : Property)
  | device_close (l : Limb)
  | thread_start (rate : Z)
  | thread_stop.

Record wholeBodyTorqueObserver := {
  Options : Limb -> Property;
  port_inertial_input : option Filter.dataFilter;
  inv_dyn : option RateThread;
  dd : Limb -> option PolyDriver;
  actions : list Action
}.

Definition set_Options (l : Limb) (o : Property) (m : wholeBodyTorqueObserver) :=
  {| Options := fun l' => if decide (l' = l) then o else Options m l';
     port_inertial_input := port_inertial_input m; inv_dyn := inv_dyn m;
     dd := dd m; actions := actions m |}.
Definition set_port_inertial_input (p : option Filter.dataFilter)
    (m : wholeBodyTorqueObserver) :=
  {| Options := Options m; port_inertial_input := p; inv_dyn := inv_dyn m;
     dd := dd m; actions := actions m |}.
Definition set_inv_dyn (t : option RateThread) (m : wholeBodyTorqueObserver) :=
  {| Options := Options m; port_inertial_input := port_inertial_input m; inv_dyn := t;
     dd := dd m; actions := actions m |}.
Definition set_dd (l : Limb) (d : option PolyDriver) (m : wholeBodyTorqueObserver) :=
  {| Options := Options m; port_inertial_input := port_inertial_input m;
     inv_dyn := inv_dyn m;
     dd := fun l' => if decide (l' = l) then d else dd m l'; actions := actions m |}.
Definition did (a : Action) (m : wholeBodyTorqueObserver) :=
  {| Options := Options m; port_inertial_input := port_inertial_input m;
     inv_dyn := inv_dyn m; dd := dd m; actions := actions m ++ [a] |}.

(** The constructor clears [inv_dyn] and the six device pointers.  It gives
    [port_inertial_input] no value: the member holds whatever was there. *)
Definition wholeBodyTorqueObserver_new (indeterminate : option Filter.dataFilter)
  : wholeBodyTorqueObserver :=
  {| Options := fun _ => Property_new; port_inertial_input := indeterminate;
     inv_dyn := None; dd := fun _ => None; actions := [] |}.

Definition createDriver (_dd : option PolyDriver) : bool :=
  match _dd with
  | None => false
  | Some d =>
      if negb (isValid d) then false
      else
        let ok := true in
        let ok := ok && (match view d with Some _ => true | None => false end) in
        if negb ok then false else true
  end.

(** The names the six blocks of [configure] use. *)
Definition local_suffix (l : Limb) : string :=
  match l with
  | Head => "/head/client" | LeftArm => "/left_arm/client"
  | RightArm => "/right_arm/client" | LeftLeg => "/left_leg/client"
  | RightLeg => "/right_leg/client" | Torso => "/torso/client"
  end.

Definition remote (l : Limb) : string :=
  match l with
  | Head => "/icub/head" | LeftArm => "/icub/left_arm"
  | RightArm => "/icub/right_arm" | LeftLeg => "/icub/left_leg"
  | RightLeg => "/icub/right_leg" | Torso => "/icub/torso"
  end.

(** One block of [configure]: the three [put] and [new PolyDriver(Options)];
    [devices] is the driver yarp makes for a table of options. *)
Definition new_device (l : Limb) (fwdSlash name : string) (devices : Property -> PolyDriver)
    (m : wholeBodyTorqueObserver) : wholeBodyTorqueObserver :=
  let m := set_Options l (put (Options m l) "device" "remote_controlboard") m in
  let m := set_Options l (put (Options m l) "local" (fwdSlash ++ name ++ local_suffix l)) m in
  let m := set_Options l (put (Options m l) "remote" (remote l)) m in
  set_dd l (Some (devices (Options m l))) (did (device_new l (Options m l)) m).

(** [new inverseDynamics(rate, ...)]: the constructor views each device as
    encoders and asks the view for its axes; with a null pointer or a
    device without that view it has no result. *)
Definition new_inverseDynamics (_rate : Z) (_ddAL _ddAR _ddH _ddLL _ddLR _ddT : option PolyDriver)
  : option RateThread :=
  match _ddAL >>= view, _ddAR >>= view, _ddH >>= view,
        _ddLL >>= view, _ddLR >>= view, _ddT >>= view with
  | Some al, Some ar, Some h, Some ll, Some lr, Some t =>
      Some {| period := _rate;
              obj := inverseDynamics_new (getAxes al) (getAxes ar) (getAxes h)
                       (getAxes ll) (getAxes lr) (getAxes t) |}
  | _, _, _, _, _, _ => None
  end.

(** [RateThread::start()] is yarp's: it runs [threadInit] on the new thread
    and returns when [threadInit] has returned; the periods of [run] follow
    without the caller waiting for them.  With a [threadInit] that never
    returns, [start] never returns. *)
Definition start (t : RateThread) (envs : nat -> Env) : option RateThread :=
  match threadInit (obj t) envs with
  | Some (_, s) => Some {| period := period t; obj := s |}
  | None => None
  end.

(** [configure]; [envs] is what the ten trials of the calibration meet on
    the ports and the boards. *)
Definition configure (m : wholeBodyTorqueObserver) (rf : ResourceFinder)
    (devices : Property -> PolyDriver) (envs : nat -> Env)
  : option (bool * wholeBodyTorqueObserver) :=
  let m := did (port_open "/filtered/inertial:o") m in
  let m := set_port_inertial_input (Some Filter.dataFilter_init) m in
  let m := did (port_open "/unfiltered/inertial:i") m in
  let m := did (network_connect "/icub/inertial" "/unfiltered/inertial:i") m in
  let fwdSlash := "/" in
  let rate := 100%Z in
  let name :=
    if check rf "name" then asString (find rf "name") else "wholeBodyTorqueObserver" in
  let rate := if check rf "rate" then asInt (find rf "rate") else 100%Z in
  let m := new_device Head fwdSlash name devices m in
  if negb (createDriver (dd m Head)) then Some (false, m) else
  let m := new_device LeftArm fwdSlash name devices m in
  if negb (createDriver (dd m LeftArm)) then Some (false, m) else
  let m := new_device RightArm fwdSlash name devices m in
  if negb (createDriver (dd m RightArm)) then Some (false, m) else
  let m := new_device LeftLeg fwdSlash name devices m in
  if negb (createDriver (dd m LeftLeg)) then Some (false, m) else
  let m := new_device RightLeg fwdSlash name devices m in
  if negb (createDriver (dd m RightLeg)) then Some (false, m) else
  let m := new_device Torso fwdSlash name devices m in
  if negb (createDriver (dd m Torso)) then Some (false, m) else
  match new_inverseDynamics rate (dd m LeftArm) (dd m RightArm) (dd m Head)
          (dd m LeftLeg) (dd m RightLeg) (dd m Torso) with
  | Some t =>
      let m := set_inv_dyn (Some t) m in
      match start t envs with
      | Some t => Some (true, set_inv_dyn (Some t) (did (thread_start rate) m))
      | None => None
      end
  | None => None
  end.

(** The blocks of [close]: the thread, one device, the callback port. *)
Definition stop_thread (m : wholeBodyTorqueObserver) : wholeBodyTorqueObserver :=
  match inv_dyn m with
  | Some _ => set_inv_dyn None (did thread_stop m)
  | None => m
  end.

Definition close_device (l : Limb) (m : wholeBodyTorqueObserver) : wholeBodyTorqueObserver :=
  match dd m l with
  | Some _ => set_dd l None (did (device_close l) m)
  | None => m
  end.

Definition close_callback (m : wholeBodyTorqueObserver) : wholeBodyTorqueObserver :=
  match port_inertial_input m with
  | Some _ =>
      set_port_inertial_input None
        (did (port_close "/unfiltered/inertial:i")
           (did (port_interrupt "/unfiltered/inertial:i") m))
  | None => m
  end.

Definition close (m : wholeBodyTorqueObserver) : bool * wholeBodyTorqueObserver :=
  let m := stop_thread m in
  let m := did (port_interrupt "/filtered/inertial:o") m in
  let m := did (port_close "/filtered/inertial:o") m in
  let m := close_device LeftArm m in
  let m := close_device RightArm m in
  let m := close_device Head m in
  let m := close_device LeftLeg m in
  let m := close_device RightLeg m in
  let m := close_device Torso m in
  let m := close_callback m in
  (true, m).

Definition getPeriod : Q := 1.

(** [updateModule].  (The message printed once a minute leaves nothing in
    the object; a [thread_status_enum] has no third value, so the last branch
    of the source is never taken.) *)
Definition updateModule (m : wholeBodyTorqueObserver) : bool :=
  match inv_dyn m with
  | None => false
  | Some t =>
      match getThreadStatus (obj t) with
      | STATUS_OK => true
      | STATUS_DISCONNECTED => false
      end
  end.

(** *** Vocabulary of the statements *)

(** One period of the thread of a module. *)
Definition period_of (m : wholeBodyTorqueObserver) (env : Env) : wholeBodyTorqueObserver :=
  match inv_dyn m with
  | Some t => set_inv_dyn (Some {| period := period t; obj := run (obj t) env |}) m
  | None => m
  end.

(** The name and the period [configure] works with. *)
Definition module_name (rf : ResourceFinder) : string :=
  if check rf "name" then asString (find rf "name") else "wholeBodyTorqueObserver".

Definition module_rate (rf : ResourceFinder) : Z :=
  if check rf "rate" then asInt (find rf "rate") else 100%Z.

(** The options [configure] builds for a limb from a new [Property]. *)
Definition options_for (name : string) (l : Limb) : Property :=
  put (put (put Property_new "device" "remote_controlboard")
         "local" ("/" ++ name ++ local_suffix l))
    "remote" (remote l).

(** The order in which [configure] opens the devices, and the order in
    which [close] closes them. *)
Definition opening_order : list Limb := [Head; LeftArm; RightArm; LeftLeg; RightLeg; Torso].
Definition closing_order : list Limb := [LeftArm; RightArm; Head; LeftLeg; RightLeg; Torso].

(** The limbs whose device a list of actions created, and those whose
    device it closed. *)
Definition created (l : list Action) : list Limb :=
  omap (fun a => match a with device_new l _ => Some l | _ => None end) l.

Definition closed (l : list Action) : list Limb :=
  omap (fun a => match a with device_close l => Some l | _ => None end) l.

(** The limbs [configure] gets to: each limb of the list up to and
    including the first whose device is refused. *)
Fixpoint attempted (good : Limb -> bool) (ls : list Limb) : list Limb :=
  match ls with
  | [] => []
  | l :: ls => l :: (if good l then attempted good ls else [])
  end.

(** The six blocks of [configure] one after the other, as a loop, and what
    [configure] does before them. *)
Fixpoint open_all (ls : list Limb) (name : string) (devices : Property -> PolyDriver)
    (m : wholeBodyTorqueObserver) : bool * wholeBodyTorqueObserver :=
  match ls with
  | [] => (true, m)
  | l :: ls =>
      let m := new_device l "/" name devices m in
      if negb (createDriver (dd m l)) then (false, m) else open_all ls name devices m
  end.

Definition opened_ports (m : wholeBodyTorqueObserver) : wholeBodyTorqueObserver :=
  did (network_connect "/icub/inertial" "/unfiltered/inertial:i")
    (did (port_open "/unfiltered/inertial:i")
       (set_port_inertial_input (Some Filter.dataFilter_init)
          (did (port_open "/filtered/inertial:o") m))).

(** The number of axes the device of a limb reports. *)
Definition axes (devices : Property -> PolyDriver) (name : string) (l : Limb) : nat :=
  match view (devices (options_for name l)) with
  | Some e => getAxes e
  | None => 0
  end.

(** The thread [configure] builds on six devices, before it is started. *)
Definition new_thread (rf : ResourceFinder) (devices : Property -> PolyDriver) : RateThread :=
  let name := module_name rf in
  {| period := module_rate rf;
     obj := inverseDynamics_new (axes devices name LeftArm) (axes devices name RightArm)
              (axes devices name Head) (axes devices name LeftLeg)
              (axes devices name RightLeg) (axes devices name Torso) |}.

(** What a [configure] that got to the limbs [tried] has asked of yarp. *)
Definition configured_actions (rf : ResourceFinder) (tried : list Limb) (b : bool)
  : list Action :=
  [ port_open "/filtered/inertial:o"; port_open "/unfiltered/inertial:i";
    network_connect "/icub/inertial" "/unfiltered/inertial:i" ]
  ++ ((fun l => device_new l (options_for (module_name rf) l)) <$> tried)
  ++ (if b then [thread_start (module_rate rf)] else []).

(** The device blocks of [close] as a loop, and what [close] asks of yarp
    for the members it finds set. *)
Definition close_all (ls : list Limb) (m : wholeBodyTorqueObserver) : wholeBodyTorqueObserver :=
  fold_left (fun m l => close_device l m) ls m.

Definition has_device (m : wholeBodyTorqueObserver) (l : Limb) : bool :=
  match dd m l with Some _ => true | None => false end.

Definition stopped (m : wholeBodyTorqueObserver) : list Action :=
  match inv_dyn m with Some _ => [thread_stop] | None => [] end.

Definition callback_closed (m : wholeBodyTorqueObserver) : list Action :=
  match port_inertial_input m with
  | Some _ => [port_interrupt "/unfiltered/inertial:i"; port_close "/unfiltered/inertial:i"]
  | None => []
  end.

End Module.

End Observer.

(** ** A bench: stand-ins for the collaborators and a scenario to run *)

Module Bench.
Import Dyn.

Local Open Scope list_scope.
Local Open Scope Q_scope.

Definition idle_limb : LimbState := {| Ang := []; DAng := []; D2Ang := [] |}.

Definition idle_out : NodeOutput :=
  {| Torques_up := []; Torques_left := []; Torques_right := [];
     TorsoAngVel := []; TorsoAngAcc := []; TorsoLinAcc := [] |}.

Definition idle_node (k : NodeKind) : iDynNode :=
  {| kind := k; limb_up := idle_limb; limb_left := idle_limb; limb_right := idle_limb;
     meas_w := []; meas_dw := []; meas_d2p := []; out := idle_out |}.

(** A toy chain: the torque of a joint is its velocity plus its
    acceleration, and the torso boundary moves like the base. *)
Definition toy_torque (l : LimbState) : Vector := vadd (DAng l) (D2Ang l).

Definition toy_update (k : NodeKind) (u l r : LimbState)
    (w dw d2p FR FL Fup : Vector) : NodeOutput :=
  {| Torques_up := toy_torque u; Torques_left := toy_torque l;
     Torques_right := toy_torque r;
     TorsoAngVel := w; TorsoAngAcc := dw; TorsoLinAcc := d2p |}.

(** The toy chain predicts the same wrench at every sensor and every call:
    column 0 (right limb) is [1/2] on every axis, column 1 (left limb) is
    [1/4]. *)
Definition toy_sensors (k : NodeKind) (u l r : LimbState)
    (w dw d2p : Vector) (Fext : Matrix) (afterAttach : bool) : Matrix * NodeOutput :=
  (replicate 6 [1 # 2; 1 # 4],
   {| Torques_up := []; Torques_left := []; Torques_right := [];
      TorsoAngVel := w; TorsoAngAcc := dw; TorsoLinAcc := d2p |}).

(** Estimators without memory: the first derivative of every signal is
    reported as [1], the second as [2]. *)
Definition toy : Collaborators :=
  {| AWLinEstimator := unit;
     AWQuadEstimator := unit;
     new_AWLinEstimator := fun _ _ => tt;
     new_AWQuadEstimator := fun _ _ => tt;
     lin_estimate := fun _ el => ((fun _ => 1) <$> data el, tt);
     quad_estimate := fun _ el => ((fun _ => 2) <$> data el, tt);
     CTRL_DEG2RAD := 17453293 # 1000000000;
     new_iCubWholeBody :=
       {| upperTorso := idle_node UpperTorsoNode;
          lowerTorso := idle_node LowerTorsoNode |};
     solve_update := toy_update;
     solve_sensors := toy_sensors |}.

(** A robot whose six boards report 16, 16, 6, 7, 7 and 3 axes. *)
Definition robot : inverseDynamics (C := toy) :=
  inverseDynamics_new (C := toy) 16 16 6 7 7 3.

Definition ramp (n : nat) : Vector := (fun i => inject_Z (Z.of_nat i)) <$> seq 1 n.

Definition boards (ok_head : bool) : EncoderReads :=
  {| enc_arm_left := (true, ramp 16); enc_arm_right := (true, ramp 16);
     enc_head := (ok_head, ramp 6);
     enc_leg_left := (true, ramp 7); enc_leg_right := (true, ramp 7);
     enc_torso := (true, [10; 20; 30]) |}.

Definition noon : Clock :=
  {| now_startRun := 0; now_ftCur := 0; now_domega := 0;
     now_velUp := 0; now_accUp := 0; now_velLow := 0; now_accLow := 0;
     now_startCompute := 0; now_endCompute := 0; now_endRun := 0 |}.

Definition frame : Vector := [1; 2; 3; 4; 5; 6].

(** Every port delivers a vector. *)
Definition all_ports : PortReads :=
  {| rd_ft_arm_left := Some frame; rd_ft_arm_right := Some frame;
     rd_ft_leg_left := Some frame; rd_ft_leg_right := Some frame;
     rd_inertial := Some (ramp 12) |}.

(** No port delivers anything. *)
Definition no_ports : PortReads :=
  {| rd_ft_arm_left := None; rd_ft_arm_right := None;
     rd_ft_leg_left := None; rd_ft_leg_right := None;
     rd_inertial := None |}.

Definition fresh : Env := {| ports := all_ports; encs := boards true; clock := noon |}.
Definition silent : Env := {| ports := no_ports; encs := boards true; clock := noon |}.
Definition head_lost : Env := {| ports := all_ports; encs := boards false; clock := noon |}.

(** The object after [threadInit] when every port delivers [frame] in each
    of the ten trials. *)
Definition calibrated : option (bool * inverseDynamics (C := toy)) :=
  threadInit (C := toy) robot (fun _ => fresh).

(** Two raw inertial samples of twelve channels. *)
Definition first_stamp : Filter.Stamp := {| Filter.count := 0; Filter.stamp_time := 0 |}.

Definition raw_samples : list (Filter.Stamp * list Q) :=
  [ (first_stamp, ramp 12);
    ({| Filter.count := 1; Filter.stamp_time := 1 |}, ramp 12) ].

(** A period whose inertial port delivers the message the prefilter wrote
    for the first raw sample. *)
Definition filtered_ports : PortReads :=
  {| rd_ft_arm_left := Some frame; rd_ft_arm_right := Some frame;
     rd_ft_leg_left := Some frame; rd_ft_leg_right := Some frame;
     rd_inertial :=
       Some (Filter.g (snd (Filter.onRead Filter.dataFilter_init first_stamp (ramp 12)))) |}.

Definition filtered : Env := {| ports := filtered_ports; encs := boards true; clock := noon |}.

(** Options kept as the list of what was put, a resource finder without
    any option, and six valid boards of sixteen axes. *)
Definition tables : Observer.Yarp :=
  {| Observer.Property := list (string * string);
     Observer.Property_new := [];
     Observer.put := fun p key value => (key, value) :: p |}.

Definition no_options : Observer.ResourceFinder :=
  {| Observer.check := fun _ => false;
     Observer.find := fun _ => {| Observer.asString := EmptyString; Observer.asInt := 0 |} |}.

Definition good_boards (o : list (string * string)) : Observer.PolyDriver :=
  {| Observer.isValid := true; Observer.view := Some {| Observer.getAxes := 16 |} |}.


End Bench.

(** * Facts *)

(** ** Rationals and vectors *)

Local Open Scope Q_scope.

Lemma QofN_S n : QofN (S n) == QofN n + 1.
Proof. unfold QofN. rewrite Nat2Z.inj_succ, <- Z.add_1_r, inject_Z_plus. reflexivity. Qed.

Lemma QofN_nonneg n : 0 <= QofN n.
Proof. unfold QofN. change 0 with (inject_Z 0). rewrite <- Zle_Qle. lia. Qed.

Lemma QofN_le n m : (n <= m)%nat -> QofN n <= QofN m.
Proof. intros H. unfold QofN. rewrite <- Zle_Qle. lia. Qed.

Lemma Q_archimedean (q : Q) : exists n : nat, q < QofN n.
Proof.
  exists (Z.to_nat (Z.max 0 (Qfloor q + 1))).
  eapply Qlt_le_trans; [apply (Qlt_floor q)|].
  unfold QofN. rewrite <- Zle_Qle. lia.
Qed.

Lemma QofN_pos n : (1 <= n)%nat -> 0 < QofN n.
Proof. intros H. unfold QofN. change 0 with (inject_Z 0). rewrite <- Zlt_Qlt. lia. Qed.

Lemma Qsum_ext f g n : (forall t, (t < n)%nat -> f t == g t) -> Qsum f n == Qsum g n.
Proof.
  induction n as [|n IH]; intros H; cbn [Qsum]; [reflexivity|].
  rewrite IH by (intros t Ht; apply H; lia). rewrite (H n) by lia. reflexivity.
Qed.

Lemma Qsum_first f n : Qsum f (S n) == f 0%nat + Qsum (fun t => f (S t)) n.
Proof.
  induction n as [|n IH].
  - cbn [Qsum]. ring.
  - change (Qsum f (S (S n))) with (Qsum f (S n) + f (S n)).
    rewrite IH. cbn [Qsum]. ring.
Qed.

Lemma Qsum_const f c n : (forall t, (t < n)%nat -> f t == c) -> Qsum f n == QofN n * c.
Proof.
  induction n as [|n IH]; intros H; cbn [Qsum].
  - unfold QofN. cbn. ring.
  - rewrite IH by (intros t Ht; apply H; lia). rewrite (H n) by lia.
    rewrite QofN_S. ring.
Qed.

Lemma vadd_lookup (a b : Vector) k :
  (k < length a)%nat -> (k < length b)%nat -> vadd a b !!! k = a !!! k + b !!! k.
Proof. apply lookup_total_zip_with. Qed.

Lemma vsub_lookup (a b : Vector) k :
  (k < length a)%nat -> (k < length b)%nat -> vsub a b !!! k = a !!! k - b !!! k.
Proof. apply lookup_total_zip_with. Qed.

Lemma vscale_lookup c (v : Vector) k : (k < length v)%nat -> vscale c v !!! k = c * v !!! k.
Proof. apply list_lookup_total_fmap. Qed.

Lemma vfill_lookup (v : Vector) c k : (k < length v)%nat -> vfill v c !!! k = c.
Proof.
  intros H. unfold vfill.
  rewrite (list_lookup_total_fmap (fun _ : Q => c) v k H). reflexivity.
Qed.

Lemma veq_pointwise (a b : Vector) :
  length a = length b -> (forall k, (k < length a)%nat -> a !!! k == b !!! k) -> veq a b.
Proof.
  intros Hl H. apply Forall2_same_length_lookup_2; [exact Hl|].
  intros i x y Hx Hy. specialize (H i (lookup_lt_Some _ _ _ Hx)).
  rewrite (list_lookup_total_correct _ _ _ Hx), (list_lookup_total_correct _ _ _ Hy) in H.
  exact H.
Qed.

(** ** The prefilter *)

Module FilterFacts.
Import Filter.
Local Open Scope Q_scope.

Lemma shaped_row m r : shaped m -> (r < length m)%nat -> length (m !!! r) = 12%nat.
Proof.
  intros [_ Hrows] Hr.
  destruct (lookup_lt_is_Some_2 m r Hr) as [row Hrow].
  rewrite (list_lookup_total_correct _ _ _ Hrow).
  eapply Forall_lookup_1 in Hrows; eauto.
Qed.

Lemma shaped_wr m r j v : shaped m -> shaped (wr m r j v).
Proof.
  intros [Hlen Hrows]. unfold wr. split.
  - rewrite length_insert. exact Hlen.
  - destruct (decide (r < length m)%nat) as [Hr|Hr].
    + apply Forall_insert; [exact Hrows|].
      rewrite length_insert. apply shaped_row; [split; assumption | exact Hr].
    + rewrite list_insert_ge by lia. exact Hrows.
Qed.

Lemma rd_wr_eq m r j v :
  shaped m -> (r < length m)%nat -> (j < 12)%nat -> rd (wr m r j v) r j = v.
Proof.
  intros Hm Hr Hj. unfold rd, wr.
  rewrite list_lookup_total_insert_eq by exact Hr.
  apply list_lookup_total_insert_eq. rewrite shaped_row; assumption.
Qed.

Lemma rd_wr_row m r r' j j' v : r <> r' -> rd (wr m r j v) r' j' = rd m r' j'.
Proof.
  intros Hne. unfold rd, wr. rewrite list_lookup_total_insert_ne by exact Hne. reflexivity.
Qed.

Lemma rd_wr_col m r j j' v : j <> j' -> rd (wr m r j v) r j' = rd m r j'.
Proof.
  intros Hne. unfold rd, wr.
  destruct (decide (r < length m)%nat) as [Hr|Hr].
  - rewrite list_lookup_total_insert_eq by exact Hr.
    apply list_lookup_total_insert_ne. exact Hne.
  - rewrite list_insert_ge by lia. reflexivity.
Qed.

Lemma rd_zero_table r j : rd zero_table r j = 0.
Proof.
  unfold rd, zero_table.
  destruct (decide (r < MAX_FILTER_ORDER)%nat) as [Hr|Hr].
  - rewrite lookup_total_replicate_2 by exact Hr.
    destruct (decide (j < Z.to_nat MAX_JN)%nat) as [Hj|Hj].
    + apply lookup_total_replicate_2. exact Hj.
    + rewrite list_lookup_total_alt, lookup_ge_None_2; [reflexivity|].
      rewrite length_replicate. lia.
  - rewrite (list_lookup_total_alt (replicate _ _)), lookup_ge_None_2.
    + reflexivity.
    + rewrite length_replicate. lia.
Qed.

Lemma shaped_zero_table : shaped zero_table.
Proof.
  split.
  - unfold zero_table. rewrite length_replicate. unfold MAX_FILTER_ORDER. lia.
  - unfold zero_table. apply Forall_replicate. apply length_replicate.
Qed.

Lemma wf_zero_memory : wf zero_memory.
Proof. split; exact shaped_zero_table. Qed.

(** One call on a valid channel. *)
Lemma lpf_valid mem x j :
  wf mem -> (0 <= j < MAX_JN)%Z ->
  let r := lpf_ord1_3hz mem x j in
  fst r = (last_in mem (Z.to_nat j) + x / GAIN) + POLE * last_out mem (Z.to_nat j)
  /\ last_in (snd r) (Z.to_nat j) = x / GAIN
  /\ last_out (snd r) (Z.to_nat j) = fst r
  /\ wf (snd r)
  /\ (forall j', j' <> Z.to_nat j ->
        last_in (snd r) j' = last_in mem j' /\ last_out (snd r) j' = last_out mem j').
Proof.
  intros [Hx Hy] Hj. unfold lpf_ord1_3hz.
  replace ((j <? 0) || (j >=? MAX_JN))%Z with false by (unfold MAX_JN in *; lia).
  set (i := Z.to_nat j).
  assert (Hi : (i < 12)%nat) by (unfold MAX_JN in Hj; lia).
  assert (Hx1 : shaped (wr (xv mem) 0 i (rd (xv mem) 1 i))) by (apply shaped_wr; exact Hx).
  assert (Hy1 : shaped (wr (yv mem) 0 i (rd (yv mem) 1 i))) by (apply shaped_wr; exact Hy).
  assert (L0 : forall m, shaped m -> (0 < length m)%nat) by (intros m [? _]; lia).
  assert (L1 : forall m, shaped m -> (1 < length m)%nat) by (intros m [? _]; lia).
  cbn [fst snd xv yv]. unfold last_in, last_out. cbn [xv yv].
  rewrite !rd_wr_eq by auto using shaped_wr.
  rewrite (rd_wr_row _ 1 0) by lia.
  rewrite !rd_wr_eq by auto.
  split; [reflexivity|]. split; [reflexivity|]. split; [reflexivity|].
  split; [split; cbn [xv yv]; auto using shaped_wr|].
  intros j' Hj'.
  rewrite !(rd_wr_col _ 1 i j') by congruence. rewrite !rd_wr_row by lia.
  split; reflexivity.
Qed.

(** A call with an index outside the table changes nothing and returns [0]. *)
Lemma lpf_invalid mem x j :
  ~ (0 <= j < MAX_JN)%Z -> lpf_ord1_3hz mem x j = (0, mem).
Proof.
  intros Hj. unfold lpf_ord1_3hz.
  replace ((j <? 0) || (j >=? MAX_JN))%Z with true by (unfold MAX_JN in *; lia).
  reflexivity.
Qed.


(** The loop of [onRead] from index [i]: channel [i + k] receives element [k]
    of the sample, the other channels keep their memory. *)
Lemma filter_loop_channels xs : forall mem i,
  wf mem -> (0 <= i)%Z ->
  let r := filter_loop mem i xs in
  length (fst r) = length xs /\ wf (snd r) /\
  forall j : nat, (j < 12)%nat ->
    (forall k x, Z.of_nat j = (i + Z.of_nat k)%Z -> xs !! k = Some x ->
       fst r !! k = Some ((last_in mem j + x / GAIN) + POLE * last_out mem j)
       /\ last_in (snd r) j = x / GAIN
       /\ last_out (snd r) j = (last_in mem j + x / GAIN) + POLE * last_out mem j)
    /\ ((Z.of_nat j < i \/ i + Z.of_nat (length xs) <= Z.of_nat j)%Z ->
        last_in (snd r) j = last_in mem j /\ last_out (snd r) j = last_out mem j).
Proof.
  induction xs as [|x rest IH]; intros mem i Hwf Hi; cbn zeta.
  - cbn. split; [reflexivity|]. split; [exact Hwf|].
    intros j Hj. split; [intros k x _ Hk; discriminate Hk | intros _; split; reflexivity].
  - cbn [filter_loop].
    assert (Hstep :
      wf (snd (lpf_ord1_3hz mem x i)) /\
      (forall j, (j < 12)%nat -> Z.of_nat j <> i ->
         last_in (snd (lpf_ord1_3hz mem x i)) j = last_in mem j /\
         last_out (snd (lpf_ord1_3hz mem x i)) j = last_out mem j) /\
      (forall j, (j < 12)%nat -> Z.of_nat j = i ->
         fst (lpf_ord1_3hz mem x i)
           = (last_in mem j + x / GAIN) + POLE * last_out mem j /\
         last_in (snd (lpf_ord1_3hz mem x i)) j = x / GAIN /\
         last_out (snd (lpf_ord1_3hz mem x i)) j = fst (lpf_ord1_3hz mem x i))).
    { destruct (decide (0 <= i < MAX_JN)%Z) as [Hv|Hv].
      - destruct (lpf_valid mem x i Hwf Hv) as (H1 & H2 & H3 & H4 & H5).
        split; [exact H4|]. split.
        + intros j Hj Hne. apply H5. lia.
        + intros j Hj He. subst i. rewrite Nat2Z.id in *. auto.
      - rewrite (lpf_invalid mem x i Hv). cbn [fst snd].
        split; [exact Hwf|]. split; [auto|].
        intros j Hj He. exfalso. apply Hv. unfold MAX_JN. lia. }
    destruct (lpf_ord1_3hz mem x i) as [y mem1]. cbn [fst snd] in Hstep.
    destruct Hstep as (Hwf1 & Hother & Hsame).
    specialize (IH mem1 (i + 1)%Z Hwf1 ltac:(lia)). cbn zeta in IH.
    destruct (filter_loop mem1 (i + 1) rest) as [ys mem2]. cbn [fst snd] in *.
    destruct IH as (Hlen & Hwf2 & IH).
    split; [cbn; congruence|]. split; [exact Hwf2|].
    intros j Hj. destruct (IH j Hj) as [IHin IHout]. split.
    + intros [|k] x0 Hjk Hx0; cbn in Hx0.
      * injection Hx0 as <-.
        destruct (Hsame j Hj ltac:(lia)) as (Hy & Hli & Hlo).
        destruct IHout as [Hi2 Ho2]; [lia|].
        change ((y :: ys) !! 0%nat) with (Some y).
        rewrite Hi2, Ho2, Hli, Hlo, Hy. auto.
      * destruct (Hother j Hj ltac:(lia)) as [Hli Hlo].
        destruct (IHin k x0 ltac:(lia) Hx0) as (Hy & Hi2 & Ho2).
        change ((y :: ys) !! S k) with (ys !! k).
        rewrite Hy, Hi2, Ho2, Hli, Hlo. auto.
    + intros Hout. cbn [length] in Hout.
      destruct (Hother j Hj ltac:(lia)) as [Hli Hlo].
      destruct IHout as [Hi2 Ho2]; [lia|].
      rewrite Hi2, Ho2. auto.
Qed.

Lemma GAIN_nonzero : ~ GAIN == 0.
Proof. unfold GAIN. intros H. discriminate H. Qed.

(** Every sample read so far, seen from one channel. *)
Lemma onRead_all_channel (j : nat) : (j < 12)%nat ->
  forall samples d xp yp,
    wf (mem d) -> last_in (mem d) j == xp / GAIN -> last_out (mem d) j == yp ->
    veq (channel j (fst (onRead_all d samples)))
        (spec_recursion xp yp (channel j (snd <$> samples))).
Proof.
  intros Hj. induction samples as [|[info b] rest IH]; intros d xp yp Hwf Hin Hout.
  - constructor.
  - cbn [onRead_all fmap list_fmap snd]. unfold onRead.
    pose proof (filter_loop_channels b (mem d) 0 Hwf ltac:(lia)) as Hloop.
    cbn zeta in Hloop.
    destruct (filter_loop (mem d) 0 b) as [inertial mem1]. cbn [fst snd] in Hloop.
    destruct Hloop as (Hlen & Hwf1 & Hch). destruct (Hch j Hj) as [Hupd Hkeep].
    match goal with
    | |- context [onRead_all ?d1 rest] =>
        specialize (IH d1); destruct (onRead_all d1 rest) as [ys d2] eqn:Hrest
    end.
    cbn [fst snd mem] in *. unfold channel in *. cbn [omap list_omap].
    destruct (b !! j) as [x|] eqn:Hb.
    + destruct (Hupd j x ltac:(lia) Hb) as (Hy & Hi1 & Ho1). rewrite Hy.
      cbn [spec_recursion]. constructor.
      * rewrite Hin, Hout. field. exact GAIN_nonzero.
      * apply IH; [exact Hwf1 | rewrite Hi1; reflexivity |].
        rewrite Ho1, Hin, Hout. field. exact GAIN_nonzero.
    + assert (Hnone : inertial !! j = None).
      { apply lookup_ge_None_2. apply lookup_ge_None_1 in Hb. lia. }
      rewrite Hnone. destruct Hkeep as [Hi1 Ho1].
      { right. apply lookup_ge_None_1 in Hb. lia. }
      apply IH; [exact Hwf1 | rewrite Hi1; exact Hin | rewrite Ho1; exact Hout].
Qed.

(** C8. For every sequence of inbound samples and every channel [j < 12],
    the values [onRead] computes on channel [j] are those of the recursion
    [y[n] = (x[n-1] + x[n]) / 18.70043440 + 0.8930506128 * y[n-1]] run on
    the inputs of channel [j] alone, from zero history. *)
Theorem prefilter_recursion (j : nat) (samples : list (Stamp * list Q)) :
  (j < 12)%nat ->
  veq (channel j (fst (onRead_all dataFilter_init samples)))
      (spec_recursion 0 0 (channel j (snd <$> samples))).
Proof.
  intros Hj. apply (onRead_all_channel j Hj).
  - exact wf_zero_memory.
  - unfold last_in. cbn [mem dataFilter_init zero_memory xv].
    rewrite rd_zero_table. unfold GAIN. reflexivity.
  - unfold last_out. cbn [mem dataFilter_init zero_memory yv].
    rewrite rd_zero_table. reflexivity.
Qed.


(** The unit step, call after call. *)
Lemma step_run_state (j : Z) : (0 <= j < MAX_JN)%Z -> forall n,
  wf (snd (step_run j n))
  /\ last_in (snd (step_run j n)) (Z.to_nat j) = 1 / GAIN
  /\ last_out (snd (step_run j n)) (Z.to_nat j) = step_response j n.
Proof.
  intros Hj n. unfold step_response. destruct n as [|n]; cbn [step_run].
  - destruct (lpf_valid zero_memory 1 j wf_zero_memory Hj) as (_ & H2 & H3 & H4 & _).
    auto.
  - assert (Hwf : wf (snd (step_run j n))).
    { induction n as [|n IHn]; cbn [step_run].
      - apply (lpf_valid zero_memory 1 j wf_zero_memory Hj).
      - apply (lpf_valid _ 1 j IHn Hj). }
    destruct (lpf_valid _ 1 j Hwf Hj) as (_ & H2 & H3 & H4 & _). auto.
Qed.

Lemma step_response_0 (j : Z) : (0 <= j < MAX_JN)%Z ->
  step_response j 0 = (0 + 1 / GAIN) + POLE * 0.
Proof.
  intros Hj. unfold step_response. cbn [step_run].
  destruct (lpf_valid zero_memory 1 j wf_zero_memory Hj) as (H1 & _).
  cbn zeta in H1. rewrite H1. unfold last_in, last_out. cbn [zero_memory xv yv].
  rewrite !rd_zero_table. reflexivity.
Qed.

Lemma step_response_S (j : Z) (n : nat) : (0 <= j < MAX_JN)%Z ->
  step_response j (S n) = (1 / GAIN + 1 / GAIN) + POLE * step_response j n.
Proof.
  intros Hj. destruct (step_run_state j Hj n) as (Hwf & Hin & Hout).
  unfold step_response at 1. cbn [step_run].
  destruct (lpf_valid _ 1 j Hwf Hj) as (H1 & _). cbn zeta in H1.
  rewrite H1, Hin, Hout. reflexivity.
Qed.

(** C9. From zeroed memory the response of a valid channel to the unit step
    never decreases, never exceeds [K = 2 / (18.70043440 * (1 - 0.8930506128))]
    and comes as close to [K] as one wishes. *)
Theorem step_response_monotone (j : Z) :
  (0 <= j < MAX_JN)%Z ->
  (forall n, step_response j n <= step_response j (S n))
  /\ (forall n, step_response j n <= K)
  /\ (forall eps, 0 < eps ->
        exists N : nat, forall n, (N <= n)%nat -> K - step_response j n < eps).
Proof.
  intros Hj.
  assert (HK : K == (1 / GAIN + 1 / GAIN) + POLE * K) by (vm_compute; reflexivity).
  assert (Hc : 0 + 1 / GAIN + POLE * 0 == 1 / GAIN) by (vm_compute; reflexivity).
  assert (HcK : 1 / GAIN <= K) by (vm_compute; discriminate).
  assert (Hc0 : 0 < 1 / GAIN) by (vm_compute; reflexivity).
  assert (Hbound : forall n, step_response j n <= K).
  { induction n as [|n IHn].
    - rewrite (step_response_0 j Hj). lra.
    - rewrite (step_response_S j n Hj).
      revert IHn HK. generalize (step_response j n) K (1 / GAIN).
      intros y k c IHn HK. unfold POLE in *. lra. }
  assert (Hmono : forall n, step_response j n <= step_response j (S n)).
  { intros n. rewrite (step_response_S j n Hj). specialize (Hbound n).
    revert Hbound HK. generalize (step_response j n) K (1 / GAIN).
    intros y k c Hb HK. unfold POLE in *. lra. }
  split; [exact Hmono|]. split; [exact Hbound|].
  (* the distance to [K] shrinks at least like [1 / (1 + n / 9)] *)
  assert (Hshrink : forall n,
    (K - step_response j n) * (1 + QofN n * (1 # 9)) <= K - step_response j 0).
  { induction n as [|n IHn].
    - change (QofN 0) with 0.
      assert (E : (K - step_response j 0) * (1 + 0 * (1 # 9)) == K - step_response j 0)
        by ring.
      rewrite E. apply Qle_refl.
    - pose proof (Hbound n) as Hb. pose proof (QofN_nonneg n) as Hn.
      assert (Hle : K - step_response j n <= K - step_response j 0).
      { assert (0 <= (K - step_response j n) * (QofN n * (1 # 9))).
        { apply Qmult_le_0_compat; lra. }
        lra. }
      rewrite (step_response_S j n Hj). rewrite QofN_S.
      revert IHn Hle Hb Hn HK.
      generalize (step_response j n) (step_response j 0) (QofN n) K (1 / GAIN).
      intros y y0 a k c IHn Hle Hb Hn HK. unfold POLE in *.
      nra. }
  intros eps Heps.
  destruct (Q_archimedean ((K - step_response j 0) * 9 / eps)) as [N HN].
  exists N. intros n Hn.
  pose proof (Hshrink n) as Hs. pose proof (Hbound n) as Hb.
  pose proof (QofN_le N n Hn) as HNn. pose proof (QofN_nonneg n) as Hn0.
  assert (H0 : (K - step_response j 0) * 9 < eps * QofN n).
  { apply Qlt_le_trans with (eps * QofN N).
    - apply (Qmult_lt_r _ _ (/ eps)); [apply Qinv_lt_0_compat; exact Heps|].
      assert (E : eps * QofN N * / eps == QofN N) by (field; lra).
      rewrite E. exact HN.
    - apply Qmult_le_l; assumption. }
  destruct (Qlt_le_dec (K - step_response j n) eps) as [Hlt|Hge]; [exact Hlt|].
  exfalso.
  assert (H1 : eps * (1 + QofN n * (1 # 9)) <= (K - step_response j n) * (1 + QofN n * (1 # 9))).
  { apply Qmult_le_compat_r; [exact Hge | lra]. }
  lra.
Qed.


(** *** Channels, messages and bounds *)

Lemma filter_loop_app a : forall mem i b,
  filter_loop mem i (a ++ b)
  = (fst (filter_loop mem i a)
       ++ fst (filter_loop (snd (filter_loop mem i a)) (i + Z.of_nat (length a)) b),
     snd (filter_loop (snd (filter_loop mem i a)) (i + Z.of_nat (length a)) b)).
Proof.
  induction a as [|x a IH]; intros mem i b.
  - cbn [app filter_loop fst snd length]. rewrite Z.add_0_r.
    destruct (filter_loop mem i b); reflexivity.
  - cbn [app filter_loop length].
    destruct (lpf_ord1_3hz mem x i) as [y mem1].
    rewrite IH.
    destruct (filter_loop mem1 (i + 1) a) as [ys mem2]. cbn [fst snd].
    replace (i + 1 + Z.of_nat (length a))%Z with (i + Z.of_nat (S (length a)))%Z by lia.
    reflexivity.
Qed.

Lemma filter_loop_beyond b : forall mem i,
  (MAX_JN <= i)%Z -> filter_loop mem i b = (replicate (length b) 0, mem).
Proof.
  induction b as [|x b IH]; intros mem i Hi; [reflexivity|].
  cbn [filter_loop length replicate].
  rewrite lpf_invalid by lia. rewrite IH by lia. reflexivity.
Qed.

Lemma filter_loop_length b : forall mem i, length (fst (filter_loop mem i b)) = length b.
Proof.
  induction b as [|x b IH]; intros mem i; [reflexivity|].
  cbn [filter_loop]. destruct (lpf_ord1_3hz mem x i) as [y mem1].
  specialize (IH mem1 (i + 1)%Z). destruct (filter_loop mem1 (i + 1) b). cbn in *. congruence.
Qed.

(** The loop on a bottle is the loop on its first twelve values, followed
    by zeros. *)
Lemma filter_loop_twelve mem b :
  filter_loop mem 0 b
  = (fst (filter_loop mem 0 (take 12 b)) ++ replicate (length b - 12) 0,
     snd (filter_loop mem 0 (take 12 b))).
Proof.
  rewrite <- (take_drop 12 b) at 1. rewrite filter_loop_app.
  destruct (decide (length b <= 12)%nat) as [Hs|Hl].
  - rewrite (drop_ge b 12) by lia. cbn [filter_loop fst snd].
    replace (length b - 12)%nat with 0%nat by lia. reflexivity.
  - rewrite (filter_loop_beyond (drop 12 b)) by (rewrite length_take; unfold MAX_JN; lia).
    cbn [fst snd]. rewrite length_drop. reflexivity.
Qed.

Lemma vget_app_l (a b : Vector) (k : Z) :
  (0 <= k)%Z -> (Z.to_nat k < length a)%nat -> vget (a ++ b) k = vget a k.
Proof.
  intros H0 Hk. unfold vget. destruct (k <? 0)%Z; [reflexivity|].
  apply lookup_total_app_l. exact Hk.
Qed.

(** X1. [onRead] filters the first twelve channels of a sample only: the
    entries of the filtered vector from the thirteenth on are zero, and the
    filter and its port are left as the first twelve entries alone would
    leave them. *)
Theorem beyond_twelve_ignored d info b :
  fst (onRead d info b) = fst (onRead d info (take 12 b)) ++ replicate (length b - 12) 0
  /\ snd (onRead d info b) = snd (onRead d info (take 12 b)).
Proof.
  unfold onRead. rewrite (filter_loop_twelve (mem d) b).
  pose proof (filter_loop_length (take 12 b) (mem d) 0) as Hlen.
  destruct (filter_loop (mem d) 0 (take 12 b)) as [y m12]. cbn [fst snd] in *.
  split; [reflexivity|].
  destruct (decide (length b <= 12)%nat) as [Hs|Hl].
  - replace (length b - 12)%nat with 0%nat by lia. cbn [replicate]. rewrite app_nil_r.
    reflexivity.
  - rewrite length_take in Hlen.
    rewrite !vget_app_l by (try lia; rewrite Hlen; simpl; lia).
    reflexivity.
Qed.

Lemma filter_loop_at mem b : wf mem ->
  let r := filter_loop mem 0 b in
  length (fst r) = length b /\ wf (snd r)
  /\ (forall k, (k < length b)%nat ->
        fst r !!! k
        = if decide (k < 12)%nat
          then (last_in mem k + b !!! k / GAIN) + POLE * last_out mem k
          else 0)
  /\ (forall j, (j < 12)%nat ->
        last_in (snd r) j
        = (if decide (j < length b)%nat then b !!! j / GAIN else last_in mem j)
        /\ last_out (snd r) j
           = (if decide (j < length b)%nat
              then (last_in mem j + b !!! j / GAIN) + POLE * last_out mem j
              else last_out mem j)).
Proof.
  intros Hwf. cbv zeta.
  pose proof (filter_loop_channels b mem 0 Hwf ltac:(lia)) as H. cbv zeta in H.
  destruct H as (Hlen & Hwf' & Hch).
  split; [exact Hlen|]. split; [exact Hwf'|]. split.
  - intros k Hk. destruct (decide (k < 12)%nat) as [Hk12|Hk12].
    + destruct (lookup_lt_is_Some_2 b k Hk) as [x Hx].
      destruct (Hch k Hk12) as [Hin _].
      destruct (Hin k x ltac:(lia) Hx) as (Hy & _).
      rewrite (list_lookup_total_correct _ _ _ Hy), (list_lookup_total_correct _ _ _ Hx).
      reflexivity.
    + rewrite (filter_loop_twelve mem b). cbn [fst].
      pose proof (filter_loop_length (take 12 b) mem 0) as L. rewrite length_take in L.
      rewrite lookup_total_app_r by lia.
      apply lookup_total_replicate_2. lia.
  - intros j Hj. destruct (Hch j Hj) as [Hin Hout].
    destruct (decide (j < length b)%nat) as [Hjb|Hjb].
    + destruct (lookup_lt_is_Some_2 b j Hjb) as [x Hx].
      destruct (Hin j x ltac:(lia) Hx) as (_ & Hi & Ho).
      rewrite (list_lookup_total_correct _ _ _ Hx). split; assumption.
    + apply Hout. right. lia.
Qed.

(** *** What goes to the filtered port *)
Lemma six_of_nine (gv y : Vector) :
  length gv = 6%nat -> (9 <= length y)%nat ->
  <[5%nat := vget y 8]> (<[4%nat := vget y 7]> (<[3%nat := vget y 6]>
    (<[2%nat := vget y 5]> (<[1%nat := vget y 4]> (<[0%nat := vget y 3]> gv)))))
  = take 6 (drop 3 y).
Proof.
  intros Hg Hy.
  destruct gv as [|g0 [|g1 [|g2 [|g3 [|g4 [|g5 [|]]]]]]]; try discriminate Hg.
  destruct y as [|y0 [|y1 [|y2 [|y3 [|y4 [|y5 [|y6 [|y7 [|y8 y]]]]]]]]];
    cbn in Hy; try lia.
  reflexivity.
Qed.

Lemma onRead_port d info b :
  length (g d) = 6%nat -> (9 <= length b)%nat ->
  g (snd (onRead d info b)) = take 6 (drop 3 (fst (onRead d info b)))
  /\ port_filtered (snd (onRead d info b))
     = port_filtered d ++ [(info, take 6 (drop 3 (fst (onRead d info b))))]
  /\ length (g (snd (onRead d info b))) = 6%nat.
Proof.
  intros Hg Hb. unfold onRead.
  pose proof (filter_loop_length b (mem d) 0) as L.
  destruct (filter_loop (mem d) 0 b) as [y m1]. cbn [fst snd g port_filtered] in *.
  rewrite (six_of_nine (g d) y Hg) by lia.
  split; [reflexivity|]. split; [reflexivity|].
  rewrite length_take, length_drop. lia.
Qed.

(** X2. Every sample [onRead] accepts is answered by one message on the
    filtered port, in the order of arrival: the message carries the stamp of
    the sample unchanged and the six filtered channels 3 to 8, provided the
    sample has these channels (nine entries) and [g] has its six entries. *)
Theorem filtered_port_messages samples : forall d,
  length (g d) = 6%nat ->
  Forall (fun s => (9 <= length (snd s))%nat) samples ->
  port_filtered (snd (onRead_all d samples))
  = port_filtered d
    ++ zip (fst <$> samples)
           ((fun y => take 6 (drop 3 y)) <$> fst (onRead_all d samples)).
Proof.
  induction samples as [|[info b] rest IH]; intros d Hg Hs.
  - cbn. rewrite app_nil_r. reflexivity.
  - apply Forall_cons in Hs as [Hb Hs]. cbn [snd] in Hb.
    cbn [onRead_all].
    destruct (onRead_port d info b Hg Hb) as (_ & Hp & Hg1).
    destruct (onRead d info b) as [y d1]. cbn [fst snd] in *.
    specialize (IH d1 Hg1 Hs).
    destruct (onRead_all d1 rest) as [ys d2]. cbn [fst snd] in *.
    rewrite IH, Hp. cbn [fmap list_fmap fst zip zip_with]. rewrite <- app_assoc. reflexivity.
Qed.

Lemma K_fixed : K == (1 / GAIN + 1 / GAIN) + POLE * K.
Proof. vm_compute. reflexivity. Qed.

Lemma lpf_bound (M li x lo : Q) :
  0 <= M -> Qabs li <= M / GAIN -> Qabs x <= M -> Qabs lo <= K * M ->
  Qabs ((li + x / GAIN) + POLE * lo) <= K * M.
Proof.
  intros HM Hli Hx Hlo.
  apply Qabs_Qle_condition in Hli, Hx, Hlo. apply Qabs_Qle_condition.
  assert (Hc : 0 < 1 / GAIN) by (vm_compute; reflexivity).
  assert (Ex : x / GAIN == x * (1 / GAIN)) by (field; exact GAIN_nonzero).
  assert (Em : M / GAIN == M * (1 / GAIN)) by (field; exact GAIN_nonzero).
  assert (Eu : K * M == 2 * (M * (1 / GAIN)) + POLE * (K * M)).
  { rewrite K_fixed at 1. ring. }
  rewrite Em in Hli. rewrite Ex.
  assert (Hx1 : - (M * (1 / GAIN)) <= x * (1 / GAIN) <= M * (1 / GAIN)).
  { split.
    - assert (E : - (M * (1 / GAIN)) == (- M) * (1 / GAIN)) by ring. rewrite E.
      apply Qmult_le_compat_r; lra.
    - apply Qmult_le_compat_r; lra. }
  revert Hli Hlo Hx1 Eu.
  generalize (x * (1 / GAIN)) (M * (1 / GAIN)) (K * M). intros xc w u.
  unfold POLE. intros. lra.
Qed.

Lemma Qabs_0_le M : 0 <= M -> Qabs 0 <= K * M.
Proof.
  intros HM. change (Qabs 0) with 0.
  assert (0 < K) by (vm_compute; reflexivity).
  apply Qmult_le_0_compat; lra.
Qed.

Lemma within_lookup M (v : Vector) k : within M v -> (k < length v)%nat -> Qabs (v !!! k) <= M.
Proof.
  intros H Hk. destruct (lookup_lt_is_Some_2 v k Hk) as [x Hx].
  rewrite (list_lookup_total_correct _ _ _ Hx).
  eapply Forall_lookup_1 in H; eauto.
Qed.

Lemma filter_loop_within M m b :
  0 <= M -> mem_within M m -> within M b ->
  within (K * M) (fst (filter_loop m 0 b)) /\ mem_within M (snd (filter_loop m 0 b)).
Proof.
  intros HM [Hwf Hm] Hb.
  destruct (filter_loop_at m b Hwf) as (Hlen & Hwf' & Hy & Hst).
  split.
  - apply Forall_lookup_2. intros k y Hk.
    pose proof (lookup_lt_Some _ _ _ Hk) as Hlt. rewrite Hlen in Hlt.
    rewrite <- (list_lookup_total_correct _ _ _ Hk), (Hy k Hlt).
    destruct (decide (k < 12)%nat) as [Hk12|Hk12].
    + destruct (Hm k Hk12). apply lpf_bound; auto using within_lookup.
    + apply Qabs_0_le. exact HM.
  - split; [exact Hwf'|]. intros j Hj. destruct (Hst j Hj) as [Ei Eo]. rewrite Ei, Eo.
    destruct (Hm j Hj) as [Hi Ho].
    destruct (decide (j < length b)%nat) as [Hjb|Hjb]; [|auto].
    pose proof (within_lookup M b j Hb Hjb) as Hx. split.
    + apply Qabs_Qle_condition in Hx. apply Qabs_Qle_condition.
      assert (Hc : 0 < 1 / GAIN) by (vm_compute; reflexivity).
      assert (Ex : b !!! j / GAIN == b !!! j * (1 / GAIN)) by (field; exact GAIN_nonzero).
      assert (Em : M / GAIN == M * (1 / GAIN)) by (field; exact GAIN_nonzero).
      rewrite Ex, Em. split.
      * assert (E : - (M * (1 / GAIN)) == (- M) * (1 / GAIN)) by ring. rewrite E.
        apply Qmult_le_compat_r; lra.
      * apply Qmult_le_compat_r; lra.
    + apply lpf_bound; auto.
Qed.

Lemma vget_within M (v : Vector) k : 0 <= M -> within M v -> Qabs (vget v k) <= M.
Proof.
  intros HM Hv. unfold vget. destruct (k <? 0)%Z; [exact HM|].
  destruct (decide (Z.to_nat k < length v)%nat) as [H|H].
  - apply within_lookup; assumption.
  - rewrite list_lookup_total_alt, lookup_ge_None_2 by lia. exact HM.
Qed.

Lemma within_insert M (v : Vector) k x : within M v -> Qabs x <= M -> within M (<[k:=x]> v).
Proof.
  intros Hv Hx. destruct (decide (k < length v)%nat).
  - apply Forall_insert; assumption.
  - rewrite list_insert_ge by lia. exact Hv.
Qed.

Lemma onRead_within M d info b :
  0 <= M -> filter_within M d -> within M b ->
  within (K * M) (fst (onRead d info b)) /\ filter_within M (snd (onRead d info b)).
Proof.
  intros HM (Hm & Hg & Hp) Hb. unfold onRead.
  destruct (filter_loop_within M (mem d) b HM Hm Hb) as [Hy Hm1].
  destruct (filter_loop (mem d) 0 b) as [y m1]. cbn [fst snd] in *.
  assert (HKM : 0 <= K * M).
  { assert (0 < K) by (vm_compute; reflexivity). apply Qmult_le_0_compat; lra. }
  assert (Hg5 : within (K * M)
    (<[5%nat := vget y 8]> (<[4%nat := vget y 7]> (<[3%nat := vget y 6]>
      (<[2%nat := vget y 5]> (<[1%nat := vget y 4]> (<[0%nat := vget y 3]> (g d)))))))).
  { repeat apply within_insert; auto using vget_within. }
  split; [exact Hy|]. split; [exact Hm1|]. split; [exact Hg5|].
  cbn [port_filtered]. apply Forall_app. split; [exact Hp|].
  constructor; [exact Hg5 | constructor].
Qed.

Lemma filter_within_init M : 0 <= M -> filter_within M dataFilter_init.
Proof.
  intros HM. split; [|split].
  - split; [exact wf_zero_memory|]. intros j Hj. unfold last_in, last_out.
    cbn [zero_memory dataFilter_init mem xv yv]. rewrite !rd_zero_table.
    split; [|apply Qabs_0_le; exact HM].
    change (Qabs 0) with 0. assert (0 < 1 / GAIN) by (vm_compute; reflexivity).
    assert (Em : M / GAIN == M * (1 / GAIN)) by (field; exact GAIN_nonzero).
    rewrite Em. apply Qmult_le_0_compat; lra.
  - cbn [dataFilter_init g]. apply Forall_replicate. apply Qabs_0_le. exact HM.
  - constructor.
Qed.

Lemma onRead_all_within M samples : forall d,
  0 <= M -> filter_within M d -> Forall (fun s => within M (snd s)) samples ->
  Forall (within (K * M)) (fst (onRead_all d samples))
  /\ filter_within M (snd (onRead_all d samples)).
Proof.
  induction samples as [|[info b] rest IH]; intros d HM Hd Hs.
  - split; [constructor | exact Hd].
  - apply Forall_cons in Hs as [Hb Hs]. cbn [snd] in Hb. cbn [onRead_all].
    destruct (onRead_within M d info b HM Hd Hb) as [Hy Hd1].
    destruct (onRead d info b) as [y d1]. cbn [fst snd] in *.
    destruct (IH d1 HM Hd1 Hs) as [Hys Hd2].
    destruct (onRead_all d1 rest) as [ys d2]. cbn [fst snd] in *.
    split; [constructor; assumption | exact Hd2].
Qed.

(** X3. In exact arithmetic the filter is stable with gain [K]: for
    samples of at least nine entries, so that [onRead] reads the channels 3
    to 8 it publishes in range, whose entries are all within [M] of zero,
    with [M] no larger than [2 ^ 1000] (far from the largest double), every
    filtered entry and every entry of every message written to the port is
    within [K * M] of zero, for any number of samples. *)
Theorem bounded_in_bounded_out (M : Q) samples :
  0 <= M -> M <= 2 ^ 1000 ->
  Forall (fun s => (9 <= length (snd s))%nat) samples ->
  Forall (fun s => within M (snd s)) samples ->
  Forall (within (K * M)) (fst (onRead_all dataFilter_init samples))
  /\ Forall (fun m => within (K * M) (snd m))
       (port_filtered (snd (onRead_all dataFilter_init samples))).
Proof.
  intros HM _ _ Hs.
  destruct (onRead_all_within M samples dataFilter_init HM (filter_within_init M HM) Hs)
    as [Hy (_ & _ & Hp)].
  split; assumption.
Qed.

Lemma mixv_length a b u v : length u = length v -> length (mixv a b u v) = length u.
Proof.
  intros H. unfold mixv, vadd, vscale. rewrite length_zip_with, !length_fmap. lia.
Qed.

Lemma mixv_lookup a b u v k :
  length u = length v -> (k < length u)%nat ->
  mixv a b u v !!! k = a * u !!! k + b * v !!! k.
Proof.
  intros H Hk. unfold mixv.
  rewrite vadd_lookup by (unfold vscale; rewrite length_fmap; lia).
  rewrite !vscale_lookup by lia. reflexivity.
Qed.

Lemma filter_loop_mixed a b m mx my x y :
  mem_mixed a b m mx my -> length x = length y ->
  veq (fst (filter_loop m 0 (mixv a b x y)))
      (mixv a b (fst (filter_loop mx 0 x)) (fst (filter_loop my 0 y)))
  /\ mem_mixed a b (snd (filter_loop m 0 (mixv a b x y)))
       (snd (filter_loop mx 0 x)) (snd (filter_loop my 0 y)).
Proof.
  intros (Hwf & Hwfx & Hwfy & Hm) Hxy.
  destruct (filter_loop_at m (mixv a b x y) Hwf) as (L & W & Y & S).
  destruct (filter_loop_at mx x Hwfx) as (Lx & Wx & Yx & Sx).
  destruct (filter_loop_at my y Hwfy) as (Ly & Wy & Yy & Sy).
  rewrite mixv_length in * by exact Hxy.
  split.
  - apply veq_pointwise.
    + rewrite mixv_length by lia. lia.
    + intros k Hk. rewrite L in Hk.
      rewrite mixv_lookup by lia.
      rewrite (Y k Hk), (Yx k Hk), (Yy k ltac:(lia)).
      destruct (decide (k < 12)%nat) as [Hk12|Hk12]; [|ring].
      destruct (Hm k Hk12) as [Ei Eo]. rewrite Ei, Eo, mixv_lookup by lia.
      field. exact GAIN_nonzero.
  - split; [exact W|]. split; [exact Wx|]. split; [exact Wy|].
    intros j Hj. destruct (S j Hj) as [Ei Eo], (Sx j Hj) as [Eix Eox], (Sy j Hj) as [Eiy Eoy].
    rewrite Ei, Eo, Eix, Eox, Eiy, Eoy. destruct (Hm j Hj) as [Hi Ho].
    destruct (decide (j < length x)%nat) as [Hjx|Hjx];
      destruct (decide (j < length y)%nat) as [Hjy|Hjy]; try lia.
    + rewrite Hi, Ho, mixv_lookup by lia. split; field; exact GAIN_nonzero.
    + split; assumption.
Qed.

Lemma onRead_all_mixed a b xs : forall ys d dx dy,
  mem_mixed a b (mem d) (mem dx) (mem dy) ->
  Forall2 (fun x y => length (snd x) = length (snd y)) xs ys ->
  Forall2 veq (fst (onRead_all d (mixed a b xs ys)))
    (zip_with (mixv a b) (fst (onRead_all dx xs)) (fst (onRead_all dy ys))).
Proof.
  induction xs as [|[ix x] xs IH]; intros ys d dx dy Hm Hs.
  - inversion Hs; subst. constructor.
  - inversion Hs as [|? [iy y] ? ys' Hxy Hrest]; subst. cbn [snd] in Hxy.
    cbn [mixed zip_with onRead_all fst snd]. unfold onRead.
    destruct (filter_loop_mixed a b (mem d) (mem dx) (mem dy) x y Hm Hxy) as [Hy Hm1].
    destruct (filter_loop (mem d) 0 (mixv a b x y)) as [o m1].
    destruct (filter_loop (mem dx) 0 x) as [ox mx1].
    destruct (filter_loop (mem dy) 0 y) as [oy my1]. cbn [fst snd] in *.
    match goal with
    | |- context [onRead_all ?d1 (zip_with _ xs ys')] =>
      match goal with
      | |- context [onRead_all ?dx1 xs] =>
        match goal with
        | |- context [onRead_all ?dy1 ys'] =>
            specialize (IH ys' d1 dx1 dy1 Hm1 Hrest)
        end
      end
    end.
    unfold mixed in IH.
    destruct (onRead_all _ (zip_with _ xs ys')) as [os d2].
    destruct (onRead_all _ xs) as [oxs dx2].
    destruct (onRead_all _ ys') as [oys dy2]. cbn [fst snd zip_with] in *.
    constructor; assumption.
Qed.

Lemma mem_mixed_zero a b : mem_mixed a b zero_memory zero_memory zero_memory.
Proof.
  split; [exact wf_zero_memory|]. split; [exact wf_zero_memory|].
  split; [exact wf_zero_memory|].
  intros j Hj. unfold last_in, last_out. cbn [zero_memory xv yv].
  rewrite !rd_zero_table. split; ring.
Qed.

(** X4. The filter is linear: filtering the samples [a * x + b * y] from a
    fresh [dataFilter] gives [a] times the filtered [x] plus [b] times the
    filtered [y], sample by sample, when the two sequences have samples of
    the same sizes. *)
Theorem filter_superposition (a b : Q) (xs ys : list (Stamp * list Q)) :
  Forall2 (fun x y => length (snd x) = length (snd y)) xs ys ->
  Forall2 veq (fst (onRead_all dataFilter_init (mixed a b xs ys)))
    (zip_with (mixv a b) (fst (onRead_all dataFilter_init xs))
                         (fst (onRead_all dataFilter_init ys))).
Proof. apply onRead_all_mixed. apply mem_mixed_zero. Qed.

(** *** The step response in closed form *)

Lemma POLE_nonzero : ~ POLE == 0.
Proof. unfold POLE. intros H. discriminate H. Qed.

(** X5. The response of a channel to a unit step approaches [K] as a
    geometric sequence: after [n] further samples what is missing to [K] is
    [POLE ^ n] times what was missing after the first. *)
Theorem step_response_geometric (j : Z) (n : nat) :
  (0 <= j < MAX_JN)%Z ->
  K - step_response j n == POLE ^ Z.of_nat n * (K - 1 / GAIN).
Proof.
  intros Hj. induction n as [|n IH].
  - rewrite (step_response_0 j Hj). change (POLE ^ Z.of_nat 0) with 1. ring.
  - rewrite (step_response_S j n Hj), Nat2Z.inj_succ, <- Z.add_1_r.
    rewrite Qpower_plus by exact POLE_nonzero.
    assert (E : K - (1 / GAIN + 1 / GAIN + POLE * step_response j n)
                == POLE * (K - step_response j n)).
    { rewrite K_fixed at 1. ring. }
    rewrite E, IH. change (POLE ^ 1) with POLE. ring.
Qed.

(** Two samples of twelve channels each, seen from channel 3. *)
Lemma prefilter_recursion_witness :
  (3 < 12)%nat
  /\ veq (channel 3 (fst (onRead_all dataFilter_init
                            [ ({| count := 0; stamp_time := 0 |}, Bench.ramp 12);
                              ({| count := 1; stamp_time := 1 |}, Bench.ramp 12) ])))
         (spec_recursion 0 0
            (channel 3 (snd <$> [ ({| count := 0; stamp_time := 0 |}, Bench.ramp 12);
                                  ({| count := 1; stamp_time := 1 |}, Bench.ramp 12) ]))).
Proof.
  split; [lia|]. apply prefilter_recursion. lia.
Defined.

(** The unit step on channel 3. *)
Lemma step_response_witness :
  (0 <= 3 < MAX_JN)%Z
  /\ (forall n, step_response 3 n <= step_response 3 (S n))
  /\ (forall n, step_response 3 n <= K)
  /\ (forall eps, 0 < eps ->
        exists N : nat, forall n, (N <= n)%nat -> K - step_response 3 n < eps).
Proof.
  assert (H : (0 <= 3 < MAX_JN)%Z) by (unfold MAX_JN; lia).
  split; [exact H|]. exact (step_response_monotone 3 H).
Defined.

(** *** On the bench *)

Lemma raw_samples_within : Forall (fun s => within 12 (snd s)) Bench.raw_samples.
Proof.
  assert (H : within 12 (Bench.ramp 12)).
  { unfold within. apply Forall_forall. intros x Hx. apply list_elem_of_In in Hx.
    cbn in Hx. repeat (destruct Hx as [<-|Hx]; [vm_compute; discriminate|]).
    destruct Hx. }
  repeat (apply Forall_cons; split; [exact H|]). constructor.
Qed.

Lemma raw_samples_long : Forall (fun s => (9 <= length (snd s))%nat) Bench.raw_samples.
Proof. repeat (apply Forall_cons; split; [cbn; lia|]). constructor. Qed.

Lemma raw_samples_alike :
  Forall2 (fun x y : Stamp * list Q => length (snd x) = length (snd y))
    Bench.raw_samples Bench.raw_samples.
Proof. repeat constructor. Qed.

(** Two samples of twelve channels on a fresh filter. *)
Lemma filtered_port_witness :
  length (g dataFilter_init) = 6%nat
  /\ Forall (fun s => (9 <= length (snd s))%nat) Bench.raw_samples
  /\ port_filtered (snd (onRead_all dataFilter_init Bench.raw_samples))
     = port_filtered dataFilter_init
       ++ zip (fst <$> Bench.raw_samples)
              ((fun y => take 6 (drop 3 y))
                 <$> fst (onRead_all dataFilter_init Bench.raw_samples)).
Proof.
  split; [reflexivity|]. split; [exact raw_samples_long|].
  exact (filtered_port_messages Bench.raw_samples dataFilter_init eq_refl raw_samples_long).
Defined.

(** The same samples, whose entries are within 12 of zero. *)
Lemma bounded_witness :
  0 <= 12 /\ 12 <= 2 ^ 1000
  /\ Forall (fun s => (9 <= length (snd s))%nat) Bench.raw_samples
  /\ Forall (fun s => within 12 (snd s)) Bench.raw_samples
  /\ Forall (within (K * 12)) (fst (onRead_all dataFilter_init Bench.raw_samples))
  /\ Forall (fun m => within (K * 12) (snd m))
       (port_filtered (snd (onRead_all dataFilter_init Bench.raw_samples))).
Proof.
  assert (H : 0 <= 12) by (vm_compute; discriminate).
  assert (H' : 12 <= 2 ^ 1000) by (vm_compute; discriminate).
  split; [exact H|]. split; [exact H'|]. split; [exact raw_samples_long|].
  split; [exact raw_samples_within|].
  exact (bounded_in_bounded_out 12 Bench.raw_samples H H' raw_samples_long
           raw_samples_within).
Defined.

(** Twice the samples plus three times the samples. *)
Lemma superposition_witness :
  Forall2 (fun x y : Stamp * list Q => length (snd x) = length (snd y))
    Bench.raw_samples Bench.raw_samples
  /\ Forall2 veq
       (fst (onRead_all dataFilter_init (mixed 2 3 Bench.raw_samples Bench.raw_samples)))
       (zip_with (mixv 2 3) (fst (onRead_all dataFilter_init Bench.raw_samples))
                            (fst (onRead_all dataFilter_init Bench.raw_samples))).
Proof.
  split; [exact raw_samples_alike|].
  exact (filter_superposition 2 3 Bench.raw_samples Bench.raw_samples raw_samples_alike).
Defined.

(** Channel 3, five samples after the first. *)
Lemma step_geometric_witness :
  (0 <= 3 < MAX_JN)%Z
  /\ K - step_response 3 5 == POLE ^ Z.of_nat 5 * (K - 1 / GAIN).
Proof.
  assert (H : (0 <= 3 < MAX_JN)%Z) by (unfold MAX_JN; lia).
  split; [exact H|]. exact (step_response_geometric 3 5 H).
Defined.


End FilterFacts.
(** ** The rate thread *)

Module DynFacts.
Import Dyn.

Local Open Scope string_scope.
Local Open Scope list_scope.
Local Open Scope Q_scope.

(** A block that assigns no member of a group leaves the group as it was:
    both sides reduce to the same term. *)
Ltac frame := constructor; intros H; first [discriminate H | reflexivity].

(** Bring the flags the source tests back to the object they are read from,
    then decide them. *)
Ltac flags :=
  repeat match goal with
  | |- context [Z.eqb (test ?e) ?v] =>
      let t := eval lazy in (test e) in progress change (test e) with t
  | |- context [Z.eqb (comp ?e) ?v] =>
      let t := eval lazy in (comp e) in progress change (comp e) with t
  end;
  repeat match goal with
  | |- context [Z.eqb ?a ?v] => destruct (Z.eqb a v)
  end.

(** Every equation a frame gives, as a hypothesis. *)
Ltac open_frames :=
  repeat match goal with
  | Hf : same_but _ _ _ _ _ _ _ _ _ _ _ _ _ _ |- _ => destruct Hf
  end;
  repeat match goal with
  | H : false = false -> _ |- _ => specialize (H eq_refl)
  | H : true = false -> _ |- _ => clear H
  end.

(** A sequence of blocks leaves alone what each of them leaves alone. *)
Ltac frames :=
  constructor; intros Hflag; try discriminate Hflag; clear Hflag;
  open_frames; congruence.

Section Facts.
Context {C : Collaborators}.

Lemma flags_kept_refl a : flags_kept a a.
Proof. split; reflexivity. Qed.

Lemma flags_kept_trans a b c : flags_kept a b -> flags_kept b c -> flags_kept a c.
Proof. intros [] []. split; congruence. Qed.

Lemma flags_kept_perf a b : perf b = perf a -> flags_kept a b.
Proof. intros H. unfold flags_kept, test, comp. rewrite H. split; reflexivity. Qed.

(** *** The blocks of [readAndUpdate] *)

Lemma getUpper_frame s env :
  same_but true true false false false true false false false false false false
    s (snd (getUpperEncodersSpeedAndAcceleration s env)).
Proof. frame. Qed.

Lemma getLower_frame s env :
  same_but true false true false false true false false false false false false
    s (snd (getLowerEncodersSpeedAndAcceleration s env)).
Proof. frame. Qed.

Lemma setUpperMeasure_frame s b :
  same_but false false false false false false true true false false false false
    s (setUpperMeasure s b).
Proof. unfold setUpperMeasure. cbv zeta. destruct (negb b); flags; frame. Qed.

Lemma setLowerMeasure_frame s b :
  same_but false false false false false false true true false false false false
    s (setLowerMeasure s b).
Proof. unfold setLowerMeasure. cbv zeta. destruct (negb b); flags; frame. Qed.

Lemma read_ports_frame s env :
  same_but false false false true true false false false false false false false
    s (read_ports s env false).
Proof. frame. Qed.

Lemma read_timing_frame s env :
  same_but false false false false false false false false false false true false
    s (read_timing s env).
Proof.
  unfold read_timing. cbv zeta. flags; [|frame].
  match goal with |- context [if ?c then _ else _] => destruct c end; frame.
Qed.

Lemma read_timing_flags s env : flags_kept s (read_timing s env).
Proof.
  unfold read_timing. cbv zeta. flags; [|apply flags_kept_refl].
  match goal with |- context [if ?c then _ else _] => destruct c end;
    split; reflexivity.
Qed.

Lemma read_inertial_frame s env :
  same_but false false false false true true false false false false false false
    s (read_inertial s env).
Proof. unfold read_inertial. destruct (inertial s); frame. Qed.

Lemma readAndUpdate_frame s env i :
  same_but true true true true true true true true false false true false
    s (snd (readAndUpdate s env false i)).
Proof.
  unfold readAndUpdate, bindR, retR. cbv beta iota zeta.
  pose proof (read_ports_frame s env) as H1.
  set (s1 := read_ports s env false) in *.
  pose proof (read_timing_frame s1 env) as H2.
  set (s2 := read_timing s1 env) in *.
  pose proof (read_inertial_frame s2 env) as H3.
  set (s3 := read_inertial s2 env) in *.
  pose proof (getUpper_frame s3 env) as H4.
  destruct (getUpperEncodersSpeedAndAcceleration s3 env) as [r4 s4]. cbn [snd] in H4.
  pose proof (setUpperMeasure_frame s4 i) as H5.
  set (s5 := setUpperMeasure s4 i) in *.
  pose proof (getLower_frame s5 env) as H6.
  destruct (getLowerEncodersSpeedAndAcceleration s5 env) as [r6 s6]. cbn [snd] in H6.
  pose proof (setLowerMeasure_frame s6 i) as H7. cbn [snd].
  frames.
Qed.


Lemma readAndUpdate_ok s env i : fst (readAndUpdate s env false i) = all_ok env.
Proof. reflexivity. Qed.

Lemma readAndUpdate_flags s env i : flags_kept s (snd (readAndUpdate s env false i)).
Proof.
  unfold readAndUpdate, bindR, retR. cbv beta iota zeta.
  pose proof (read_ports_frame s env) as H1.
  set (s1 := read_ports s env false) in *.
  pose proof (read_timing_flags s1 env) as H2.
  set (s2 := read_timing s1 env) in *.
  pose proof (read_inertial_frame s2 env) as H3.
  set (s3 := read_inertial s2 env) in *.
  pose proof (getUpper_frame s3 env) as H4.
  destruct (getUpperEncodersSpeedAndAcceleration s3 env) as [r4 s4]. cbn [snd] in H4.
  pose proof (setUpperMeasure_frame s4 i) as H5.
  set (s5 := setUpperMeasure s4 i) in *.
  pose proof (getLower_frame s5 env) as H6.
  destruct (getLowerEncodersSpeedAndAcceleration s5 env) as [r6 s6]. cbn [snd] in H6.
  pose proof (setLowerMeasure_frame s6 i) as H7. cbn [snd].
  apply flags_kept_trans with s1; [apply flags_kept_perf; open_frames; congruence|].
  apply flags_kept_trans with s2; [exact H2|].
  apply flags_kept_perf. open_frames. congruence.
Qed.

(** The members of one sensor after the ports were read. *)
Lemma read_ports_limb l s env :
  limb_of l (read_ports s env false)
  = {| l_ft := rd_of l env; l_F := F_of l s;
       l_F_iDyn := F_iDyn_of l s; l_Offset := Offset_of l s |}.
Proof. destruct l; reflexivity. Qed.

Lemma limb_of_fts l a b : fts b = fts a -> limb_of l b = limb_of l a.
Proof. intros H. unfold limb_of. rewrite H. reflexivity. Qed.

Lemma readAndUpdate_limb l s env i :
  limb_of l (snd (readAndUpdate s env false i))
  = {| l_ft := rd_of l env; l_F := F_of l s;
       l_F_iDyn := F_iDyn_of l s; l_Offset := Offset_of l s |}.
Proof.
  rewrite <- (read_ports_limb l s env).
  apply limb_of_fts.
  unfold readAndUpdate, bindR, retR. cbv beta iota zeta.
  set (s1 := read_ports s env false) in *.
  pose proof (read_timing_frame s1 env) as H2.
  set (s2 := read_timing s1 env) in *.
  pose proof (read_inertial_frame s2 env) as H3.
  set (s3 := read_inertial s2 env) in *.
  pose proof (getUpper_frame s3 env) as H4.
  destruct (getUpperEncodersSpeedAndAcceleration s3 env) as [r4 s4]. cbn [snd] in H4.
  pose proof (setUpperMeasure_frame s4 i) as H5.
  set (s5 := setUpperMeasure s4 i) in *.
  pose proof (getLower_frame s5 env) as H6.
  destruct (getLowerEncodersSpeedAndAcceleration s5 env) as [r6 s6]. cbn [snd] in H6.
  pose proof (setLowerMeasure_frame s6 i) as H7. cbn [snd].
  open_frames. congruence.
Qed.

(** *** The blocks of [run] *)

Lemma run_enter_frame s env :
  same_but false false false false false false false false false true true false
    s (run_enter s env).
Proof. unfold run_enter. destruct (test s =? VOCAB_TEST)%Z; frame. Qed.

Lemma run_enter_flags s env : flags_kept s (run_enter s env).
Proof. unfold run_enter. destruct (test s =? VOCAB_TEST)%Z; split; reflexivity. Qed.

Lemma run_read_eq s env :
  run_read s env =
  let r := readAndUpdate (run_enter s env) env false false in
  if negb (fst r) then set_thread_status STATUS_DISCONNECTED (snd r) else snd r.
Proof.
  unfold run_read, run_enter. cbv zeta.
  destruct (readAndUpdate _ env false false) as [r s1]. reflexivity.
Qed.

Lemma set_thread_status_frame v s :
  same_but false false false false false false false false false true false false
    s (set_thread_status v s).
Proof. frame. Qed.

Lemma run_read_frame s env :
  same_but true true true true true true true true false true true false
    s (run_read s env).
Proof.
  rewrite run_read_eq. cbv zeta.
  pose proof (run_enter_frame s env) as H1.
  pose proof (readAndUpdate_frame (run_enter s env) env false) as H2.
  destruct (negb _); [|frames].
  pose proof (set_thread_status_frame STATUS_DISCONNECTED
                (snd (readAndUpdate (run_enter s env) env false false))) as H3.
  frames.
Qed.

Lemma run_read_flags s env : flags_kept s (run_read s env).
Proof.
  rewrite run_read_eq. cbv zeta.
  apply flags_kept_trans with (run_enter s env); [apply run_enter_flags|].
  pose proof (readAndUpdate_flags (run_enter s env) env false) as H.
  destruct (negb _); [|exact H].
  eapply flags_kept_trans; [exact H|].
  apply flags_kept_perf.
  apply (sb_perf _ _ _ _ _ _ _ _ _ _ _ _ _ _ (set_thread_status_frame _ _)). reflexivity.
Qed.

Lemma run_read_status s env :
  thread_status (run_read s env)
  = if all_ok env then STATUS_OK else STATUS_DISCONNECTED.
Proof.
  rewrite run_read_eq. cbv zeta. rewrite readAndUpdate_ok.
  destruct (all_ok env); cbn [negb]; [|reflexivity].
  pose proof (readAndUpdate_frame (run_enter s env) env false) as H.
  destruct H as [_ _ _ _ _ _ _ _ _ H _ _]. rewrite (H eq_refl).
  unfold run_enter. generalize (if (test s =? VOCAB_TEST)%Z
     then set_ftNew 0%Z (set_startRun (now_startRun (clock env)) s) else s).
  intros x. reflexivity.
Qed.

Lemma run_read_limb l s env :
  limb_of l (run_read s env)
  = {| l_ft := rd_of l env; l_F := F_of l s;
       l_F_iDyn := F_iDyn_of l s; l_Offset := Offset_of l s |}.
Proof.
  rewrite run_read_eq. cbv zeta.
  assert (E : forall l, limb_of l (run_enter s env) = limb_of l s).
  { intros l'. apply limb_of_fts. apply (sb_fts _ _ _ _ _ _ _ _ _ _ _ _ _ _ (run_enter_frame s env)). reflexivity. }
  transitivity (limb_of l (snd (readAndUpdate (run_enter s env) env false false))).
  - destruct (negb _); [|reflexivity]. apply limb_of_fts.
    apply (sb_fts _ _ _ _ _ _ _ _ _ _ _ _ _ _ (set_thread_status_frame _ _)). reflexivity.
  - rewrite readAndUpdate_limb. unfold F_of, F_iDyn_of, Offset_of. rewrite E. reflexivity.
Qed.

Lemma run_zero_frame s :
  same_but true false false false false false true true false false false false
    s (run_zero s).
Proof.
  unfold run_zero. cbv zeta.
  assert (H1 : same_but true false false false false false false false false false
                 false false s (setZeroJntAngVelAcc s)) by frame.
  pose proof (setUpperMeasure_frame (setZeroJntAngVelAcc s) false) as H2.
  pose proof (setLowerMeasure_frame (setUpperMeasure (setZeroJntAngVelAcc s) false) false) as H3.
  frames.
Qed.

Lemma run_wrench_frame s :
  same_but false false false true false false false false false false false false
    s (run_wrench s).
Proof.
  unfold run_wrench.
  destruct s as [j u lo [[fl Fl il ol] [fr Fr ir or] [fll Fll ill oll] [frl Frl irl orl]]
                  i e ic ics se st p sn].
  destruct fl, fr, fll, frl; frame.
Qed.

(** The members of one sensor after the four guarded assignments. *)
Lemma run_wrench_limb l s :
  limb_of l (run_wrench s)
  = {| l_ft := ft_of l s;
       l_F := match ft_of l s with
              | Some f => vscale (-1) (vsub f (Offset_of l s))
              | None => F_of l s
              end;
       l_F_iDyn := F_iDyn_of l s; l_Offset := Offset_of l s |}.
Proof.
  unfold run_wrench.
  destruct s as [j u lo [[fl Fl il ol] [fr Fr ir or] [fll Fll ill oll] [frl Frl irl orl]]
                  i e ic ics se st p sn].
  destruct fl, fr, fll, frl, l; reflexivity.
Qed.

Lemma run_dynamics_frame s env :
  same_but false false false false false false true false false false true false
    s (run_dynamics s env).
Proof. unfold run_dynamics. cbv zeta. flags; frame. Qed.

Lemma run_dynamics_flags s env : flags_kept s (run_dynamics s env).
Proof. unfold run_dynamics. cbv zeta. flags; split; reflexivity. Qed.

(** The two evaluations: the upper chain on the base motion and the wrenches
    of the arms, then the lower chain on what the upper chain reports for
    the torso and the wrenches of the legs. *)
Lemma run_dynamics_icub s env :
  let F_up := vfill (vzeros 6) 0 in
  let U := update (upperTorso (icub s)) (w0 s) (dw0 s) (d2p0 s)
             (F_RArm s) (F_LArm s) F_up in
  icub (run_dynamics s env)
  = {| upperTorso := U;
       lowerTorso := update (lowerTorso (icub s)) (getTorsoAngVel U)
                       (getTorsoAngAcc U) (getTorsoLinAcc U)
                       (F_RLeg s) (F_LLeg s) F_up |}.
Proof. unfold run_dynamics. cbv zeta. flags; reflexivity. Qed.

Lemma run_publish_frame s :
  same_but false false false false false false false false false false false true
    s (run_publish s).
Proof. frame. Qed.

Lemma fold_addDouble (v : Vector) : forall b : Bottle,
  fold_left addDouble v b = b ++ (BDouble <$> v).
Proof.
  induction v as [|x v IH]; intros b; cbn.
  - rewrite app_nil_r. reflexivity.
  - rewrite IH. unfold addDouble. rewrite <- app_assoc. reflexivity.
Qed.

Lemma writeTorque_sent v a p s :
  sent (writeTorque v a p s) = sent s ++ [(p, torque_bottle a v)].
Proof.
  unfold writeTorque. cbv zeta. cbn [sent set_sent].
  rewrite fold_addDouble. reflexivity.
Qed.

Lemma run_publish_sent s : sent (run_publish s) = sent s ++ four_messages (icub s).
Proof.
  unfold run_publish. cbv zeta. rewrite !writeTorque_sent.
  rewrite <- !app_assoc. reflexivity.
Qed.

Lemma run_timing_frame s env :
  same_but false false false false false false false false false false true true
    s (run_timing s env).
Proof. unfold run_timing. destruct (test s =? VOCAB_TEST)%Z; frame. Qed.

Lemma run_timing_flags s env : flags_kept s (run_timing s env).
Proof. unfold run_timing. destruct (test s =? VOCAB_TEST)%Z; split; reflexivity. Qed.

Lemma run_timing_sent s env :
  exists extra, sent (run_timing s env) = sent s ++ extra /\ torque_messages extra = [].
Proof.
  unfold run_timing. destruct (test s =? VOCAB_TEST)%Z.
  - eexists. split.
    + cbv zeta. cbn [sent set_sent set_endRun set_perf]. rewrite <- app_assoc. reflexivity.
    + reflexivity.
  - exists []. rewrite app_nil_r. split; reflexivity.
Qed.

Lemma sensor_wrenches_frame s :
  same_but false false false false false false false true false false false false
    s (snd (sensor_wrenches s)).
Proof. frame. Qed.

Lemma run_compare_frame s :
  same_but false false false false false false false true true false false true
    s (run_compare s).
Proof. unfold run_compare. destruct (comp s =? VOCAB_COMP)%Z; frame. Qed.

Lemma run_compare_sent s :
  exists extra, sent (run_compare s) = sent s ++ extra /\ torque_messages extra = [].
Proof.
  unfold run_compare. destruct (comp s =? VOCAB_COMP)%Z.
  - eexists. split; [reflexivity|reflexivity].
  - exists []. rewrite app_nil_r. split; reflexivity.
Qed.


(** *** One period as a whole *)

Lemma run_eq s env :
  run s env
  = run_compare (run_timing (run_publish (run_dynamics (before_dynamics s env) env)) env).
Proof. unfold run, before_dynamics. cbv zeta. reflexivity. Qed.

(** The frames of the blocks of one period, all at once. *)
Ltac run_blocks s env :=
  rewrite (run_eq s env); unfold before_dynamics;
  pose proof (run_read_frame s env) as Hread;
  pose proof (run_read_flags s env) as Fread;
  set (s1 := run_read s env) in *;
  pose proof (run_zero_frame s1) as Hzero;
  set (s2 := run_zero s1) in *;
  pose proof (run_wrench_frame s2) as Hwrench;
  set (s3 := run_wrench s2) in *;
  pose proof (run_dynamics_frame s3 env) as Hdyn;
  pose proof (run_dynamics_flags s3 env) as Fdyn;
  set (s4 := run_dynamics s3 env) in *;
  pose proof (run_publish_frame s4) as Hpub;
  set (s5 := run_publish s4) in *;
  pose proof (run_timing_frame s5 env) as Htime;
  pose proof (run_timing_flags s5 env) as Ftime;
  set (s6 := run_timing s5 env) in *;
  pose proof (run_compare_frame s6) as Hcomp;
  set (s7 := run_compare s6) in *.

Lemma run_status s env :
  thread_status (run s env) = if all_ok env then STATUS_OK else STATUS_DISCONNECTED.
Proof.
  rewrite <- (run_read_status s env). run_blocks s env. open_frames. congruence.
Qed.

Lemma run_limb l s env :
  limb_of l (run s env)
  = {| l_ft := rd_of l env;
       l_F := match rd_of l env with
              | Some f => vscale (-1) (vsub f (Offset_of l s))
              | None => F_of l s
              end;
       l_F_iDyn := F_iDyn_of l s; l_Offset := Offset_of l s |}.
Proof.
  pose proof (run_read_limb l s env) as E1.
  run_blocks s env.
  assert (E2 : limb_of l s2 = limb_of l s1) by (apply limb_of_fts; open_frames; congruence).
  pose proof (run_wrench_limb l s2) as E3. fold s3 in E3.
  assert (E4 : limb_of l s7 = limb_of l s3) by (apply limb_of_fts; open_frames; congruence).
  rewrite E4, E3. unfold ft_of, Offset_of, F_of, F_iDyn_of. rewrite E2, E1. reflexivity.
Qed.

Lemma run_sent s env :
  exists extra,
    sent (run s env) = sent s ++ four_messages (icub (run s env)) ++ extra
    /\ torque_messages extra = [].
Proof.
  pose proof (run_timing_sent (run_publish (run_dynamics (before_dynamics s env) env)) env)
    as (x1 & E1 & T1).
  pose proof (run_compare_sent
                (run_timing (run_publish (run_dynamics (before_dynamics s env) env)) env))
    as (x2 & E2 & T2).
  pose proof (run_publish_sent (run_dynamics (before_dynamics s env) env)) as E3.
  revert E1 E2 E3. run_blocks s env. intros E1 E2 E3.
  exists (x1 ++ x2). split.
  - rewrite E2, E1, E3.
    assert (Ei : icub s7 = icub s4) by (open_frames; congruence).
    assert (Es : sent s4 = sent s) by (open_frames; congruence).
    rewrite Ei, Es. rewrite <- !app_assoc. reflexivity.
  - unfold torque_messages in *. rewrite filter_app, T1, T2. reflexivity.
Qed.

Lemma run_offset l s env : Offset_of l (run s env) = Offset_of l s.
Proof. unfold Offset_of. rewrite run_limb. reflexivity. Qed.

(** What an evaluation leaves in a chain. *)
Lemma update_node n w dw d2p FR FL Fu :
  let U := update n w dw d2p FR FL Fu in
  kind U = kind n /\ limb_up U = limb_up n /\ limb_left U = limb_left n
  /\ limb_right U = limb_right n
  /\ meas_w U = w /\ meas_dw U = dw /\ meas_d2p U = d2p
  /\ out U = solve_update (kind n) (limb_up n) (limb_left n) (limb_right n)
               w dw d2p FR FL Fu.
Proof. cbv zeta. repeat split; reflexivity. Qed.

(** The model after one period, from the object it was evaluated on. *)
Lemma run_icub s env :
  let b := before_dynamics s env in
  let F_up := vzeros 6 in
  let U := update (upperTorso (icub b)) (w0 b) (dw0 b) (d2p0 b)
             (F_RArm b) (F_LArm b) F_up in
  icub (run s env)
  = {| upperTorso := U;
       lowerTorso := update (lowerTorso (icub b)) (getTorsoAngVel U)
                       (getTorsoAngAcc U) (getTorsoLinAcc U)
                       (F_RLeg b) (F_LLeg b) F_up |}
  /\ imu (run s env) = imu b /\ fts (run s env) = fts b.
Proof.
  cbv zeta. pose proof (run_dynamics_icub (before_dynamics s env) env) as E.
  cbv zeta in E. revert E. run_blocks s env. intros E.
  change (vfill (vzeros 6) 0) with (vzeros 6) in E.
  split; [|split]; open_frames; congruence.
Qed.


Lemma published_eq s env :
  exists extra,
    published s env = four_messages (icub (run s env)) ++ extra
    /\ torque_messages extra = [].
Proof.
  destruct (run_sent s env) as (extra & E & T). exists extra. split; [|exact T].
  unfold published. rewrite E. apply drop_app_length.
Qed.

Lemma torque_messages_published s env :
  torque_messages (published s env) = four_messages (icub (run s env)).
Proof.
  destruct (published_eq s env) as (extra & E & T). rewrite E.
  unfold torque_messages in *. rewrite filter_app, T, app_nil_r. reflexivity.
Qed.




(** C1, as the code has it. One period publishes exactly four torque
    messages, in this order: right leg and left leg with address 2, right
    arm and left arm with address 1, each the address followed by the
    torques of that limb in order.  The torques of the torso and of the
    head are computed and go to no port. *)
Theorem four_torque_messages s env :
  torque_messages (published s env)
  = [ (port_RLTorques,
       BInt 2 :: (BDouble <$> getTorques (lowerTorso (icub (run s env))) "right_leg"));
      (port_LLTorques,
       BInt 2 :: (BDouble <$> getTorques (lowerTorso (icub (run s env))) "left_leg"));
      (port_RATorques,
       BInt 1 :: (BDouble <$> getTorques (upperTorso (icub (run s env))) "right_arm"));
      (port_LATorques,
       BInt 1 :: (BDouble <$> getTorques (upperTorso (icub (run s env))) "left_arm")) ].
Proof. apply torque_messages_published. Qed.


(** C6, as the code has it. The wrench of a sensor becomes
    [-1 * (frame - Offset)] in the periods whose read of its port delivers a
    frame, and is left as it was in the others; the offset is not touched. *)
Theorem wrench_from_new_frame l s env :
  F_of l (run s env)
  = match rd_of l env with
    | Some f => vscale (-1) (vsub f (Offset_of l s))
    | None => F_of l s
    end
  /\ Offset_of l (run s env) = Offset_of l s.
Proof.
  split; [|apply run_offset]. unfold F_of. rewrite run_limb. reflexivity.
Qed.

(** C5. After a period, the lower chain holds as its base motion the three
    vectors the upper chain reports for the torso, and its result is the
    model evaluated on them; the result of the upper chain is the model
    evaluated on the base motion and the arm wrenches of the period. *)
Theorem lower_chain_fed_by_upper s env :
  let s' := run s env in
  let U := upperTorso (icub s') in
  let L := lowerTorso (icub s') in
  out U = solve_update (kind U) (limb_up U) (limb_left U) (limb_right U)
            (w0 s') (dw0 s') (d2p0 s') (F_RArm s') (F_LArm s') (vzeros 6)
  /\ meas_w L = getTorsoAngVel U
  /\ meas_dw L = getTorsoAngAcc U
  /\ meas_d2p L = getTorsoLinAcc U
  /\ out L = solve_update (kind L) (limb_up L) (limb_left L) (limb_right L)
               (getTorsoAngVel U) (getTorsoAngAcc U) (getTorsoLinAcc U)
               (F_RLeg s') (F_LLeg s') (vzeros 6).
Proof.
  cbv zeta. destruct (run_icub s env) as (Ei & Em & Ef). cbv zeta in Ei.
  unfold w0, dw0, d2p0, F_RArm, F_LArm, F_RLeg, F_LLeg.
  rewrite Ei, Em, Ef. cbn [upperTorso lowerTorso].
  generalize (before_dynamics s env). intros b.
  repeat split; reflexivity.
Qed.


(** *** The joint rates handed to the model *)

Lemma vfill_zeros (v : Vector) : vfill v 0 = vzeros (length v).
Proof. induction v as [|x v IH]; cbn; [reflexivity|]. f_equal. exact IH. Qed.

Lemma slice_loop_length a b off : forall n i dqv d2qv,
  length (fst (slice_loop a b off i n dqv d2qv)) = length dqv
  /\ length (snd (slice_loop a b off i n dqv d2qv)) = length d2qv.
Proof.
  induction n as [|n IH]; intros i dqv d2qv; cbn [slice_loop].
  - split; reflexivity.
  - cbv zeta. destruct (IH (S i) (<[i:=a !!! (i + off)%nat]> dqv)
                          (<[i:=b !!! (i + off)%nat]> d2qv)) as [H1 H2].
    rewrite H1, H2, !length_insert. split; reflexivity.
Qed.

Lemma rate_sizes_joints a b : joints b = joints a -> rate_sizes b = rate_sizes a.
Proof.
  intros H. unfold rate_sizes, dq_head, d2q_head, dq_larm, d2q_larm, dq_rarm, d2q_rarm,
    dq_torso, d2q_torso, dq_lleg, d2q_lleg, dq_rleg, d2q_rleg. rewrite H. reflexivity.
Qed.

(** Unfold the assignments of a block down to its loops. *)
Ltac to_loops :=
  lazy -[slice_loop read_loop length lookup_total insert take drop app
         Z.of_nat Z.sub vget fmap seq];
  repeat match goal with
  | |- context [match ?p with pair x _ => x end] =>
      change (match p with pair x _ => x end) with (fst p)
  | |- context [match ?p with pair _ y => y end] =>
      change (match p with pair _ y => y end) with (snd p)
  end.

Lemma getUpper_rate_sizes s env :
  rate_sizes (snd (getUpperEncodersSpeedAndAcceleration s env)) = rate_sizes s.
Proof.
  unfold rate_sizes. to_loops.
  rewrite !(proj1 (slice_loop_length _ _ _ _ _ _ _)),
          !(proj2 (slice_loop_length _ _ _ _ _ _ _)).
  reflexivity.
Qed.

Lemma getLower_rate_sizes s env :
  rate_sizes (snd (getLowerEncodersSpeedAndAcceleration s env)) = rate_sizes s.
Proof.
  unfold rate_sizes. to_loops.
  rewrite !(proj1 (slice_loop_length _ _ _ _ _ _ _)),
          !(proj2 (slice_loop_length _ _ _ _ _ _ _)).
  reflexivity.
Qed.

Lemma readAndUpdate_rate_sizes s env i :
  rate_sizes (snd (readAndUpdate s env false i)) = rate_sizes s.
Proof.
  unfold readAndUpdate, bindR, retR. cbv beta iota zeta.
  pose proof (read_ports_frame s env) as H1.
  set (s1 := read_ports s env false) in *.
  pose proof (read_timing_frame s1 env) as H2.
  set (s2 := read_timing s1 env) in *.
  pose proof (read_inertial_frame s2 env) as H3.
  set (s3 := read_inertial s2 env) in *.
  pose proof (getUpper_rate_sizes s3 env) as H4.
  destruct (getUpperEncodersSpeedAndAcceleration s3 env) as [r4 s4]. cbn [snd] in H4.
  pose proof (setUpperMeasure_frame s4 i) as H5.
  set (s5 := setUpperMeasure s4 i) in *.
  pose proof (getLower_rate_sizes s5 env) as H6.
  destruct (getLowerEncodersSpeedAndAcceleration s5 env) as [r6 s6]. cbn [snd] in H6.
  pose proof (setLowerMeasure_frame s6 i) as H7. cbn [snd].
  rewrite (rate_sizes_joints s6) by (open_frames; congruence).
  rewrite H6. rewrite (rate_sizes_joints s4) by (open_frames; congruence).
  rewrite H4. apply rate_sizes_joints. open_frames. congruence.
Qed.

Lemma run_read_rate_sizes s env : rate_sizes (run_read s env) = rate_sizes s.
Proof.
  rewrite run_read_eq. cbv zeta.
  transitivity (rate_sizes (snd (readAndUpdate (run_enter s env) env false false))).
  - destruct (negb _); [|reflexivity]. apply rate_sizes_joints.
    apply (sb_joints _ _ _ _ _ _ _ _ _ _ _ _ _ _ (set_thread_status_frame _ _)). reflexivity.
  - rewrite readAndUpdate_rate_sizes. apply rate_sizes_joints.
    apply (sb_joints _ _ _ _ _ _ _ _ _ _ _ _ _ _ (run_enter_frame s env)). reflexivity.
Qed.

Lemma setUpperMeasure_icub s :
  icub (setUpperMeasure s false)
  = set_upperTorso (upper_measure (upperTorso (icub s)) s) (icub s).
Proof. unfold setUpperMeasure. cbn [negb]. cbv zeta. flags; reflexivity. Qed.

Lemma setLowerMeasure_icub s :
  icub (setLowerMeasure s false)
  = set_lowerTorso (lower_measure (lowerTorso (icub s)) s) (icub s).
Proof. unfold setLowerMeasure. cbn [negb]. cbv zeta. flags; reflexivity. Qed.

Lemma lower_measure_joints n a b : joints a = joints b -> lower_measure n a = lower_measure n b.
Proof.
  intros H. unfold lower_measure, q_torso, dq_torso, d2q_torso, q_lleg, dq_lleg,
    d2q_lleg, q_rleg, dq_rleg, d2q_rleg. rewrite H. reflexivity.
Qed.

(** What the second [setUpperMeasure] and [setLowerMeasure] of a period put
    in the model. *)
Lemma run_zero_icub s :
  icub (run_zero s)
  = {| upperTorso := upper_measure (upperTorso (icub s)) (setZeroJntAngVelAcc s);
       lowerTorso := lower_measure (lowerTorso (icub s)) (setZeroJntAngVelAcc s) |}.
Proof.
  unfold run_zero. cbv zeta.
  assert (Ez : icub (setZeroJntAngVelAcc s) = icub s) by reflexivity.
  set (z := setZeroJntAngVelAcc s) in *.
  pose proof (setUpperMeasure_frame z false) as Hu.
  pose proof (setUpperMeasure_icub z) as Eu.
  set (u := setUpperMeasure z false) in *.
  rewrite setLowerMeasure_icub, Eu, Ez.
  rewrite (lower_measure_joints _ u z) by (open_frames; congruence).
  reflexivity.
Qed.

Lemma upper_measure_rates n s :
  DAng (limb_up (upper_measure n s)) = vscale CTRL_DEG2RAD (dq_head s)
  /\ D2Ang (limb_up (upper_measure n s)) = vscale CTRL_DEG2RAD (d2q_head s)
  /\ DAng (limb_left (upper_measure n s)) = vscale CTRL_DEG2RAD (dq_larm s)
  /\ D2Ang (limb_left (upper_measure n s)) = vscale CTRL_DEG2RAD (d2q_larm s)
  /\ DAng (limb_right (upper_measure n s)) = vscale CTRL_DEG2RAD (dq_rarm s)
  /\ D2Ang (limb_right (upper_measure n s)) = vscale CTRL_DEG2RAD (d2q_rarm s).
Proof. repeat split; reflexivity. Qed.

Lemma lower_measure_rates n s :
  DAng (limb_up (lower_measure n s)) = vscale CTRL_DEG2RAD (dq_torso s)
  /\ D2Ang (limb_up (lower_measure n s)) = vscale CTRL_DEG2RAD (d2q_torso s)
  /\ DAng (limb_left (lower_measure n s)) = vscale CTRL_DEG2RAD (dq_lleg s)
  /\ D2Ang (limb_left (lower_measure n s)) = vscale CTRL_DEG2RAD (d2q_lleg s)
  /\ DAng (limb_right (lower_measure n s)) = vscale CTRL_DEG2RAD (dq_rleg s)
  /\ D2Ang (limb_right (lower_measure n s)) = vscale CTRL_DEG2RAD (d2q_rleg s).
Proof. repeat split; reflexivity. Qed.

Lemma zeroed_rates s :
  dq_head (setZeroJntAngVelAcc s) = vzeros (length (dq_head s))
  /\ d2q_head (setZeroJntAngVelAcc s) = vzeros (length (d2q_head s))
  /\ dq_larm (setZeroJntAngVelAcc s) = vzeros (length (dq_larm s))
  /\ d2q_larm (setZeroJntAngVelAcc s) = vzeros (length (d2q_larm s))
  /\ dq_rarm (setZeroJntAngVelAcc s) = vzeros (length (dq_rarm s))
  /\ d2q_rarm (setZeroJntAngVelAcc s) = vzeros (length (d2q_rarm s))
  /\ dq_torso (setZeroJntAngVelAcc s) = vzeros (length (dq_torso s))
  /\ d2q_torso (setZeroJntAngVelAcc s) = vzeros (length (d2q_torso s))
  /\ dq_lleg (setZeroJntAngVelAcc s) = vzeros (length (dq_lleg s))
  /\ d2q_lleg (setZeroJntAngVelAcc s) = vzeros (length (d2q_lleg s))
  /\ dq_rleg (setZeroJntAngVelAcc s) = vzeros (length (dq_rleg s))
  /\ d2q_rleg (setZeroJntAngVelAcc s) = vzeros (length (d2q_rleg s)).
Proof. repeat split; rewrite <- vfill_zeros; reflexivity. Qed.

Lemma zeroed_rates_sized a b :
  rate_sizes a = rate_sizes b ->
  dq_head (setZeroJntAngVelAcc a) = vzeros (length (dq_head b))
  /\ d2q_head (setZeroJntAngVelAcc a) = vzeros (length (d2q_head b))
  /\ dq_larm (setZeroJntAngVelAcc a) = vzeros (length (dq_larm b))
  /\ d2q_larm (setZeroJntAngVelAcc a) = vzeros (length (d2q_larm b))
  /\ dq_rarm (setZeroJntAngVelAcc a) = vzeros (length (dq_rarm b))
  /\ d2q_rarm (setZeroJntAngVelAcc a) = vzeros (length (d2q_rarm b))
  /\ dq_torso (setZeroJntAngVelAcc a) = vzeros (length (dq_torso b))
  /\ d2q_torso (setZeroJntAngVelAcc a) = vzeros (length (d2q_torso b))
  /\ dq_lleg (setZeroJntAngVelAcc a) = vzeros (length (dq_lleg b))
  /\ d2q_lleg (setZeroJntAngVelAcc a) = vzeros (length (d2q_lleg b))
  /\ dq_rleg (setZeroJntAngVelAcc a) = vzeros (length (dq_rleg b))
  /\ d2q_rleg (setZeroJntAngVelAcc a) = vzeros (length (d2q_rleg b)).
Proof.
  intros H. unfold rate_sizes in H.
  injection H as S1 S2 S3 S4 S5 S6 S7 S8 S9 S10 S11 S12.
  rewrite <- S1, <- S2, <- S3, <- S4, <- S5, <- S6, <- S7, <- S8, <- S9, <- S10,
          <- S11, <- S12.
  apply zeroed_rates.
Qed.

(** The statement of C2 for any object whose model was filled from cleared
    vectors and then evaluated. *)
Lemma zero_rates_core (nu nl : iDynNode) (z b i : inverseDynamics)
    (n1 n2 n3 n4 n5 n6 n7 n8 n9 n10 n11 n12 : nat) :
  dq_head z = vzeros n1 /\ d2q_head z = vzeros n2
  /\ dq_larm z = vzeros n3 /\ d2q_larm z = vzeros n4
  /\ dq_rarm z = vzeros n5 /\ d2q_rarm z = vzeros n6
  /\ dq_torso z = vzeros n7 /\ d2q_torso z = vzeros n8
  /\ dq_lleg z = vzeros n9 /\ d2q_lleg z = vzeros n10
  /\ dq_rleg z = vzeros n11 /\ d2q_rleg z = vzeros n12 ->
  icub b = {| upperTorso := upper_measure nu z; lowerTorso := lower_measure nl z |} ->
  (let U := update (upperTorso (icub b)) (w0 b) (dw0 b) (d2p0 b)
              (F_RArm b) (F_LArm b) (vzeros 6) in
   icub i = {| upperTorso := U;
               lowerTorso := update (lowerTorso (icub b)) (getTorsoAngVel U)
                               (getTorsoAngAcc U) (getTorsoLinAcc U)
                               (F_RLeg b) (F_LLeg b) (vzeros 6) |}) ->
  fts i = fts b ->
  let U := upperTorso (icub i) in
  let L := lowerTorso (icub i) in
  zero_rates n1 n2 (limb_up U)
  /\ zero_rates n3 n4 (limb_left U)
  /\ zero_rates n5 n6 (limb_right U)
  /\ zero_rates n7 n8 (limb_up L)
  /\ zero_rates n9 n10 (limb_left L)
  /\ zero_rates n11 n12 (limb_right L)
  /\ out U = solve_update (kind U) (limb_up U) (limb_left U) (limb_right U)
               (meas_w U) (meas_dw U) (meas_d2p U) (F_RArm i) (F_LArm i) (vzeros 6)
  /\ out L = solve_update (kind L) (limb_up L) (limb_left L) (limb_right L)
               (meas_w L) (meas_dw L) (meas_d2p L) (F_RLeg i) (F_LLeg i) (vzeros 6).
Proof.
  intros (Z1 & Z2 & Z3 & Z4 & Z5 & Z6 & Z7 & Z8 & Z9 & Z10 & Z11 & Z12) Eb Ei Ef.
  cbv zeta in *. unfold F_RArm, F_LArm, F_RLeg, F_LLeg in *.
  rewrite Ei, Ef, Eb. cbn [upperTorso lowerTorso].
  destruct (upper_measure_rates nu z) as (U1 & U2 & U3 & U4 & U5 & U6).
  destruct (lower_measure_rates nl z) as (L1 & L2 & L3 & L4 & L5 & L6).
  unfold zero_rates.
  repeat match goal with
  | |- context [update ?n ?w ?dw ?d2p ?a ?b ?c] =>
      let H := fresh "Hu" in
      pose proof (update_node n w dw d2p a b c) as H; cbv zeta in H;
      destruct H as (? & ? & ? & ? & ? & ? & ? & ?);
      generalize dependent (update n w dw d2p a b c); intros
  end.
  repeat split; congruence.
Qed.

(** C2, as the code has it. The joint velocities and accelerations the
    model holds when it is evaluated are zero for every joint of the six
    groups: [run] clears the values the estimators derived and hands the
    cleared vectors to the model before the evaluation.  Nothing of an
    earlier period is in them either. *)
Theorem model_evaluated_at_zero_rates s env :
  let s' := run s env in
  let U := upperTorso (icub s') in
  let L := lowerTorso (icub s') in
  zero_rates (length (dq_head s)) (length (d2q_head s)) (limb_up U)
  /\ zero_rates (length (dq_larm s)) (length (d2q_larm s)) (limb_left U)
  /\ zero_rates (length (dq_rarm s)) (length (d2q_rarm s)) (limb_right U)
  /\ zero_rates (length (dq_torso s)) (length (d2q_torso s)) (limb_up L)
  /\ zero_rates (length (dq_lleg s)) (length (d2q_lleg s)) (limb_left L)
  /\ zero_rates (length (dq_rleg s)) (length (d2q_rleg s)) (limb_right L)
  /\ out U = solve_update (kind U) (limb_up U) (limb_left U) (limb_right U)
               (meas_w U) (meas_dw U) (meas_d2p U) (F_RArm s') (F_LArm s') (vzeros 6)
  /\ out L = solve_update (kind L) (limb_up L) (limb_left L) (limb_right L)
               (meas_w L) (meas_dw L) (meas_d2p L) (F_RLeg s') (F_LLeg s') (vzeros 6).
Proof.
  destruct (run_icub s env) as (Ei & _ & Ef).
  assert (Eb : icub (before_dynamics s env) = icub (run_zero (run_read s env))).
  { unfold before_dynamics.
    apply (sb_icub _ _ _ _ _ _ _ _ _ _ _ _ _ _ (run_wrench_frame _)). reflexivity. }
  rewrite run_zero_icub in Eb.
  exact (zero_rates_core _ _ _ _ _ _ _ _ _ _ _ _ _ _ _ _ _
           (zeroed_rates_sized (run_read s env) s (run_read_rate_sizes s env))
           Eb Ei Ef).
Qed.

(** *** The two readers of the encoders *)

Lemma vget_nat (v : Vector) (i : nat) : vget v (Z.of_nat i) = v !!! i.
Proof.
  unfold vget. destruct (Z.ltb_spec (Z.of_nat i) 0); [lia|]. rewrite Nat2Z.id. reflexivity.
Qed.

Lemma vget_mirror (v : Vector) (i : nat) :
  (i <= 2)%nat -> vget v (2 - Z.of_nat i) = v !!! (2 - i)%nat.
Proof.
  intros Hi. unfold vget. destruct (Z.ltb_spec (2 - Z.of_nat i) 0); [lia|].
  f_equal. lia.
Qed.

(** The copying loop, element by element. *)
Lemma read_loop_lookup src off : forall n i (qv allv : Vector),
  (i + n <= length qv)%nat -> (off + i + n <= length allv)%nat ->
  let r := read_loop src off i n qv allv in
  length (fst r) = length qv /\ length (snd r) = length allv
  /\ (forall k, fst r !!! k = if decide (i <= k < i + n)%nat then src k else qv !!! k)
  /\ (forall k, snd r !!! k
                = if decide (off + i <= k < off + i + n)%nat
                  then src (k - off)%nat else allv !!! k).
Proof.
  induction n as [|n IH]; intros i qv allv Hq Ha; cbv zeta; cbn [read_loop].
  - cbn [fst snd]. split; [reflexivity|]. split; [reflexivity|].
    split; intros k; destruct (decide _); [lia|reflexivity|lia|reflexivity].
  - cbv zeta.
    assert (Hsrc : <[i:=src i]> qv !!! i = src i)
      by (apply list_lookup_total_insert_eq; lia).
    rewrite Hsrc.
    specialize (IH (S i) (<[i:=src i]> qv) (<[(off + i)%nat:=src i]> allv)).
    rewrite !length_insert in IH.
    destruct (IH ltac:(lia) ltac:(lia)) as (L1 & L2 & F1 & F2).
    split; [exact L1|]. split; [exact L2|]. split; intros k.
    + rewrite F1. destruct (decide (S i <= k < S i + n)%nat), (decide (i <= k < i + S n)%nat);
        try lia; try reflexivity.
      * destruct (decide (k = i)) as [->|Hne].
        -- apply list_lookup_total_insert_eq. lia.
        -- lia.
      * apply list_lookup_total_insert_ne. lia.
    + rewrite F2.
      destruct (decide (off + S i <= k < off + S i + n)%nat),
               (decide (off + i <= k < off + i + S n)%nat); try lia; try reflexivity.
      * destruct (decide (k = off + i)%nat) as [->|Hne].
        -- rewrite list_lookup_total_insert_eq by lia. f_equal. lia.
        -- lia.
      * apply list_lookup_total_insert_ne. lia.
Qed.

(** The vectors of the lower groups after the reader, loop by loop. *)
Lemma getLower_positions s env :
  let lo := snd (getLowerEncodersSpeedAndAcceleration s env) in
  let nt := length (q_torso s) in
  let nl := length (q_lleg s) in
  let nr := length (q_rleg s) in
  let r1 := read_loop (fun i => vget (encoders_torso lo) (2 - Z.of_nat i)) 0 0 nt
              (q_torso s) (all_q_low s) in
  let r2 := read_loop (fun i => vget (encoders_leg_left lo) (Z.of_nat i)) nt 0 nl
              (q_lleg s) (snd r1) in
  let r3 := read_loop (fun i => vget (encoders_leg_right lo) (Z.of_nat i)) (nt + nl) 0 nr
              (q_rleg s) (snd r2) in
  q_torso lo = fst r1 /\ q_lleg lo = fst r2 /\ q_rleg lo = fst r3
  /\ all_q_low lo = snd r3.
Proof. cbv zeta. repeat split; to_loops; reflexivity. Qed.

Lemma getUpper_positions s env :
  let hi := snd (getUpperEncodersSpeedAndAcceleration s env) in
  let nh := length (q_head s) in
  let nl := length (q_larm s) in
  let nr := length (q_rarm s) in
  let r1 := read_loop (fun i => vget (encoders_head hi) (Z.of_nat i)) 0 0 nh
              (q_head s) (all_q_up s) in
  let r2 := read_loop (fun i => vget (encoders_arm_left hi) (Z.of_nat i)) nh 0 nl
              (q_larm s) (snd r1) in
  let r3 := read_loop (fun i => vget (encoders_arm_right hi) (Z.of_nat i)) (nh + nl) 0 nr
              (q_rarm s) (snd r2) in
  q_head hi = fst r1 /\ q_larm hi = fst r2 /\ q_rarm hi = fst r3
  /\ all_q_up hi = snd r3.
Proof. cbv zeta. repeat split; to_loops; reflexivity. Qed.


(** Three copying loops in a row into one concatenated vector. *)
Lemma three_loops (f1 f2 f3 : nat -> Q) (q1 q2 q3 A : Vector) :
  (length q1 + length q2 + length q3 <= length A)%nat ->
  let n1 := length q1 in
  let n2 := length q2 in
  let r1 := read_loop f1 0 0 n1 q1 A in
  let r2 := read_loop f2 n1 0 n2 q2 (snd r1) in
  let r3 := read_loop f3 (n1 + n2) 0 (length q3) q3 (snd r2) in
  (length (fst r1) = n1 /\ length (fst r2) = n2 /\ length (fst r3) = length q3)
  /\ (forall i, (i < n1)%nat ->
        fst r1 !!! i = f1 i /\ snd r3 !!! i = fst r1 !!! i)
  /\ (forall i, (i < n2)%nat ->
        fst r2 !!! i = f2 i /\ snd r3 !!! (n1 + i)%nat = fst r2 !!! i)
  /\ (forall i, (i < length q3)%nat ->
        fst r3 !!! i = f3 i /\ snd r3 !!! (n1 + n2 + i)%nat = fst r3 !!! i).
Proof.
  intros HA. cbv zeta.
  destruct (read_loop_lookup f1 0 (length q1) 0 q1 A ltac:(lia) ltac:(lia))
    as (L1 & M1 & F1 & G1). cbv zeta in *.
  set (r1 := read_loop f1 0 0 (length q1) q1 A) in *.
  destruct (read_loop_lookup f2 (length q1) (length q2) 0 q2 (snd r1)
              ltac:(lia) ltac:(lia)) as (L2 & M2 & F2 & G2). cbv zeta in *.
  set (r2 := read_loop f2 (length q1) 0 (length q2) q2 (snd r1)) in *.
  destruct (read_loop_lookup f3 (length q1 + length q2) (length q3) 0 q3 (snd r2)
              ltac:(lia) ltac:(lia)) as (L3 & M3 & F3 & G3). cbv zeta in *.
  set (r3 := read_loop f3 (length q1 + length q2) 0 (length q3) q3 (snd r2)) in *.
  split; [auto|]. split; [|split]; intros i Hi.
  - rewrite F1, G3, G2, G1.
    repeat (destruct (decide _); try lia). split; [reflexivity|]. f_equal. lia.
  - rewrite F2, G3, G2.
    repeat (destruct (decide _); try lia). split; [reflexivity|]. f_equal. lia.
  - rewrite F3, G3.
    repeat (destruct (decide _); try lia). split; [reflexivity|]. f_equal. lia.
Qed.

(** The constructor gives the sizes the loops rely on, for boards with
    enough axes. *)
Lemma sized_new (jal jar jh jll jlr jt : nat) :
  (7 <= jal)%nat -> (7 <= jar)%nat -> (3 <= jh)%nat ->
  (7 <= jll)%nat -> (7 <= jlr)%nat -> (3 <= jt)%nat ->
  sized (inverseDynamics_new jal jar jh jll jlr jt).
Proof.
  intros. constructor;
    lazy -[replicate Nat.add length Nat.le];
    rewrite ?length_replicate; lia.
Qed.

Lemma offsets_new l (jal jar jh jll jlr jt : nat) :
  length (Offset_of l (inverseDynamics_new jal jar jh jll jlr jt)) = 6%nat.
Proof. destruct l; reflexivity. Qed.

(** C10. After the two readers, with the sizes of the constructor: the
    torso positions are the torso encoders in reverse, [q_torso(i) =
    encoders_torso(2-i)]; the positions of the head, of the arms and of the
    legs are their encoders in the same order; and each concatenated vector
    carries the three groups one after the other (torso, left leg, right
    leg; head, left arm, right arm). *)
Theorem torso_reversed_others_in_order s env :
  sized s ->
  let lo := snd (getLowerEncodersSpeedAndAcceleration s env) in
  let hi := snd (getUpperEncodersSpeedAndAcceleration s env) in
  (length (q_torso lo) = 3 /\ length (q_lleg lo) = 7 /\ length (q_rleg lo) = 7
   /\ length (q_head hi) = 3 /\ length (q_larm hi) = 7 /\ length (q_rarm hi) = 7)%nat
  /\ (forall i, (i < 3)%nat ->
        q_torso lo !!! i = encoders_torso lo !!! (2 - i)%nat
        /\ all_q_low lo !!! i = q_torso lo !!! i)
  /\ (forall i, (i < 7)%nat ->
        q_lleg lo !!! i = encoders_leg_left lo !!! i
        /\ all_q_low lo !!! (3 + i)%nat = q_lleg lo !!! i)
  /\ (forall i, (i < 7)%nat ->
        q_rleg lo !!! i = encoders_leg_right lo !!! i
        /\ all_q_low lo !!! (10 + i)%nat = q_rleg lo !!! i)
  /\ (forall i, (i < 3)%nat ->
        q_head hi !!! i = encoders_head hi !!! i
        /\ all_q_up hi !!! i = q_head hi !!! i)
  /\ (forall i, (i < 7)%nat ->
        q_larm hi !!! i = encoders_arm_left hi !!! i
        /\ all_q_up hi !!! (3 + i)%nat = q_larm hi !!! i)
  /\ (forall i, (i < 7)%nat ->
        q_rarm hi !!! i = encoders_arm_right hi !!! i
        /\ all_q_up hi !!! (10 + i)%nat = q_rarm hi !!! i).
Proof.
  intros Hs. cbv zeta.
  destruct (getLower_positions s env) as (T1 & T2 & T3 & T4).
  destruct (getUpper_positions s env) as (H1 & H2 & H3 & H4).
  cbv zeta in *.
  generalize dependent (snd (getLowerEncodersSpeedAndAcceleration s env)).
  generalize dependent (snd (getUpperEncodersSpeedAndAcceleration s env)).
  intros hi H1 H2 H3 H4 lo T1 T2 T3 T4.
  destruct Hs as [Sh Sla Sra St Sll Srl Sup Slow _ _ _ _ _ _].
  pose proof (three_loops
                (fun i => vget (encoders_torso lo) (2 - Z.of_nat i))
                (fun i => vget (encoders_leg_left lo) (Z.of_nat i))
                (fun i => vget (encoders_leg_right lo) (Z.of_nat i))
                (q_torso s) (q_lleg s) (q_rleg s) (all_q_low s) ltac:(lia)) as Lo.
  pose proof (three_loops
                (fun i => vget (encoders_head hi) (Z.of_nat i))
                (fun i => vget (encoders_arm_left hi) (Z.of_nat i))
                (fun i => vget (encoders_arm_right hi) (Z.of_nat i))
                (q_head s) (q_larm s) (q_rarm s) (all_q_up s) ltac:(lia)) as Hi.
  cbv zeta in Lo, Hi.
  rewrite <- T1, <- T2, <- T3, <- T4 in Lo. rewrite <- H1, <- H2, <- H3, <- H4 in Hi.
  rewrite St, Sll, Srl in Lo. rewrite Sh, Sla, Sra in Hi.
  destruct Lo as ((A1 & A2 & A3) & Lt & Ll & Lr).
  destruct Hi as ((B1 & B2 & B3) & Uh & Ul & Ur).
  split; [repeat split; assumption|].
  split; [|split; [|split; [|split; [|split]]]]; intros i Hi.
  - destruct (Lt i Hi) as [E1 E2]. split; [rewrite E1; apply vget_mirror; lia | exact E2].
  - destruct (Ll i Hi) as [E1 E2]. split; [rewrite E1; apply vget_nat | exact E2].
  - destruct (Lr i Hi) as [E1 E2]. change (3 + 7 + i)%nat with (10 + i)%nat in E2.
    split; [rewrite E1; apply vget_nat | exact E2].
  - destruct (Uh i Hi) as [E1 E2]. split; [rewrite E1; apply vget_nat | exact E2].
  - destruct (Ul i Hi) as [E1 E2]. split; [rewrite E1; apply vget_nat | exact E2].
  - destruct (Ur i Hi) as [E1 E2]. change (3 + 7 + i)%nat with (10 + i)%nat in E2.
    split; [rewrite E1; apply vget_nat | exact E2].
Qed.

(** *** Calibration *)

Lemma calibrate_predict_eq s env :
  trial_predicted s env =
  let r := snd (readAndUpdate s env false true) in
  let w := sensor_wrenches r in
  set_F_iDyn_RLeg (vscale (-1) (getCol (snd (fst w)) 0))
    (set_F_iDyn_LLeg (vscale (-1) (getCol (snd (fst w)) 1))
       (set_F_iDyn_RArm (vscale (-1) (getCol (fst (fst w)) 0))
          (set_F_iDyn_LArm (vscale (-1) (getCol (fst (fst w)) 1)) (snd w)))).
Proof.
  unfold trial_predicted, trial_read, calibrate_predict.
  generalize (snd (readAndUpdate s env false true)). intros r.
  cbv zeta. destruct (sensor_wrenches r) as [[mu ml] x]. reflexivity.
Qed.

(** With reads that wait, [readAndUpdate] returns when every port holds a
    message, and then as the call that does not wait. *)
Lemma read_ports_wait s env :
  read_ports s env true
  = if arrives env then Some (read_ports s env false) else None.
Proof.
  unfold read_ports, arrives, bindR, retR, read.
  destruct (rd_ft_arm_left (ports env)), (rd_ft_arm_right (ports env)),
    (rd_ft_leg_left (ports env)), (rd_ft_leg_right (ports env)),
    (rd_inertial (ports env)); reflexivity.
Qed.

Lemma readAndUpdate_wait s env i :
  readAndUpdate s env true i
  = if arrives env then Some (readAndUpdate s env false i) else None.
Proof.
  unfold readAndUpdate. cbv zeta. rewrite read_ports_wait.
  destruct (arrives env); [|reflexivity].
  unfold bindR, retR. cbv beta iota.
  generalize (read_ports s env false). intros s1.
  destruct (getUpperEncodersSpeedAndAcceleration _ env) as [r1 s2].
  destruct (getLowerEncodersSpeedAndAcceleration _ env) as [r2 s3]. reflexivity.
Qed.

Lemma arrives_ports env :
  arrives env = true
  <-> (forall l, rd_of l env <> None) /\ rd_inertial (ports env) <> None.
Proof.
  unfold arrives, rd_of. split.
  - intros H. apply andb_prop in H as [H H5]. apply andb_prop in H as [H H4].
    apply andb_prop in H as [H H3]. apply andb_prop in H as [H1 H2].
    split.
    + intros l. destruct l;
        [destruct (rd_ft_arm_left (ports env)) | destruct (rd_ft_arm_right (ports env))
        | destruct (rd_ft_leg_left (ports env)) | destruct (rd_ft_leg_right (ports env))];
        first [discriminate | intros _; discriminate].
    + destruct (rd_inertial (ports env)); [discriminate | discriminate H5].
  - intros [H H5].
    pose proof (H LArm) as H1. pose proof (H RArm) as H2.
    pose proof (H LLeg) as H3. pose proof (H RLeg) as H4. cbn in H1, H2, H3, H4.
    destruct (rd_ft_arm_left (ports env)), (rd_ft_arm_right (ports env)),
      (rd_ft_leg_left (ports env)), (rd_ft_leg_right (ports env)),
      (rd_inertial (ports env)); try reflexivity; contradiction.
Qed.

Lemma calibrate_trial_eq s env :
  calibrate_trial s env
  = if arrives env then calibrate_accumulate (trial_predicted s env) else None.
Proof.
  unfold calibrate_trial, trial_predicted, trial_read. rewrite readAndUpdate_wait.
  destruct (arrives env); [|reflexivity].
  destruct (readAndUpdate s env false true) as [b r]. reflexivity.
Qed.

Lemma set_F_iDyn_limb l a b c d x :
  let y := set_F_iDyn_RLeg a (set_F_iDyn_LLeg b (set_F_iDyn_RArm c (set_F_iDyn_LArm d x))) in
  ft_of l y = ft_of l x /\ Offset_of l y = Offset_of l x /\ F_of l y = F_of l x.
Proof. destruct l; repeat split; reflexivity. Qed.

(** After the first half of a trial the pointers hold what the ports
    delivered, and the offsets are untouched. *)
Lemma calibrate_predict_limb l s env :
  ft_of l (trial_predicted s env) = rd_of l env
  /\ Offset_of l (trial_predicted s env) = Offset_of l s.
Proof.
  rewrite calibrate_predict_eq. cbv zeta.
  pose proof (readAndUpdate_limb l s env true) as Hr.
  set (r := snd (readAndUpdate s env false true)) in *.
  pose proof (sensor_wrenches_frame r) as Hw.
  set (w := sensor_wrenches r) in *.
  match goal with
  | |- context [set_F_iDyn_RLeg ?a (set_F_iDyn_LLeg ?b (set_F_iDyn_RArm ?c
                  (set_F_iDyn_LArm ?d ?x)))] =>
      destruct (set_F_iDyn_limb l a b c d x) as (E1 & E2 & _)
  end.
  cbv zeta in E1, E2. rewrite E1, E2.
  assert (E : limb_of l (snd w) = limb_of l r) by (apply limb_of_fts; open_frames; congruence).
  unfold ft_of, Offset_of. rewrite E, Hr. split; reflexivity.
Qed.

(** The second half of a trial adds measured minus predicted to each
    offset. *)
Lemma calibrate_accumulate_some p (f : FTSensor -> Vector) :
  (forall l, ft_of l p = Some (f l)) ->
  exists s1, calibrate_accumulate p = Some s1
    /\ forall l, Offset_of l s1 = vadd (Offset_of l p) (vsub (f l) (F_iDyn_of l p)).
Proof.
  intros H.
  pose proof (H LArm) as H1. pose proof (H RArm) as H2.
  pose proof (H LLeg) as H3. pose proof (H RLeg) as H4.
  unfold calibrate_accumulate.
  destruct p as [j u lo [[fl Fl il ol] [fr Fr ir or] [fll Fll ill oll] [frl Frl irl orl]]
                  i e ic ics se st pf sn].
  cbn in H1, H2, H3, H4. subst fl fr fll frl.
  eexists. split; [reflexivity|]. intros l. destruct l; reflexivity.
Qed.


(** What [calibrate_predict] leaves as the predicted wrench of a sensor is
    what the model answers on the object it is given. *)
Lemma calibrate_predict_wrench l r :
  F_iDyn_of l (calibrate_predict r) = model_wrench l r.
Proof. destruct l; reflexivity. Qed.

Lemma delivers_arrives env : delivers env -> arrives env = true.
Proof.
  intros [H H5]. apply arrives_ports. split; [|exact H5].
  intros l. destruct (H l) as (f & -> & _). discriminate.
Qed.

(** The loop of [calibrateOffset]: with messages on every port in every
    trial, it ends, and each offset has grown by the sum over the trials of
    measured minus predicted. *)
Lemma calibrate_loop_sum envs : forall n i s,
  (forall t, (i <= t < i + n)%nat -> delivers (envs t)) ->
  (forall l, length (Offset_of l s) = 6%nat) ->
  Forall (fun r => forall l, length (model_wrench l r) = 6%nat) (trials envs i n s) ->
  exists s', calibrate_loop envs i n s = Some s'
    /\ forall l,
         length (Offset_of l s') = 6%nat
         /\ forall k, (k < 6)%nat ->
              Offset_of l s' !!! k
              == Offset_of l s !!! k
                 + Qsum (fun t => measured l envs (i + t) k
                                  - match trials envs i n s !! t with
                                    | Some r => model_wrench l r !!! k
                                    | None => 0
                                    end) n.
Proof.
  induction n as [|n IH]; intros i s Hd Hs Hp.
  - exists s. split; [reflexivity|]. intros l. split; [apply Hs|].
    intros k Hk. cbn [Qsum]. ring.
  - cbn [trials calibrate_loop] in *. cbv zeta in Hp.
    rewrite calibrate_trial_eq, (delivers_arrives _ (Hd i ltac:(lia))).
    pose proof (fun l => calibrate_predict_limb l s (envs i)) as Hlimb.
    unfold trial_predicted in *.
    pose proof (fun l => calibrate_predict_wrench l (trial_read s (envs i))) as Hw.
    set (r := trial_read s (envs i)) in *. clearbody r.
    set (p := calibrate_predict r) in *. clearbody p.
    apply Forall_cons in Hp as [Hp0 Hp].
    set (f := fun l => default [] (rd_of l (envs i))).
    assert (Hf : forall l, ft_of l p = Some (f l) /\ length (f l) = 6%nat).
    { intros l. destruct (Hlimb l) as [E _].
      destruct (proj1 (Hd i ltac:(lia)) l) as (v & Hv & Hlen).
      unfold f. rewrite E, Hv. split; [reflexivity | exact Hlen]. }
    destruct (calibrate_accumulate_some p f (fun l => proj1 (Hf l))) as (s1 & Hacc & Hoff).
    rewrite Hacc in *.
    assert (Hs1 : forall l, length (Offset_of l s1) = 6%nat).
    { intros l. rewrite Hoff. unfold vadd, vsub. rewrite !length_zip_with.
      rewrite (proj2 (Hlimb l)), Hs, (proj2 (Hf l)), Hw, Hp0. reflexivity. }
    destruct (IH (S i) s1 ltac:(intros t Ht; apply Hd; lia) Hs1 Hp) as (s' & Hloop & Hsum).
    exists s'. split; [exact Hloop|]. intros l. destruct (Hsum l) as [Hlen Hk].
    split; [exact Hlen|]. intros k Hk6. rewrite (Hk k Hk6), Qsum_first.
    rewrite Hoff.
    assert (L1 : length (Offset_of l p) = 6%nat) by (rewrite (proj2 (Hlimb l)); apply Hs).
    assert (L2 : length (vsub (f l) (F_iDyn_of l p)) = 6%nat).
    { unfold vsub. rewrite length_zip_with, (proj2 (Hf l)), Hw, Hp0. reflexivity. }
    rewrite vadd_lookup by lia.
    rewrite vsub_lookup by (rewrite ?(proj2 (Hf l)), ?Hw, ?Hp0; lia).
    rewrite (proj2 (Hlimb l)), Hw.
    change ((r :: trials envs (S i) n s1) !! 0%nat) with (Some r).
    replace (i + 0)%nat with i by lia.
    change (measured l envs i k) with (f l !!! k).
    assert (Hrest :
      Qsum (fun t => measured l envs (S i + t) k
                     - match trials envs (S i) n s1 !! t with
                       | Some r0 => model_wrench l r0 !!! k
                       | None => 0
                       end) n
      == Qsum (fun t => measured l envs (i + S t) k
                        - match (r :: trials envs (S i) n s1) !! S t with
                          | Some r0 => model_wrench l r0 !!! k
                          | None => 0
                          end) n).
    { apply Qsum_ext. intros t Ht.
      change ((r :: trials envs (S i) n s1) !! S t) with (trials envs (S i) n s1 !! t).
      replace (i + S t)%nat with (S i + t)%nat by lia. reflexivity. }
    rewrite Hrest. ring.
Qed.

Lemma calibrateOffset_eq s N envs :
  calibrateOffset s N envs
  = match calibrate_loop envs 0 N (offsets_zeroed s) with
    | Some s1 => Some (offsets_scaled N s1)
    | None => None
    end.
Proof. reflexivity. Qed.

Lemma offsets_zeroed_limb l s : Offset_of l (offsets_zeroed s) = vfill (Offset_of l s) 0.
Proof. destruct l; reflexivity. Qed.

Lemma offsets_scaled_limb l N s :
  Offset_of l (offsets_scaled N s) = vscale (1 / QofN N) (Offset_of l s).
Proof. destruct l; reflexivity. Qed.

(** C4. In exact arithmetic: with [Ntrials >= 1], a message on each of the
    five ports in every trial, six-axis frames and six-axis predictions,
    the calibration ends and leaves in each offset, axis by axis, the mean
    over the trials of measured minus predicted, the prediction being minus
    the column of the sensor in what [estimateSensorsWrench] answers in
    that trial; when measured and predicted are the same in every trial,
    the offset is their difference. *)
Theorem calibration_offset_is_mean s (Ntrials : nat) envs :
  (1 <= Ntrials)%nat ->
  (forall t, (t < Ntrials)%nat -> delivers (envs t)) ->
  (forall l, length (Offset_of l s) = 6%nat) ->
  Forall (fun r => forall l, length (model_wrench l r) = 6%nat)
    (trials envs 0 Ntrials (offsets_zeroed s)) ->
  exists s', calibrateOffset s Ntrials envs = Some s'
    /\ forall l,
         (forall k, (k < 6)%nat ->
            Offset_of l s' !!! k
            == Qsum (fun t => measured l envs t k - predicted l envs Ntrials s t k) Ntrials
               / QofN Ntrials)
         /\ (forall m p : Vector,
               length m = 6%nat -> length p = 6%nat ->
               (forall t k, (t < Ntrials)%nat -> (k < 6)%nat ->
                  measured l envs t k == m !!! k
                  /\ predicted l envs Ntrials s t k == p !!! k) ->
               veq (Offset_of l s') (vsub m p)).
Proof.
  intros HN Hd Hs Hp.
  assert (Hs0 : forall l, length (Offset_of l (offsets_zeroed s)) = 6%nat).
  { intros l. rewrite offsets_zeroed_limb. unfold vfill. rewrite length_fmap. apply Hs. }
  destruct (calibrate_loop_sum envs Ntrials 0 (offsets_zeroed s)
              ltac:(intros t Ht; apply Hd; lia) Hs0 Hp) as (s1 & Hloop & Hsum).
  rewrite calibrateOffset_eq, Hloop. eexists. split; [reflexivity|].
  pose proof (QofN_pos Ntrials HN) as Hpos.
  assert (Hmean : forall l k, (k < 6)%nat ->
    Offset_of l (offsets_scaled Ntrials s1) !!! k
    == Qsum (fun t => measured l envs t k - predicted l envs Ntrials s t k) Ntrials
       / QofN Ntrials).
  { intros l k Hk. destruct (Hsum l) as [Hlen Hval].
    rewrite offsets_scaled_limb, vscale_lookup by lia.
    rewrite (Hval k Hk), offsets_zeroed_limb, vfill_lookup by (rewrite Hs; lia).
    unfold predicted. cbn [Nat.add]. field. lra. }
  intros l. split; [apply Hmean|].
  intros m p Hm Hpl Hconst.
  assert (Hlen : length (Offset_of l (offsets_scaled Ntrials s1)) = 6%nat).
  { rewrite offsets_scaled_limb. unfold vscale. rewrite length_fmap. apply Hsum. }
  apply veq_pointwise.
  - unfold vsub. rewrite length_zip_with, Hlen, Hm, Hpl. reflexivity.
  - intros k Hk. rewrite Hlen in Hk. rewrite (Hmean l k Hk), vsub_lookup by lia.
    rewrite (Qsum_const _ (m !!! k - p !!! k)).
    + field. lra.
    + intros t Ht. destruct (Hconst t k Ht Hk) as [E1 E2]. rewrite E1, E2. reflexivity.
Qed.

(** *** The calibration as a whole, and what the periods keep *)

Lemma setUpperMeasure_init_frame s :
  same_but false false false false false false false true false false false false
    s (setUpperMeasure s true).
Proof. frame. Qed.

Lemma setLowerMeasure_init_frame s :
  same_but false false false false false false false true false false false false
    s (setLowerMeasure s true).
Proof. frame. Qed.

Lemma readAndUpdate_init_frame s env :
  same_but true true true true true true false true false false true false
    s (snd (readAndUpdate s env false true)).
Proof.
  unfold readAndUpdate, bindR, retR. cbv beta iota zeta.
  pose proof (read_ports_frame s env) as H1.
  set (s1 := read_ports s env false) in *.
  pose proof (read_timing_frame s1 env) as H2.
  set (s2 := read_timing s1 env) in *.
  pose proof (read_inertial_frame s2 env) as H3.
  set (s3 := read_inertial s2 env) in *.
  pose proof (getUpper_frame s3 env) as H4.
  destruct (getUpperEncodersSpeedAndAcceleration s3 env) as [r4 s4]. cbn [snd] in H4.
  pose proof (setUpperMeasure_init_frame s4) as H5.
  set (s5 := setUpperMeasure s4 true) in *.
  pose proof (getLower_frame s5 env) as H6.
  destruct (getLowerEncodersSpeedAndAcceleration s5 env) as [r6 s6]. cbn [snd] in H6.
  pose proof (setLowerMeasure_init_frame s6) as H7. cbn [snd].
  frames.
Qed.

Lemma set_F_iDyn_frame a b c d x :
  same_but false false false true false false false false false false false false
    x (set_F_iDyn_RLeg a (set_F_iDyn_LLeg b (set_F_iDyn_RArm c (set_F_iDyn_LArm d x)))).
Proof. frame. Qed.

Lemma calibrate_predict_frame s env :
  same_but true true true true true true false true false false true false
    s (trial_predicted s env).
Proof.
  rewrite calibrate_predict_eq. cbv zeta.
  pose proof (readAndUpdate_init_frame s env) as H1.
  set (r := snd (readAndUpdate s env false true)) in *.
  pose proof (sensor_wrenches_frame r) as H2.
  set (w := sensor_wrenches r) in *.
  match goal with
  | |- context [set_F_iDyn_RLeg ?a (set_F_iDyn_LLeg ?b (set_F_iDyn_RArm ?c
                  (set_F_iDyn_LArm ?d ?x)))] =>
      pose proof (set_F_iDyn_frame a b c d x) as H3
  end.
  frames.
Qed.

Lemma calibrate_predict_flags s env : flags_kept s (trial_predicted s env).
Proof.
  rewrite calibrate_predict_eq. cbv zeta.
  pose proof (readAndUpdate_flags s env true) as H1.
  set (r := snd (readAndUpdate s env false true)) in *.
  pose proof (sensor_wrenches_frame r) as H2.
  set (w := sensor_wrenches r) in *.
  match goal with
  | |- context [set_F_iDyn_RLeg ?a (set_F_iDyn_LLeg ?b (set_F_iDyn_RArm ?c
                  (set_F_iDyn_LArm ?d ?x)))] =>
      pose proof (set_F_iDyn_frame a b c d x) as H3
  end.
  eapply flags_kept_trans; [exact H1|].
  apply flags_kept_perf. open_frames. congruence.
Qed.

(** The second half of a trial. *)
Lemma calibrate_accumulate_spec p :
  match calibrate_accumulate p with
  | Some s1 =>
      same_but false false false true false false false false false false false false p s1
      /\ forall l, exists f, ft_of l p = Some f /\ ft_of l s1 = Some f /\ F_of l s1 = f
           /\ F_iDyn_of l s1 = F_iDyn_of l p
  | None => exists l, ft_of l p = None
  end.
Proof.
  unfold calibrate_accumulate.
  destruct p as [j u lo [[fl Fl il ol] [fr Fr ir or] [fll Fll ill oll] [frl Frl irl orl]]
                  i e ic ics se st pf sn].
  cbn [ft_arm_right ft_arm_left ft_leg_right ft_leg_left fts arm_left arm_right leg_left
       leg_right l_ft].
  destruct fr as [ra|]; [|exists RArm; reflexivity].
  destruct fl as [la|]; [|exists LArm; reflexivity].
  destruct frl as [rl|]; [|exists RLeg; reflexivity].
  destruct fll as [ll|]; [|exists LLeg; reflexivity].
  split; [frame|]. intros l. destruct l; eexists; repeat split; reflexivity.
Qed.

Lemma calibrate_trial_spec s env :
  match calibrate_trial s env with
  | Some s1 =>
      same_but true true true true true true false true false false true false s s1
      /\ flags_kept s s1
      /\ arrives env = true
      /\ forall l, exists f, rd_of l env = Some f /\ ft_of l s1 = Some f /\ F_of l s1 = f
  | None => arrives env = false
  end.
Proof.
  rewrite calibrate_trial_eq.
  destruct (arrives env) eqn:Ea; [|reflexivity].
  pose proof (calibrate_predict_frame s env) as H1.
  pose proof (calibrate_predict_flags s env) as F1.
  pose proof (fun l => proj1 (calibrate_predict_limb l s env)) as Hft.
  set (p := trial_predicted s env) in *. clearbody p.
  pose proof (calibrate_accumulate_spec p) as H2.
  destruct (calibrate_accumulate p) as [s1|].
  - destruct H2 as [H2 Hl]. split; [frames|]. split.
    + eapply flags_kept_trans; [exact F1|]. apply flags_kept_perf. open_frames. congruence.
    + split; [reflexivity|]. intros l. destruct (Hl l) as (f & E1 & E2 & E3 & _). exists f.
      rewrite <- Hft. auto.
  - destruct H2 as [l Hl]. exfalso. rewrite Hft in Hl.
    apply arrives_ports in Ea as [Ea _]. exact (Ea l Hl).
Qed.

Lemma same_but_refl_cal s :
  same_but true true true true true true false true false false true false s s.
Proof. frame. Qed.

Lemma calibrate_loop_spec envs : forall n i s,
  match calibrate_loop envs i n s with
  | Some s' =>
      same_but true true true true true true false true false false true false s s'
      /\ flags_kept s s'
      /\ (forall t, (i <= t < i + n)%nat -> arrives (envs t) = true)
      /\ (forall l, (0 < n)%nat ->
            exists f, rd_of l (envs (i + n - 1)%nat) = Some f
                      /\ ft_of l s' = Some f /\ F_of l s' = f)
  | None => exists t, (i <= t < i + n)%nat /\ arrives (envs t) = false
  end.
Proof.
  induction n as [|n IH]; intros i s; cbn [calibrate_loop].
  - split; [apply same_but_refl_cal|]. split; [apply flags_kept_refl|].
    split; [intros; lia | intros; lia].
  - pose proof (calibrate_trial_spec s (envs i)) as Ht.
    destruct (calibrate_trial s (envs i)) as [s1|].
    + destruct Ht as (H1 & F1 & A1 & L1). specialize (IH (S i) s1).
      destruct (calibrate_loop envs (S i) n s1) as [s'|] eqn:Eloop.
      * destruct IH as (H2 & F2 & D2 & L2). split; [frames|].
        split; [eapply flags_kept_trans; eassumption|]. split.
        -- intros t Ht. destruct (decide (t = i)) as [->|Hne].
           ++ exact A1.
           ++ apply D2. lia.
        -- intros l _. destruct n as [|n].
           ++ cbn [calibrate_loop] in Eloop. injection Eloop as <-.
              replace (i + 1 - 1)%nat with i by lia. apply L1.
           ++ destruct (L2 l ltac:(lia)) as (f & E1 & E2 & E3). exists f.
              replace (i + S (S n) - 1)%nat with (S i + S n - 1)%nat by lia. auto.
      * destruct IH as (t & Ht & Hl). exists t. split; [lia | exact Hl].
    + exists i. split; [lia | exact Ht].
Qed.

(** *** What a calibration leaves *)

Lemma offsets_zeroed_frame s :
  same_but false false false true false false false false false false false false
    s (offsets_zeroed s).
Proof. frame. Qed.

Lemma offsets_scaled_frame N s :
  same_but false false false true false false false false false false false false
    s (offsets_scaled N s).
Proof. frame. Qed.

Lemma offsets_scaled_wrench l N s :
  ft_of l (offsets_scaled N s) = ft_of l s /\ F_of l (offsets_scaled N s) = F_of l s.
Proof. destruct l; split; reflexivity. Qed.

Lemma calibrateOffset_spec s N envs :
  match calibrateOffset s N envs with
  | Some s' =>
      same_but true true true true true true false true false false true false s s'
      /\ flags_kept s s'
      /\ (forall t, (t < N)%nat -> arrives (envs t) = true)
      /\ (forall l, (0 < N)%nat ->
            exists f, rd_of l (envs (N - 1)%nat) = Some f
                      /\ ft_of l s' = Some f /\ F_of l s' = f)
  | None => exists t, (t < N)%nat /\ arrives (envs t) = false
  end.
Proof.
  rewrite calibrateOffset_eq.
  pose proof (offsets_zeroed_frame s) as H0.
  pose proof (calibrate_loop_spec envs N 0 (offsets_zeroed s)) as H1.
  set (z := offsets_zeroed s) in *. clearbody z.
  destruct (calibrate_loop envs 0 N z) as [s1|].
  - destruct H1 as (H1 & F1 & D1 & L1).
    pose proof (offsets_scaled_frame N s1) as H2.
    pose proof (fun l => offsets_scaled_wrench l N s1) as Hw.
    set (s' := offsets_scaled N s1) in *. clearbody s'.
    split; [frames|]. split.
    + apply flags_kept_trans with z; [apply flags_kept_perf; open_frames; congruence|].
      apply flags_kept_trans with s1; [exact F1|].
      apply flags_kept_perf; open_frames; congruence.
    + split; [intros t Ht; apply D1; lia|].
      intros l HN. destruct (L1 l HN) as (f & E1 & E2 & E3). exists f.
      destruct (Hw l) as [W1 W2].
      cbn [Nat.add] in E1. rewrite W1, W2. auto.
  - destruct H1 as (t & Ht & Hl). exists t. split; [lia | exact Hl].
Qed.

Lemma arrives_false env :
  arrives env = false
  <-> (exists l, rd_of l env = None) \/ rd_inertial (ports env) = None.
Proof.
  unfold arrives. split.
  - intros H.
    destruct (rd_ft_arm_left (ports env)) eqn:E1; [|left; exists LArm; exact E1].
    destruct (rd_ft_arm_right (ports env)) eqn:E2; [|left; exists RArm; exact E2].
    destruct (rd_ft_leg_left (ports env)) eqn:E3; [|left; exists LLeg; exact E3].
    destruct (rd_ft_leg_right (ports env)) eqn:E4; [|left; exists RLeg; exact E4].
    destruct (rd_inertial (ports env)); [discriminate H | right; reflexivity].
  - intros [[l Hl]|H].
    + destruct l; cbn [rd_of] in Hl; rewrite Hl; cbn; rewrite ?andb_false_r; reflexivity.
    + rewrite H. cbn. apply andb_false_r.
Qed.

(** X6. [calibrateOffset] returns exactly when every read of its
    [Ntrials] calls of [readAndUpdate(true, true)] is answered: it does not
    return if and only if some trial finds one of the four sensor ports or
    the inertial port without a message. *)
Theorem calibration_needs_every_frame s (Ntrials : nat) envs :
  calibrateOffset s Ntrials envs = None
  <-> exists t, (t < Ntrials)%nat
        /\ ((exists l, rd_of l (envs t) = None) \/ rd_inertial (ports (envs t)) = None).
Proof.
  pose proof (calibrateOffset_spec s Ntrials envs) as H.
  destruct (calibrateOffset s Ntrials envs) as [s'|].
  - destruct H as (_ & _ & D & _). split; [discriminate|].
    intros (t & Ht & Hl). exfalso. apply arrives_false in Hl.
    rewrite (D t Ht) in Hl. discriminate Hl.
  - split; [|reflexivity]. intros _. destruct H as (t & Ht & Hl).
    exists t. split; [exact Ht|]. apply arrives_false. exact Hl.
Qed.

Lemma threadInit_spec s envs :
  match threadInit s envs with
  | Some (b, s') =>
      b = true /\ thread_status s' = STATUS_OK
      /\ same_but true true true true true true false true false true true false s s'
      /\ flags_kept s s'
      /\ (forall t, (t < 10)%nat -> arrives (envs t) = true)
      /\ (forall l, exists f, rd_of l (envs 9%nat) = Some f
                               /\ ft_of l s' = Some f /\ F_of l s' = f)
  | None => exists t, (t < 10)%nat /\ arrives (envs t) = false
  end.
Proof.
  unfold threadInit.
  pose proof (calibrateOffset_spec s 10 envs) as H.
  destruct (calibrateOffset s 10 envs) as [s1|]; [|exact H].
  destruct H as (H1 & F1 & D1 & L1).
  pose proof (set_thread_status_frame STATUS_OK s1) as H2.
  assert (El : forall l, limb_of l (set_thread_status STATUS_OK s1) = limb_of l s1)
    by (intros l; apply limb_of_fts; reflexivity).
  assert (Ep : perf (set_thread_status STATUS_OK s1) = perf s1) by reflexivity.
  assert (Es : thread_status (set_thread_status STATUS_OK s1) = STATUS_OK) by reflexivity.
  set (s' := set_thread_status STATUS_OK s1) in *. clearbody s'.
  split; [reflexivity|]. split; [exact Es|]. split; [frames|]. split.
  - eapply flags_kept_trans; [exact F1|]. apply flags_kept_perf. exact Ep.
  - split; [exact D1|]. intros l. destruct (L1 l ltac:(lia)) as (f & E1 & E2 & E3).
    exists f. unfold ft_of, F_of in *. rewrite El. auto.
Qed.

(** X7. When every read of the ten calibration trials is answered, on the
    four sensor ports and on the inertial port, [threadInit] returns [true]
    and leaves the status [STATUS_OK], whatever the encoders did; it writes
    to no port and does not touch the model [icub] nor the two diagnostic
    flags. *)
Theorem threadInit_outcome s envs :
  (forall t l, (t < 10)%nat -> rd_of l (envs t) <> None) ->
  (forall t, (t < 10)%nat -> rd_inertial (ports (envs t)) <> None) ->
  exists s', threadInit s envs = Some (true, s')
    /\ getThreadStatus s' = STATUS_OK
    /\ sent s' = sent s
    /\ icub s' = icub s
    /\ test s' = test s /\ comp s' = comp s.
Proof.
  intros Hd Hi. pose proof (threadInit_spec s envs) as H.
  destruct (threadInit s envs) as [[b s']|].
  - destruct H as (-> & Hst & Hf & [F1 F2] & _). exists s'.
    split; [reflexivity|]. split; [exact Hst|].
    repeat split; try assumption; open_frames; congruence.
  - destruct H as (t & Ht & Hl). exfalso.
    apply arrives_false in Hl as [[l Hl]|Hl]; [exact (Hd t l Ht Hl) | exact (Hi t Ht Hl)].
Qed.

(** X8. After [calibrateOffset] the wrench [F_*] of every sensor is the
    raw frame read in the last trial, without offset and without the sign
    change [run] applies, and the port pointer holds that frame. *)
Theorem calibration_leaves_raw_frame s (Ntrials : nat) envs s' l :
  (1 <= Ntrials)%nat ->
  calibrateOffset s Ntrials envs = Some s' ->
  exists f, rd_of l (envs (Ntrials - 1)%nat) = Some f
    /\ ft_of l s' = Some f /\ F_of l s' = f.
Proof.
  intros HN E. pose proof (calibrateOffset_spec s Ntrials envs) as H. rewrite E in H.
  destruct H as (_ & _ & _ & L). apply L. lia.
Qed.

(** *** [run] with the two diagnostic flags off *)
Lemma run_flags s env : flags_kept s (run s env).
Proof.
  run_blocks s env.
  apply flags_kept_trans with s1; [exact Fread|].
  apply flags_kept_trans with s3; [apply flags_kept_perf; open_frames; congruence|].
  apply flags_kept_trans with s4; [exact Fdyn|].
  apply flags_kept_trans with s5; [apply flags_kept_perf; open_frames; congruence|].
  apply flags_kept_trans with s6; [exact Ftime|].
  apply flags_kept_perf; open_frames; congruence.
Qed.

Lemma run_timing_off s env : test s <> VOCAB_TEST -> run_timing s env = s.
Proof.
  intros H. unfold run_timing. destruct (Z.eqb_spec (test s) VOCAB_TEST); [contradiction|].
  reflexivity.
Qed.

Lemma run_compare_off s : comp s <> VOCAB_COMP -> run_compare s = s.
Proof.
  intros H. unfold run_compare. destruct (Z.eqb_spec (comp s) VOCAB_COMP); [contradiction|].
  reflexivity.
Qed.

Lemma run_plain s env :
  test s <> VOCAB_TEST -> comp s <> VOCAB_COMP ->
  sent (run s env) = sent s ++ four_messages (icub (run s env)).
Proof.
  intros Ht Hc.
  pose proof (run_publish_sent (run_dynamics (before_dynamics s env) env)) as E3.
  revert E3. run_blocks s env. intros E3.
  assert (T5 : test s5 = test s /\ comp s5 = comp s).
  { assert (F : flags_kept s s5).
    { apply flags_kept_trans with s1; [exact Fread|].
      apply flags_kept_trans with s3; [apply flags_kept_perf; open_frames; congruence|].
      apply flags_kept_trans with s4; [exact Fdyn|].
      apply flags_kept_perf; open_frames; congruence. }
    exact F. }
  destruct T5 as [T5 C5].
  assert (E6 : s6 = s5) by (apply run_timing_off; congruence).
  assert (E7 : s7 = s6) by (apply run_compare_off; rewrite E6; congruence).
  rewrite E7, E6, E3.
  assert (Es : sent s4 = sent s) by (open_frames; congruence).
  assert (Ei : icub s5 = icub s4) by (open_frames; congruence).
  rewrite Es, Ei. reflexivity.
Qed.

Lemma VOCAB_TEST_nonzero : 0%Z <> VOCAB_TEST.
Proof. intros H. vm_compute in H. discriminate H. Qed.

Lemma VOCAB_COMP_nonzero : 0%Z <> VOCAB_COMP.
Proof. intros H. vm_compute in H. discriminate H. Qed.

Lemma reaches_flags s0 s : reaches s0 s -> test s = test s0 /\ comp s = comp s0.
Proof.
  induction 1 as [envs s E | s env _ IH].
  - pose proof (threadInit_spec s0 envs) as H. rewrite E in H.
    destruct H as (_ & _ & _ & F & _). exact F.
  - destruct (run_flags s env) as [F1 F2]. destruct IH. split; congruence.
Qed.

Lemma reaches_sent s0 s :
  test s0 <> VOCAB_TEST -> comp s0 <> VOCAB_COMP -> reaches s0 s ->
  exists log, sent s = sent s0 ++ log
    /\ Forall (fun m => is_torque_port (fst m) = true) log.
Proof.
  intros Ht Hc. induction 1 as [envs s E | s env Hr IH].
  - pose proof (threadInit_spec s0 envs) as H. rewrite E in H.
    destruct H as (_ & _ & H & _).
    exists []. rewrite app_nil_r. split; [|constructor].
    open_frames. congruence.
  - destruct IH as (log & E & Hlog). destruct (reaches_flags s0 s Hr) as [F1 F2].
    rewrite run_plain by congruence.
    exists (log ++ four_messages (icub (run s env))). rewrite E, app_assoc.
    split; [reflexivity|]. apply Forall_app. split; [exact Hlog|].
    unfold four_messages. repeat constructor.
Qed.

Lemma new_flags jal jar jh jll jlr jt :
  test (inverseDynamics_new jal jar jh jll jlr jt) = 0%Z
  /\ comp (inverseDynamics_new jal jar jh jll jlr jt) = 0%Z
  /\ sent (inverseDynamics_new jal jar jh jll jlr jt) = [].
Proof. repeat split; reflexivity. Qed.

Lemma started_flags s : started s -> test s <> VOCAB_TEST /\ comp s <> VOCAB_COMP
  /\ test s <> VOCAB_COMP.
Proof.
  intros (jal & jar & jh & jll & jlr & jt & Hr).
  destruct (reaches_flags _ _ Hr) as [F1 F2].
  destruct (new_flags jal jar jh jll jlr jt) as (N1 & N2 & _).
  rewrite F1, F2, N1, N2.
  repeat split; intros H; vm_compute in H; discriminate H.
Qed.

(** X9. A thread that was constructed, initialised and run for any number
    of periods has written to the four torque ports only: the two diagnostic
    flags are zero from the constructor on and nothing sets them, so no
    period writes a timing or a comparison message, and each period writes
    exactly its four torque messages. *)
Theorem only_torque_messages s :
  started s ->
  Forall (fun m => is_torque_port (fst m) = true) (sent s)
  /\ forall env, published s env = four_messages (icub (run s env)).
Proof.
  intros Hs. destruct (started_flags s Hs) as (Ht & Hc & _). split.
  - destruct Hs as (jal & jar & jh & jll & jlr & jt & Hr).
    destruct (new_flags jal jar jh jll jlr jt) as (N1 & N2 & N3).
    destruct (reaches_sent _ s ltac:(rewrite N1; exact VOCAB_TEST_nonzero)
                ltac:(rewrite N2; exact VOCAB_COMP_nonzero) Hr) as (log & E & Hlog).
    rewrite E, N3. exact Hlog.
  - intros env. unfold published. rewrite run_plain by assumption.
    apply drop_app_length.
Qed.

(** *** The model on the sensor body during a period *)

Lemma setUpperMeasure_off s :
  test s <> VOCAB_COMP -> icub_sens (setUpperMeasure s false) = icub_sens s.
Proof.
  intros H. unfold setUpperMeasure. cbn [negb]. cbv zeta.
  change (test (set_icub _ s)) with (test s).
  destruct (Z.eqb_spec (test s) VOCAB_COMP); [contradiction|]. reflexivity.
Qed.

Lemma setLowerMeasure_off s :
  test s <> VOCAB_COMP -> icub_sens (setLowerMeasure s false) = icub_sens s.
Proof.
  intros H. unfold setLowerMeasure. cbn [negb]. cbv zeta.
  change (test (set_icub _ s)) with (test s).
  destruct (Z.eqb_spec (test s) VOCAB_COMP); [contradiction|]. reflexivity.
Qed.

Lemma readAndUpdate_off s env :
  test s <> VOCAB_COMP -> icub_sens (snd (readAndUpdate s env false false)) = icub_sens s.
Proof.
  intros Ht. unfold readAndUpdate, bindR, retR. cbv beta iota zeta.
  pose proof (read_ports_frame s env) as H1.
  set (s1 := read_ports s env false) in *.
  pose proof (read_timing_frame s1 env) as H2.
  pose proof (read_timing_flags s1 env) as F2.
  set (s2 := read_timing s1 env) in *.
  pose proof (read_inertial_frame s2 env) as H3.
  set (s3 := read_inertial s2 env) in *.
  pose proof (getUpper_frame s3 env) as H4.
  destruct (getUpperEncodersSpeedAndAcceleration s3 env) as [r4 s4]. cbn [snd] in H4.
  assert (T4 : test s4 = test s).
  { destruct F2 as [F2 _]. unfold test in *. open_frames. congruence. }
  pose proof (setUpperMeasure_frame s4 false) as H5.
  pose proof (setUpperMeasure_off s4 ltac:(congruence)) as E5.
  set (s5 := setUpperMeasure s4 false) in *.
  pose proof (getLower_frame s5 env) as H6.
  destruct (getLowerEncodersSpeedAndAcceleration s5 env) as [r6 s6]. cbn [snd] in H6.
  assert (T6 : test s6 = test s).
  { rewrite <- T4. unfold test. open_frames. congruence. }
  pose proof (setLowerMeasure_off s6 ltac:(congruence)) as E7. cbn [snd].
  rewrite E7. open_frames. congruence.
Qed.

Lemma run_read_off s env :
  test s <> VOCAB_COMP -> icub_sens (run_read s env) = icub_sens s.
Proof.
  intros Ht. rewrite run_read_eq. cbv zeta.
  pose proof (run_enter_frame s env) as H1.
  pose proof (run_enter_flags s env) as [F1 _].
  assert (Ht' : test (run_enter s env) <> VOCAB_COMP) by (rewrite F1; exact Ht).
  pose proof (readAndUpdate_off (run_enter s env) env Ht') as E.
  revert E. generalize (readAndUpdate (run_enter s env) env false false). intros r E.
  transitivity (icub_sens (snd r)); [|rewrite E; open_frames; congruence].
  destruct (negb (fst r)); reflexivity.
Qed.

Lemma run_zero_off s :
  test s <> VOCAB_COMP -> icub_sens (run_zero s) = icub_sens s.
Proof.
  intros Ht. unfold run_zero. cbv zeta.
  assert (Ez : icub_sens (setZeroJntAngVelAcc s) = icub_sens s) by reflexivity.
  assert (Tz : test (setZeroJntAngVelAcc s) = test s) by reflexivity.
  set (z := setZeroJntAngVelAcc s) in *. clearbody z.
  pose proof (setUpperMeasure_frame z false) as Hu.
  pose proof (setUpperMeasure_off z ltac:(congruence)) as Eu.
  set (u := setUpperMeasure z false) in *. clearbody u.
  rewrite setLowerMeasure_off.
  - congruence.
  - unfold test in *. open_frames. congruence.
Qed.

Lemma run_off s env :
  test s <> VOCAB_COMP -> comp s <> VOCAB_COMP ->
  icub_sens (run s env) = icub_sens s.
Proof.
  intros Ht Hc.
  pose proof (run_read_off s env Ht) as E1.
  pose proof (run_zero_off (run_read s env)) as E2.
  revert E1 E2. run_blocks s env. intros E1 E2.
  assert (T1 : test s1 = test s) by (destruct Fread; congruence).
  specialize (E2 ltac:(congruence)).
  assert (F6 : flags_kept s s6).
  { apply flags_kept_trans with s1; [exact Fread|].
    apply flags_kept_trans with s3; [apply flags_kept_perf; open_frames; congruence|].
    apply flags_kept_trans with s4; [exact Fdyn|].
    apply flags_kept_trans with s5; [apply flags_kept_perf; open_frames; congruence|].
    exact Ftime. }
  assert (E7 : s7 = s6) by (apply run_compare_off; destruct F6; congruence).
  rewrite E7. open_frames. congruence.
Qed.

(** X10. In a started thread [run] leaves the model [icub_sens] as it
    is: only the calibration and the comparison diagnostics, which is off,
    evaluate it. *)
Theorem sensor_model_frozen s env :
  started s -> icub_sens (run s env) = icub_sens s.
Proof.
  intros Hs. destruct (started_flags s Hs) as (_ & Hc & Ht). apply run_off; assumption.
Qed.

(** *** The inertial sample *)

(** The estimator of the inertial signal is not one of those the readers of
    the encoders feed. *)
Lemma getUpper_InertialEst s env :
  InertialEst (snd (getUpperEncodersSpeedAndAcceleration s env)) = InertialEst s.
Proof. reflexivity. Qed.

Lemma getLower_InertialEst s env :
  InertialEst (snd (getLowerEncodersSpeedAndAcceleration s env)) = InertialEst s.
Proof. reflexivity. Qed.

Lemma three_inserts (v u : Vector) (a b c : Z) :
  length u = 3%nat ->
  <[2%nat := vget v c]> (<[1%nat := vget v b]> (<[0%nat := vget v a]> u))
  = [vget v a; vget v b; vget v c].
Proof.
  intros H. destruct u as [|u0 [|u1 [|u2 [|]]]]; try discriminate H. reflexivity.
Qed.

Lemma vget_take3 (v : Vector) :
  (3 <= length v)%nat -> [vget v 0; vget v 1; vget v 2] = take 3 v.
Proof.
  intros H. destruct v as [|v0 [|v1 [|v2 v]]]; cbn in H; try lia. reflexivity.
Qed.

Lemma vget_take3_drop3 (v : Vector) :
  (6 <= length v)%nat -> [vget v 3; vget v 4; vget v 5] = take 3 (drop 3 v).
Proof.
  intros H. destruct v as [|v0 [|v1 [|v2 [|v3 [|v4 [|v5 v]]]]]]; cbn in H; try lia.
  reflexivity.
Qed.

(** The block of [readAndUpdate] on the inertial sample. *)
Lemma read_inertial_spec s env :
  length (w0 s) = 3%nat -> length (d2p0 s) = 3%nat ->
  (forall v, inertial s = Some v -> (6 <= length v)%nat) ->
  let s' := read_inertial s env in
  match inertial s with
  | Some v =>
      d2p0 s' = take 3 v /\ w0 s' = take 3 (drop 3 v)
      /\ (dw0 s', InertialEst s')
         = lin_estimate (InertialEst s)
             {| data := take 3 (drop 3 v); time := now_domega (clock env) |}
      /\ inertial_measurements s' = v
  | None => s' = s
  end.
Proof.
  intros Hw Hp Hv. cbv zeta. unfold read_inertial.
  destruct (inertial s) as [v|] eqn:Ei; [|reflexivity].
  specialize (Hv v eq_refl).
  rewrite <- (vget_take3 v) by lia. rewrite <- (vget_take3_drop3 v) by lia.
  rewrite <- (three_inserts v (d2p0 s) 0 1 2 Hp).
  rewrite <- (three_inserts v (w0 s) 3 4 5 Hw).
  cbv zeta. unfold eval_domega. cbv zeta.
  destruct s as [j u lo f [ii im w dw d2p] [e1 e2 e3 e4 e5] ic ics se st pf sn].
  cbn -[lin_estimate insert vget].
  destruct (lin_estimate _ _) as [x y]. repeat split; reflexivity.
Qed.

Lemma base_motion_eq a b : imu b = imu a -> InertialEst b = InertialEst a ->
  base_motion_kept a b.
Proof.
  intros H1 H2. unfold base_motion_kept, d2p0, w0, dw0, inertial_measurements.
  rewrite H1, H2. repeat split; reflexivity.
Qed.

Lemma base_motion_trans a b c :
  base_motion_kept a b -> base_motion_kept b c -> base_motion_kept a c.
Proof.
  intros (a1 & a2 & a3 & a4 & a5) (b1 & b2 & b3 & b4 & b5).
  repeat split; congruence.
Qed.

Lemma est_InertialEst a b : est b = est a -> InertialEst b = InertialEst a.
Proof. intros H. unfold InertialEst. rewrite H. reflexivity. Qed.

Lemma read_ports_inertial s env :
  inertial (read_ports s env false) = rd_inertial (ports env)
  /\ base_motion_kept s (read_ports s env false).
Proof. repeat split; reflexivity. Qed.

(** What [readAndUpdate] leaves of the inertial sample. *)
Lemma readAndUpdate_inertial s env i :
  length (w0 s) = 3%nat -> length (d2p0 s) = 3%nat ->
  (forall v, rd_inertial (ports env) = Some v -> (6 <= length v)%nat) ->
  let s' := snd (readAndUpdate s env false i) in
  match rd_inertial (ports env) with
  | Some v =>
      d2p0 s' = take 3 v /\ w0 s' = take 3 (drop 3 v)
      /\ (dw0 s', InertialEst s')
         = lin_estimate (InertialEst s)
             {| data := take 3 (drop 3 v); time := now_domega (clock env) |}
      /\ inertial_measurements s' = v
  | None => base_motion_kept s s'
  end.
Proof.
  intros Hw Hp Hv. cbv zeta. unfold readAndUpdate, bindR, retR. cbv beta iota zeta.
  destruct (read_ports_inertial s env) as (I1 & B1).
  set (s1 := read_ports s env false) in *.
  pose proof (read_timing_frame s1 env) as H2.
  set (s2 := read_timing s1 env) in *.
  assert (B2 : base_motion_kept s s2 /\ inertial s2 = rd_inertial (ports env)).
  { split.
    - apply base_motion_trans with s1; [exact B1|].
      apply base_motion_eq; [|apply est_InertialEst]; open_frames; congruence.
    - rewrite <- I1. unfold inertial. f_equal. open_frames. congruence. }
  destruct B2 as [B2 I2].
  pose proof (read_inertial_spec s2 env) as H3. cbv zeta in H3. rewrite I2 in H3.
  set (s3 := read_inertial s2 env) in *.
  pose proof (getUpper_frame s3 env) as H4.
  pose proof (getUpper_InertialEst s3 env) as E4.
  destruct (getUpperEncodersSpeedAndAcceleration s3 env) as [r4 s4]. cbn [snd] in H4, E4.
  pose proof (setUpperMeasure_frame s4 i) as H5.
  set (s5 := setUpperMeasure s4 i) in *.
  pose proof (getLower_frame s5 env) as H6.
  pose proof (getLower_InertialEst s5 env) as E6.
  destruct (getLowerEncodersSpeedAndAcceleration s5 env) as [r6 s6]. cbn [snd] in H6, E6.
  pose proof (setLowerMeasure_frame s6 i) as H7. cbn [snd].
  assert (B7 : base_motion_kept s3 (setLowerMeasure s6 i)).
  { apply base_motion_eq; [open_frames; congruence|].
    transitivity (InertialEst s6); [apply est_InertialEst; open_frames; congruence|].
    rewrite E6. transitivity (InertialEst s4); [apply est_InertialEst; open_frames; congruence|].
    exact E4. }
  destruct B2 as (b1 & b2 & b3 & b4 & b5). destruct B7 as (c1 & c2 & c3 & c4 & c5).
  rewrite b2, b1 in H3. specialize (H3 Hw Hp).
  destruct (rd_inertial (ports env)) as [v|].
  - specialize (H3 ltac:(intros v' Ev; apply Hv; exact Ev)).
    rewrite c1, c2, c3, c4, c5, <- b4. exact H3.
  - specialize (H3 ltac:(discriminate)). unfold base_motion_kept.
    rewrite c1, c2, c3, c4, c5, H3. auto.
Qed.

Lemma run_base_motion s env :
  base_motion_kept (snd (readAndUpdate (run_enter s env) env false false)) (run s env).
Proof.
  pose proof (run_read_eq s env) as Er. cbv zeta in Er.
  revert Er. run_blocks s env. intros Er.
  apply base_motion_trans with s1.
  - rewrite Er. generalize (readAndUpdate (run_enter s env) env false false). intros r.
    destruct (negb (fst r)); repeat split; reflexivity.
  - apply base_motion_eq; [|apply est_InertialEst]; open_frames; congruence.
Qed.

Lemma run_enter_base_motion s env : base_motion_kept s (run_enter s env).
Proof.
  pose proof (run_enter_frame s env) as H.
  apply base_motion_eq; [|apply est_InertialEst]; open_frames; congruence.
Qed.

Lemma run_inertial s env :
  length (w0 s) = 3%nat -> length (d2p0 s) = 3%nat ->
  (forall v, rd_inertial (ports env) = Some v -> (6 <= length v)%nat) ->
  let s' := run s env in
  match rd_inertial (ports env) with
  | Some v =>
      d2p0 s' = take 3 v /\ w0 s' = take 3 (drop 3 v)
      /\ (dw0 s', InertialEst s')
         = lin_estimate (InertialEst s)
             {| data := take 3 (drop 3 v); time := now_domega (clock env) |}
      /\ inertial_measurements s' = v
  | None =>
      d2p0 s' = d2p0 s /\ w0 s' = w0 s /\ dw0 s' = dw0 s
      /\ InertialEst s' = InertialEst s
      /\ inertial_measurements s' = inertial_measurements s
  end.
Proof.
  intros Hw Hp Hv. cbv zeta.
  pose proof (run_base_motion s env) as E1.
  pose proof (run_enter_base_motion s env) as (a1 & a2 & a3 & a4 & a5).
  pose proof (readAndUpdate_inertial (run_enter s env) env false
                ltac:(rewrite a2; exact Hw) ltac:(rewrite a1; exact Hp) Hv) as H.
  cbv zeta in H. revert E1 H.
  generalize (snd (readAndUpdate (run_enter s env) env false false)). intros r E1 H.
  destruct E1 as (e1 & e2 & e3 & e4 & e5).
  rewrite e1, e2, e3, e4, e5.
  destruct (rd_inertial (ports env)) as [v|].
  - rewrite <- a4. exact H.
  - destruct H as (h1 & h2 & h3 & h4 & h5). repeat split; congruence.
Qed.

(** X11. What a period takes from the inertial port: with a sample [v]
    the linear acceleration is entries 0 to 2 of [v], the angular velocity
    entries 3 to 5, the angular acceleration is what the estimator answers
    for that velocity at the time of the read, and [v] is kept; without a
    sample the four vectors and the estimator stay as they were. *)
Theorem base_motion_from_inertial s env :
  length (w0 s) = 3%nat -> length (d2p0 s) = 3%nat ->
  (forall v, rd_inertial (ports env) = Some v -> (6 <= length v)%nat) ->
  let s' := run s env in
  match rd_inertial (ports env) with
  | Some v =>
      d2p0 s' = take 3 v /\ w0 s' = take 3 (drop 3 v)
      /\ (dw0 s', InertialEst s')
         = lin_estimate (InertialEst s)
             {| data := take 3 (drop 3 v); time := now_domega (clock env) |}
      /\ inertial_measurements s' = v
  | None =>
      d2p0 s' = d2p0 s /\ w0 s' = w0 s /\ dw0 s' = dw0 s
      /\ InertialEst s' = InertialEst s
      /\ inertial_measurements s' = inertial_measurements s
  end.
Proof. exact (run_inertial s env). Qed.

(** *** The sizes of the vectors *)

Lemma read_loop_length src off : forall n i (qv allv : Vector),
  length (fst (read_loop src off i n qv allv)) = length qv
  /\ length (snd (read_loop src off i n qv allv)) = length allv.
Proof.
  induction n as [|n IH]; intros i qv allv; cbn [read_loop].
  - split; reflexivity.
  - cbv zeta. destruct (IH (S i) (<[i:=src i]> qv)
                          (<[(off + i)%nat := <[i:=src i]> qv !!! i]> allv)) as [H1 H2].
    rewrite H1, H2, !length_insert. split; reflexivity.
Qed.

Lemma getEncoders_length r buf : length (snd (getEncoders r buf)) = length buf.
Proof.
  unfold getEncoders. cbn [snd]. rewrite length_app, length_take, length_drop. lia.
Qed.

Lemma buffer_length (vals buf : Vector) :
  length (take (length buf) vals ++ drop (length vals) buf) = length buf.
Proof. rewrite length_app, length_take, length_drop. lia. Qed.

Lemma getUpper_position_sizes s env :
  position_sizes (snd (getUpperEncodersSpeedAndAcceleration s env)) = position_sizes s
  /\ length (all_q_up (snd (getUpperEncodersSpeedAndAcceleration s env))) = length (all_q_up s).
Proof.
  split.
  - unfold position_sizes. to_loops.
    rewrite !(proj1 (read_loop_length _ _ _ _ _ _)), !buffer_length. reflexivity.
  - to_loops. rewrite !(proj2 (read_loop_length _ _ _ _ _ _)). reflexivity.
Qed.

Lemma getLower_position_sizes s env :
  position_sizes (snd (getLowerEncodersSpeedAndAcceleration s env)) = position_sizes s
  /\ length (all_q_low (snd (getLowerEncodersSpeedAndAcceleration s env))) = length (all_q_low s).
Proof.
  split.
  - unfold position_sizes. to_loops.
    rewrite !(proj1 (read_loop_length _ _ _ _ _ _)), !buffer_length. reflexivity.
  - to_loops. rewrite !(proj2 (read_loop_length _ _ _ _ _ _)). reflexivity.
Qed.

Lemma sizes_kept_refl a : sizes_kept a a.
Proof. repeat split; reflexivity. Qed.

Lemma sizes_kept_trans a b c : sizes_kept a b -> sizes_kept b c -> sizes_kept a c.
Proof.
  intros (a1 & a2 & a3 & a4 & a5 & a6) (b1 & b2 & b3 & b4 & b5 & b6).
  repeat split; congruence.
Qed.

Lemma position_sizes_joints a b : joints b = joints a -> position_sizes b = position_sizes a.
Proof.
  intros H. unfold position_sizes, encoders_head, encoders_arm_left, encoders_arm_right,
    encoders_torso, encoders_leg_left, encoders_leg_right, q_head, q_larm, q_rarm,
    q_torso, q_lleg, q_rleg. rewrite H. reflexivity.
Qed.

(** A block that leaves the joints, the concatenated vectors and the
    inertial members alone keeps the sizes. *)
Lemma sizes_kept_frame a b :
  joints b = joints a -> up b = up a -> low b = low a ->
  length (w0 b) = length (w0 a) -> length (d2p0 b) = length (d2p0 a) ->
  sizes_kept a b.
Proof.
  intros Hj Hu Hl Hw Hp. unfold sizes_kept.
  rewrite (position_sizes_joints a b Hj), (rate_sizes_joints a b Hj).
  unfold all_q_up, all_q_low. rewrite Hu, Hl. repeat split; try reflexivity; assumption.
Qed.

Lemma sizes_kept_groups a b :
  joints b = joints a -> up b = up a -> low b = low a -> imu b = imu a -> sizes_kept a b.
Proof.
  intros Hj Hu Hl Hi. apply sizes_kept_frame; try assumption; unfold w0, d2p0; rewrite Hi;
    reflexivity.
Qed.

Lemma read_ports_sizes s env : sizes_kept s (read_ports s env false).
Proof. repeat split; reflexivity. Qed.

Lemma read_inertial_sizes s env : sizes_kept s (read_inertial s env).
Proof.
  pose proof (read_inertial_frame s env) as H.
  apply sizes_kept_frame; try (open_frames; congruence).
  - unfold read_inertial. destruct (inertial s) as [v|]; [|reflexivity].
    destruct s as [j u lo f [ii im w dw d2p] [e1 e2 e3 e4 e5] ic ics se st pf sn].
    cbv zeta. unfold eval_domega. cbv zeta. cbn -[lin_estimate insert vget].
    rewrite !length_insert. reflexivity.
  - unfold read_inertial. destruct (inertial s) as [v|]; [|reflexivity].
    destruct s as [j u lo f [ii im w dw d2p] [e1 e2 e3 e4 e5] ic ics se st pf sn].
    cbv zeta. unfold eval_domega. cbv zeta. cbn -[lin_estimate insert vget].
    rewrite !length_insert. reflexivity.
Qed.

Lemma getUpper_sizes s env :
  sizes_kept s (snd (getUpperEncodersSpeedAndAcceleration s env)).
Proof.
  destruct (getUpper_position_sizes s env) as [H1 H2].
  pose proof (getUpper_rate_sizes s env) as H3.
  pose proof (getUpper_frame s env) as H.
  revert H1 H2 H3 H. generalize (snd (getUpperEncodersSpeedAndAcceleration s env)).
  intros r H1 H2 H3 H. unfold sizes_kept.
  split; [exact H1|]. split; [exact H3|]. split; [exact H2|].
  unfold all_q_low, w0, d2p0. open_frames.
  repeat split; congruence.
Qed.

Lemma getLower_sizes s env :
  sizes_kept s (snd (getLowerEncodersSpeedAndAcceleration s env)).
Proof.
  destruct (getLower_position_sizes s env) as [H1 H2].
  pose proof (getLower_rate_sizes s env) as H3.
  pose proof (getLower_frame s env) as H.
  revert H1 H2 H3 H. generalize (snd (getLowerEncodersSpeedAndAcceleration s env)).
  intros r H1 H2 H3 H. unfold sizes_kept.
  split; [exact H1|]. split; [exact H3|].
  unfold all_q_up, w0, d2p0. open_frames.
  repeat split; congruence.
Qed.

Lemma readAndUpdate_sizes s env i : sizes_kept s (snd (readAndUpdate s env false i)).
Proof.
  unfold readAndUpdate, bindR, retR. cbv beta iota zeta.
  pose proof (read_ports_sizes s env) as H1.
  set (s1 := read_ports s env false) in *.
  pose proof (read_timing_frame s1 env) as H2.
  set (s2 := read_timing s1 env) in *.
  pose proof (read_inertial_sizes s2 env) as H3.
  set (s3 := read_inertial s2 env) in *.
  pose proof (getUpper_sizes s3 env) as H4.
  destruct (getUpperEncodersSpeedAndAcceleration s3 env) as [r4 s4]. cbn [snd] in H4.
  pose proof (setUpperMeasure_frame s4 i) as H5.
  set (s5 := setUpperMeasure s4 i) in *.
  pose proof (getLower_sizes s5 env) as H6.
  destruct (getLowerEncodersSpeedAndAcceleration s5 env) as [r6 s6]. cbn [snd] in H6.
  pose proof (setLowerMeasure_frame s6 i) as H7. cbn [snd].
  apply sizes_kept_trans with s1; [exact H1|].
  apply sizes_kept_trans with s2; [apply sizes_kept_groups; open_frames; congruence|].
  apply sizes_kept_trans with s3; [exact H3|].
  apply sizes_kept_trans with s4; [exact H4|].
  apply sizes_kept_trans with s5; [apply sizes_kept_groups; open_frames; congruence|].
  apply sizes_kept_trans with s6; [exact H6|].
  apply sizes_kept_groups; open_frames; congruence.
Qed.

Lemma setZero_sizes s : sizes_kept s (setZeroJntAngVelAcc s).
Proof.
  unfold sizes_kept. split; [reflexivity|]. split.
  - unfold rate_sizes. to_loops. rewrite !length_fmap. reflexivity.
  - repeat split; reflexivity.
Qed.

Lemma run_zero_sizes s : sizes_kept s (run_zero s).
Proof.
  unfold run_zero. cbv zeta.
  pose proof (setZero_sizes s) as H1.
  set (z := setZeroJntAngVelAcc s) in *.
  pose proof (setUpperMeasure_frame z false) as H2.
  set (u := setUpperMeasure z false) in *.
  pose proof (setLowerMeasure_frame u false) as H3.
  apply sizes_kept_trans with z; [exact H1|].
  apply sizes_kept_groups; open_frames; congruence.
Qed.

Lemma run_read_sizes s env : sizes_kept s (run_read s env).
Proof.
  rewrite run_read_eq. cbv zeta.
  pose proof (run_enter_frame s env) as H1.
  pose proof (readAndUpdate_sizes (run_enter s env) env false) as H2.
  apply sizes_kept_trans with (run_enter s env);
    [apply sizes_kept_groups; open_frames; congruence|].
  revert H2. generalize (readAndUpdate (run_enter s env) env false false). intros r H2.
  destruct (negb (fst r)); [|exact H2].
  eapply sizes_kept_trans; [exact H2|]. repeat split; reflexivity.
Qed.

Lemma run_sizes s env : sizes_kept s (run s env).
Proof.
  pose proof (run_read_sizes s env) as E1.
  pose proof (run_zero_sizes (run_read s env)) as E2.
  revert E1 E2. run_blocks s env. intros E1 E2.
  apply sizes_kept_trans with s1; [exact E1|].
  apply sizes_kept_trans with s2; [exact E2|].
  apply sizes_kept_groups; open_frames; congruence.
Qed.

Lemma calibrate_predict_sizes s env : sizes_kept s (trial_predicted s env).
Proof.
  rewrite calibrate_predict_eq. cbv zeta.
  pose proof (readAndUpdate_sizes s env true) as H1.
  set (r := snd (readAndUpdate s env false true)) in *.
  pose proof (sensor_wrenches_frame r) as H2.
  set (w := sensor_wrenches r) in *.
  match goal with
  | |- context [set_F_iDyn_RLeg ?a (set_F_iDyn_LLeg ?b (set_F_iDyn_RArm ?c
                  (set_F_iDyn_LArm ?d ?x)))] =>
      pose proof (set_F_iDyn_frame a b c d x) as H3
  end.
  eapply sizes_kept_trans; [exact H1|].
  apply sizes_kept_groups; open_frames; congruence.
Qed.

Lemma calibrate_trial_sizes s env :
  match calibrate_trial s env with
  | Some s1 => sizes_kept s s1
  | None => True
  end.
Proof.
  rewrite calibrate_trial_eq. destruct (arrives env); [|exact I].
  pose proof (calibrate_predict_sizes s env) as H1.
  revert H1. generalize (trial_predicted s env). intros p H1.
  pose proof (calibrate_accumulate_spec p) as H2.
  destruct (calibrate_accumulate p) as [s1|]; [|exact I].
  destruct H2 as [H2 _].
  apply sizes_kept_trans with p; [exact H1|].
  apply sizes_kept_groups; open_frames; congruence.
Qed.

Lemma calibrate_loop_sizes envs : forall n i s,
  match calibrate_loop envs i n s with
  | Some s' => sizes_kept s s'
  | None => True
  end.
Proof.
  induction n as [|n IH]; intros i s; cbn [calibrate_loop].
  - apply sizes_kept_refl.
  - pose proof (calibrate_trial_sizes s (envs i)) as H1.
    destruct (calibrate_trial s (envs i)) as [s1|]; [|exact I].
    specialize (IH (S i) s1).
    destruct (calibrate_loop envs (S i) n s1) as [s'|]; [|exact I].
    eapply sizes_kept_trans; eassumption.
Qed.

Lemma threadInit_sizes s envs :
  match threadInit s envs with
  | Some (_, s') => sizes_kept s s'
  | None => True
  end.
Proof.
  unfold threadInit. rewrite calibrateOffset_eq.
  pose proof (offsets_zeroed_frame s) as H0.
  pose proof (calibrate_loop_sizes envs 10 0 (offsets_zeroed s)) as H1.
  revert H0 H1. generalize (offsets_zeroed s). intros z H0 H1.
  destruct (calibrate_loop envs 0 10 z) as [s1|]; [|exact I].
  pose proof (offsets_scaled_frame 10 s1) as H2.
  revert H2. generalize (offsets_scaled 10 s1). intros s2 H2.
  apply sizes_kept_trans with z; [apply sizes_kept_groups; open_frames; congruence|].
  apply sizes_kept_trans with s1; [exact H1|].
  apply sizes_kept_trans with s2; [apply sizes_kept_groups; open_frames; congruence|].
  repeat split; reflexivity.
Qed.

Lemma vector_sizes_kept a b : sizes_kept a b -> vector_sizes b = vector_sizes a.
Proof.
  intros (H1 & H2 & H3 & H4 & H5 & H6). unfold vector_sizes.
  rewrite H1, H2, H3, H4, H5, H6. reflexivity.
Qed.

Lemma reaches_sizes s0 s : reaches s0 s -> sizes_kept s0 s.
Proof.
  induction 1 as [envs s E | s env _ IH].
  - pose proof (threadInit_sizes s0 envs) as H. rewrite E in H. exact H.
  - eapply sizes_kept_trans; [exact IH | apply run_sizes].
Qed.

Lemma sized_kept a b : sizes_kept a b -> sized a -> sized b.
Proof.
  intros (H1 & _ & H3 & H4 & _) Hs. unfold position_sizes in H1.
  injection H1 as e1 e2 e3 e4 e5 e6 q1 q2 q3 q4 q5 q6.
  destruct Hs. constructor; congruence.
Qed.

(** X12. The sizes of the joint vectors, of the rate vectors and of the
    base motion vectors are those the constructor gave: neither [threadInit]
    nor any period changes one of them, so an object built with enough axes
    keeps the sizes the loops of the readers rely on. *)
Theorem vector_sizes_never_change s0 s :
  reaches s0 s ->
  vector_sizes s = vector_sizes s0
  /\ (forall env, vector_sizes (run s env) = vector_sizes s)
  /\ (sized s0 -> sized s).
Proof.
  intros H. pose proof (reaches_sizes s0 s H) as K.
  split; [apply vector_sizes_kept; exact K|].
  split; [intros env; apply vector_sizes_kept, run_sizes|].
  apply sized_kept. exact K.
Qed.

(** *** The angles handed to the model *)

Lemma vector_eq (a b : Vector) :
  length a = length b -> (forall i, (i < length a)%nat -> a !!! i = b !!! i) -> a = b.
Proof.
  intros Hl H. apply list_eq_same_length with (length a); auto.
  intros i x y Hi Hx Hy.
  specialize (H i Hi).
  rewrite (list_lookup_total_correct _ _ _ Hx), (list_lookup_total_correct _ _ _ Hy) in H.
  exact H.
Qed.

Lemma buffer_lookup (vals buf : Vector) i n :
  (i < n)%nat -> (n <= length buf)%nat -> (n <= length vals)%nat ->
  (take (length buf) vals ++ drop (length vals) buf) !!! i = vals !!! i.
Proof.
  intros Hi Hb Hv.
  rewrite lookup_total_app_l by (rewrite length_take; lia).
  rewrite lookup_total_take. destruct (decide (i < length buf)%nat); [reflexivity | lia].
Qed.

Lemma filled_take (q vals : Vector) n :
  length q = n -> (n <= length vals)%nat ->
  (forall i, (i < n)%nat -> q !!! i = vals !!! i) -> q = take n vals.
Proof.
  intros Hq Hv H. apply vector_eq.
  - rewrite length_take. lia.
  - intros i Hi. rewrite H by lia. rewrite lookup_total_take.
    destruct (decide (i < n)%nat); [reflexivity | lia].
Qed.

Lemma filled_mirror (q vals : Vector) :
  length q = 3%nat -> (3 <= length vals)%nat ->
  (forall i, (i < 3)%nat -> q !!! i = vals !!! (2 - i)%nat) -> q = reverse (take 3 vals).
Proof.
  intros Hq Hv H.
  destruct q as [|q0 [|q1 [|q2 [|]]]]; try discriminate Hq.
  destruct vals as [|v0 [|v1 [|v2 vals]]]; cbn in Hv; try lia.
  pose proof (H 0%nat ltac:(lia)) as H0. pose proof (H 1%nat ltac:(lia)) as H1.
  pose proof (H 2%nat ltac:(lia)) as H2. cbn in H0, H1, H2. subst. reflexivity.
Qed.

Lemma getUpper_buffers s env :
  let hi := snd (getUpperEncodersSpeedAndAcceleration s env) in
  encoders_head hi
  = take (length (encoders_head s)) (snd (enc_head (encs env)))
    ++ drop (length (snd (enc_head (encs env)))) (encoders_head s)
  /\ encoders_arm_left hi
     = take (length (encoders_arm_left s)) (snd (enc_arm_left (encs env)))
       ++ drop (length (snd (enc_arm_left (encs env)))) (encoders_arm_left s)
  /\ encoders_arm_right hi
     = take (length (encoders_arm_right s)) (snd (enc_arm_right (encs env)))
       ++ drop (length (snd (enc_arm_right (encs env)))) (encoders_arm_right s).
Proof. cbv zeta. repeat split; to_loops; reflexivity. Qed.

Lemma getLower_buffers s env :
  let lo := snd (getLowerEncodersSpeedAndAcceleration s env) in
  encoders_torso lo
  = take (length (encoders_torso s)) (snd (enc_torso (encs env)))
    ++ drop (length (snd (enc_torso (encs env)))) (encoders_torso s)
  /\ encoders_leg_left lo
     = take (length (encoders_leg_left s)) (snd (enc_leg_left (encs env)))
       ++ drop (length (snd (enc_leg_left (encs env)))) (encoders_leg_left s)
  /\ encoders_leg_right lo
     = take (length (encoders_leg_right s)) (snd (enc_leg_right (encs env)))
       ++ drop (length (snd (enc_leg_right (encs env)))) (encoders_leg_right s).
Proof. cbv zeta. repeat split; to_loops; reflexivity. Qed.

Lemma getUpper_keeps_lower s env :
  let hi := snd (getUpperEncodersSpeedAndAcceleration s env) in
  q_torso hi = q_torso s /\ q_lleg hi = q_lleg s /\ q_rleg hi = q_rleg s.
Proof. cbv zeta. repeat split; reflexivity. Qed.

Lemma getLower_keeps_upper s env :
  let lo := snd (getLowerEncodersSpeedAndAcceleration s env) in
  q_head lo = q_head s /\ q_larm lo = q_larm s /\ q_rarm lo = q_rarm s.
Proof. cbv zeta. repeat split; reflexivity. Qed.

Lemma getUpper_q s env :
  sized s -> enough env ->
  let hi := snd (getUpperEncodersSpeedAndAcceleration s env) in
  q_head hi = take 3 (snd (enc_head (encs env)))
  /\ q_larm hi = take 7 (snd (enc_arm_left (encs env)))
  /\ q_rarm hi = take 7 (snd (enc_arm_right (encs env))).
Proof.
  intros Hs (E1 & E2 & E3 & _). cbv zeta.
  destruct (getUpper_positions s env) as (H1 & H2 & H3 & H4).
  destruct (getUpper_buffers s env) as (B1 & B2 & B3).
  cbv zeta in *.
  revert H1 H2 H3 H4 B1 B2 B3.
  generalize (snd (getUpperEncodersSpeedAndAcceleration s env)).
  intros hi H1 H2 H3 H4 B1 B2 B3.
  destruct Hs as [Sh Sla Sra St Sll Srl Sup Slow Eh El Er _ _ _].
  pose proof (three_loops
                (fun i => vget (encoders_head hi) (Z.of_nat i))
                (fun i => vget (encoders_arm_left hi) (Z.of_nat i))
                (fun i => vget (encoders_arm_right hi) (Z.of_nat i))
                (q_head s) (q_larm s) (q_rarm s) (all_q_up s) ltac:(lia)) as Hi.
  cbv zeta in Hi. rewrite <- H1, <- H2, <- H3, <- H4 in Hi. rewrite Sh, Sla, Sra in Hi.
  destruct Hi as ((A1 & A2 & A3) & Uh & Ul & Ur).
  split; [|split].
  - apply filled_take; [exact A1 | lia |]. intros i Hi.
    rewrite (proj1 (Uh i Hi)), vget_nat, B1. apply (buffer_lookup _ _ i 3); lia.
  - apply filled_take; [exact A2 | lia |]. intros i Hi.
    rewrite (proj1 (Ul i Hi)), vget_nat, B2. apply (buffer_lookup _ _ i 7); lia.
  - apply filled_take; [exact A3 | lia |]. intros i Hi.
    rewrite (proj1 (Ur i Hi)), vget_nat, B3. apply (buffer_lookup _ _ i 7); lia.
Qed.

Lemma getLower_q s env :
  sized s -> enough env ->
  let lo := snd (getLowerEncodersSpeedAndAcceleration s env) in
  q_torso lo = reverse (take 3 (snd (enc_torso (encs env))))
  /\ q_lleg lo = take 7 (snd (enc_leg_left (encs env)))
  /\ q_rleg lo = take 7 (snd (enc_leg_right (encs env))).
Proof.
  intros Hs (_ & _ & _ & E1 & E2 & E3). cbv zeta.
  destruct (getLower_positions s env) as (H1 & H2 & H3 & H4).
  destruct (getLower_buffers s env) as (B1 & B2 & B3).
  cbv zeta in *.
  revert H1 H2 H3 H4 B1 B2 B3.
  generalize (snd (getLowerEncodersSpeedAndAcceleration s env)).
  intros lo H1 H2 H3 H4 B1 B2 B3.
  destruct Hs as [Sh Sla Sra St Sll Srl Sup Slow _ _ _ Et El Er].
  pose proof (three_loops
                (fun i => vget (encoders_torso lo) (2 - Z.of_nat i))
                (fun i => vget (encoders_leg_left lo) (Z.of_nat i))
                (fun i => vget (encoders_leg_right lo) (Z.of_nat i))
                (q_torso s) (q_lleg s) (q_rleg s) (all_q_low s) ltac:(lia)) as Lo.
  cbv zeta in Lo. rewrite <- H1, <- H2, <- H3, <- H4 in Lo. rewrite St, Sll, Srl in Lo.
  destruct Lo as ((A1 & A2 & A3) & Lt & Ll & Lr).
  split; [|split].
  - apply filled_mirror; [exact A1 | lia |]. intros i Hi.
    rewrite (proj1 (Lt i Hi)), vget_mirror, B1 by lia. apply (buffer_lookup _ _ _ 3); lia.
  - apply filled_take; [exact A2 | lia |]. intros i Hi.
    rewrite (proj1 (Ll i Hi)), vget_nat, B2. apply (buffer_lookup _ _ i 7); lia.
  - apply filled_take; [exact A3 | lia |]. intros i Hi.
    rewrite (proj1 (Lr i Hi)), vget_nat, B3. apply (buffer_lookup _ _ i 7); lia.
Qed.

Lemma positions_joints a b : joints b = joints a -> positions_kept a b.
Proof.
  intros H. unfold positions_kept, q_head, q_larm, q_rarm, q_torso, q_lleg, q_rleg.
  rewrite H. repeat split; reflexivity.
Qed.

(** The position vectors after [readAndUpdate]: the values the boards
    wrote in this call. *)
Lemma readAndUpdate_q s env i :
  sized s -> enough env ->
  let r := snd (readAndUpdate s env false i) in
  q_head r = take 3 (snd (enc_head (encs env)))
  /\ q_larm r = take 7 (snd (enc_arm_left (encs env)))
  /\ q_rarm r = take 7 (snd (enc_arm_right (encs env)))
  /\ q_torso r = reverse (take 3 (snd (enc_torso (encs env))))
  /\ q_lleg r = take 7 (snd (enc_leg_left (encs env)))
  /\ q_rleg r = take 7 (snd (enc_leg_right (encs env))).
Proof.
  intros Hs He. cbv zeta. unfold readAndUpdate, bindR, retR. cbv beta iota zeta.
  pose proof (read_ports_sizes s env) as H1.
  set (s1 := read_ports s env false) in *.
  pose proof (read_timing_frame s1 env) as H2.
  set (s2 := read_timing s1 env) in *.
  pose proof (read_inertial_sizes s2 env) as H3.
  set (s3 := read_inertial s2 env) in *.
  assert (S3 : sized s3).
  { apply (sized_kept s); [|exact Hs].
    apply sizes_kept_trans with s1; [exact H1|].
    apply sizes_kept_trans with s2; [apply sizes_kept_groups; open_frames; congruence|].
    exact H3. }
  pose proof (getUpper_sizes s3 env) as H4.
  pose proof (getUpper_q s3 env S3 He) as Q4. cbv zeta in Q4.
  destruct (getUpperEncodersSpeedAndAcceleration s3 env) as [r4 s4]. cbn [snd] in H4, Q4.
  pose proof (setUpperMeasure_frame s4 i) as H5.
  set (s5 := setUpperMeasure s4 i) in *.
  assert (P5 : positions_kept s4 s5) by (apply positions_joints; open_frames; congruence).
  assert (S5 : sized s5).
  { apply (sized_kept s3); [|exact S3].
    apply sizes_kept_trans with s4; [exact H4|].
    apply sizes_kept_groups; open_frames; congruence. }
  pose proof (getLower_q s5 env S5 He) as Q6. cbv zeta in Q6.
  pose proof (getLower_keeps_upper s5 env) as K6. cbv zeta in K6.
  destruct (getLowerEncodersSpeedAndAcceleration s5 env) as [r6 s6]. cbn [snd] in Q6, K6.
  pose proof (setLowerMeasure_frame s6 i) as H7. cbn [snd].
  assert (P7 : positions_kept s6 (setLowerMeasure s6 i))
    by (apply positions_joints; open_frames; congruence).
  destruct P7 as (p1 & p2 & p3 & p4 & p5 & p6).
  destruct P5 as (o1 & o2 & o3 & _).
  destruct Q4 as (a1 & a2 & a3). destruct Q6 as (b1 & b2 & b3).
  destruct K6 as (k1 & k2 & k3).
  rewrite p1, p2, p3, p4, p5, p6, k1, k2, k3, o1, o2, o3.
  repeat split; assumption.
Qed.

Lemma upper_measure_angles n s :
  Ang (limb_up (upper_measure n s)) = vscale CTRL_DEG2RAD (q_head s)
  /\ Ang (limb_left (upper_measure n s)) = vscale CTRL_DEG2RAD (q_larm s)
  /\ Ang (limb_right (upper_measure n s)) = vscale CTRL_DEG2RAD (q_rarm s).
Proof. repeat split; reflexivity. Qed.

Lemma lower_measure_angles n s :
  Ang (limb_up (lower_measure n s)) = vscale CTRL_DEG2RAD (q_torso s)
  /\ Ang (limb_left (lower_measure n s)) = vscale CTRL_DEG2RAD (q_lleg s)
  /\ Ang (limb_right (lower_measure n s)) = vscale CTRL_DEG2RAD (q_rleg s).
Proof. repeat split; reflexivity. Qed.

Lemma setZero_positions s : positions_kept s (setZeroJntAngVelAcc s).
Proof. repeat split; reflexivity. Qed.

(** The joint angles a period leaves in the model are the position
    vectors read in that period, in radians. *)
Lemma run_angles s env :
  let r := snd (readAndUpdate (run_enter s env) env false false) in
  let b := icub (run s env) in
  Ang (limb_up (upperTorso b)) = vscale CTRL_DEG2RAD (q_head r)
  /\ Ang (limb_left (upperTorso b)) = vscale CTRL_DEG2RAD (q_larm r)
  /\ Ang (limb_right (upperTorso b)) = vscale CTRL_DEG2RAD (q_rarm r)
  /\ Ang (limb_up (lowerTorso b)) = vscale CTRL_DEG2RAD (q_torso r)
  /\ Ang (limb_left (lowerTorso b)) = vscale CTRL_DEG2RAD (q_lleg r)
  /\ Ang (limb_right (lowerTorso b)) = vscale CTRL_DEG2RAD (q_rleg r).
Proof.
  cbv zeta.
  destruct (run_icub s env) as (Ei & _ & _). cbv zeta in Ei. rewrite Ei.
  cbn [upperTorso lowerTorso].
  assert (Eb : icub (before_dynamics s env) = icub (run_zero (run_read s env))).
  { unfold before_dynamics.
    apply (sb_icub _ _ _ _ _ _ _ _ _ _ _ _ _ _ (run_wrench_frame _)). reflexivity. }
  rewrite run_zero_icub in Eb.
  assert (Er : positions_kept (snd (readAndUpdate (run_enter s env) env false false))
                 (run_read s env)).
  { rewrite run_read_eq. cbv zeta.
    generalize (readAndUpdate (run_enter s env) env false false). intros r.
    destruct (negb (fst r)); repeat split; reflexivity. }
  revert Eb Er.
  generalize (snd (readAndUpdate (run_enter s env) env false false)).
  generalize (run_read s env). generalize (before_dynamics s env).
  intros b s1 r Eb (r1 & r2 & r3 & r4 & r5 & r6).
  rewrite Eb. cbn [upperTorso lowerTorso].
  repeat match goal with
  | |- context [update ?n ?w ?dw ?d2p ?x ?y ?z] =>
      let H := fresh "Hu" in
      pose proof (update_node n w dw d2p x y z) as H; cbv zeta in H;
      destruct H as (_ & ? & ? & ? & _);
      generalize dependent (update n w dw d2p x y z); intros
  end.
  destruct (upper_measure_angles (upperTorso (icub s1)) (setZeroJntAngVelAcc s1))
    as (U1 & U2 & U3).
  destruct (lower_measure_angles (lowerTorso (icub s1)) (setZeroJntAngVelAcc s1))
    as (L1 & L2 & L3).
  destruct (setZero_positions s1) as (z1 & z2 & z3 & z4 & z5 & z6).
  repeat split; congruence.
Qed.

(** X13. After a period the joint angles the model holds for each limb
    are the encoder values of that period in radians: the first three of the
    head, the first seven of each arm and each leg, and the first three of
    the torso in reverse order; this holds whether or not the boards
    reported success. *)
Theorem model_angles_from_encoders s env :
  sized s -> enough env ->
  let b := icub (run s env) in
  Ang (limb_up (upperTorso b))
  = vscale CTRL_DEG2RAD (take 3 (snd (enc_head (encs env))))
  /\ Ang (limb_left (upperTorso b))
     = vscale CTRL_DEG2RAD (take 7 (snd (enc_arm_left (encs env))))
  /\ Ang (limb_right (upperTorso b))
     = vscale CTRL_DEG2RAD (take 7 (snd (enc_arm_right (encs env))))
  /\ Ang (limb_up (lowerTorso b))
     = vscale CTRL_DEG2RAD (reverse (take 3 (snd (enc_torso (encs env)))))
  /\ Ang (limb_left (lowerTorso b))
     = vscale CTRL_DEG2RAD (take 7 (snd (enc_leg_left (encs env))))
  /\ Ang (limb_right (lowerTorso b))
     = vscale CTRL_DEG2RAD (take 7 (snd (enc_leg_right (encs env)))).
Proof.
  intros Hs He. cbv zeta.
  assert (S0 : sized (run_enter s env)).
  { apply (sized_kept s); [|exact Hs].
    pose proof (run_enter_frame s env) as H.
    apply sizes_kept_groups; open_frames; congruence. }
  pose proof (readAndUpdate_q (run_enter s env) env false S0 He) as Q.
  pose proof (run_angles s env) as A. cbv zeta in Q, A.
  revert Q A. generalize (snd (readAndUpdate (run_enter s env) env false false)).
  intros r (q1 & q2 & q3 & q4 & q5 & q6) (a1 & a2 & a3 & a4 & a5 & a6).
  rewrite a1, a2, a3, a4, a5, a6, q1, q2, q3, q4, q5, q6.
  repeat split; reflexivity.
Qed.

(** X14. The two contexts composed: when the sample the thread reads from
    its inertial port is the message [onRead] wrote for a raw sample, the
    linear acceleration of the period is the filtered channels 3 to 5 of the
    raw sample and the angular velocity the filtered channels 6 to 8. *)
Theorem filtered_sample_feeds_base_motion d info b s env :
  length (Filter.g d) = 6%nat -> (9 <= length b)%nat ->
  length (w0 s) = 3%nat -> length (d2p0 s) = 3%nat ->
  rd_inertial (ports env) = Some (Filter.g (snd (Filter.onRead d info b))) ->
  let y := fst (Filter.onRead d info b) in
  d2p0 (run s env) = take 3 (drop 3 y) /\ w0 (run s env) = take 3 (drop 6 y).
Proof.
  intros Hg Hb Hw Hp Hr. cbv zeta.
  destruct (FilterFacts.onRead_port d info b Hg Hb) as (Eg & _ & Lg).
  pose proof (run_inertial s env Hw Hp) as H. cbv zeta in H. rewrite Hr in H.
  destruct H as (H1 & H2 & _).
  { intros v Ev. injection Ev as <-. rewrite Lg. lia. }
  rewrite H1, H2, Eg. split.
  - rewrite take_take. reflexivity.
  - change 6%nat with (3 + 3)%nat at 1.
    rewrite <- take_drop_commute, take_take, drop_drop. reflexivity.
Qed.

(** *** The estimators of the joints *)

Lemma upper_kept_trans a b c : upper_kept a b -> upper_kept b c -> upper_kept a c.
Proof. intros (a1 & a2 & a3) (b1 & b2 & b3). repeat split; congruence. Qed.

Lemma lower_kept_trans a b c : lower_kept a b -> lower_kept b c -> lower_kept a c.
Proof. intros (a1 & a2 & a3) (b1 & b2 & b3). repeat split; congruence. Qed.

Lemma estimates_kept a b :
  up b = up a -> low b = low a -> est b = est a -> upper_kept a b /\ lower_kept a b.
Proof.
  intros H1 H2 H3. unfold upper_kept, lower_kept, linEstUp, quadEstUp, linEstLow, quadEstLow.
  rewrite H1, H2, H3. repeat split; reflexivity.
Qed.

Lemma read_inertial_estimates s env :
  upper_kept s (read_inertial s env) /\ lower_kept s (read_inertial s env).
Proof.
  unfold read_inertial. destruct (inertial s); repeat split; reflexivity.
Qed.

Lemma getUpper_estimates_loops s env :
  let hi := snd (getUpperEncodersSpeedAndAcceleration s env) in
  let nh := length (q_head s) in
  let nl := length (q_larm s) in
  let nr := length (q_rarm s) in
  let r1 := read_loop (fun i => vget (encoders_head hi) (Z.of_nat i)) 0 0 nh
              (q_head s) (all_q_up s) in
  let r2 := read_loop (fun i => vget (encoders_arm_left hi) (Z.of_nat i)) nh 0 nl
              (q_larm s) (snd r1) in
  let r3 := read_loop (fun i => vget (encoders_arm_right hi) (Z.of_nat i)) (nh + nl) 0 nr
              (q_rarm s) (snd r2) in
  let v := lin_estimate (linEstUp s) {| data := snd r3; time := now_velUp (clock env) |} in
  let a := quad_estimate (quadEstUp s) {| data := snd r3; time := now_accUp (clock env) |} in
  all_dq_up hi = fst v /\ linEstUp hi = snd v
  /\ all_d2q_up hi = fst a /\ quadEstUp hi = snd a
  /\ low hi = low s /\ linEstLow hi = linEstLow s /\ quadEstLow hi = quadEstLow s.
Proof. cbv zeta. repeat split; to_loops; reflexivity. Qed.

Lemma getLower_estimates_loops s env :
  let lo := snd (getLowerEncodersSpeedAndAcceleration s env) in
  let nt := length (q_torso s) in
  let nl := length (q_lleg s) in
  let nr := length (q_rleg s) in
  let r1 := read_loop (fun i => vget (encoders_torso lo) (2 - Z.of_nat i)) 0 0 nt
              (q_torso s) (all_q_low s) in
  let r2 := read_loop (fun i => vget (encoders_leg_left lo) (Z.of_nat i)) nt 0 nl
              (q_lleg s) (snd r1) in
  let r3 := read_loop (fun i => vget (encoders_leg_right lo) (Z.of_nat i)) (nt + nl) 0 nr
              (q_rleg s) (snd r2) in
  let v := lin_estimate (linEstLow s) {| data := snd r3; time := now_velLow (clock env) |} in
  let a := quad_estimate (quadEstLow s) {| data := snd r3; time := now_accLow (clock env) |} in
  all_dq_low lo = fst v /\ linEstLow lo = snd v
  /\ all_d2q_low lo = fst a /\ quadEstLow lo = snd a
  /\ up lo = up s /\ linEstUp lo = linEstUp s /\ quadEstUp lo = quadEstUp s.
Proof. cbv zeta. repeat split; to_loops; reflexivity. Qed.

Lemma getUpper_estimates s env :
  let hi := snd (getUpperEncodersSpeedAndAcceleration s env) in
  fed_up s hi env
  /\ low hi = low s /\ linEstLow hi = linEstLow s /\ quadEstLow hi = quadEstLow s.
Proof.
  cbv zeta. destruct (getUpper_positions s env) as (_ & _ & _ & P).
  destruct (getUpper_estimates_loops s env) as (E1 & E2 & E3 & E4 & E5 & E6 & E7).
  cbv zeta in P, E1, E2, E3, E4. rewrite <- P in E1, E2, E3, E4.
  revert E1 E2 E3 E4 E5 E6 E7. generalize (snd (getUpperEncodersSpeedAndAcceleration s env)).
  intros hi E1 E2 E3 E4 E5 E6 E7. unfold fed_up. cbv zeta. auto 10.
Qed.

Lemma getLower_estimates s env :
  let lo := snd (getLowerEncodersSpeedAndAcceleration s env) in
  fed_low s lo env
  /\ up lo = up s /\ linEstUp lo = linEstUp s /\ quadEstUp lo = quadEstUp s.
Proof.
  cbv zeta. destruct (getLower_positions s env) as (_ & _ & _ & P).
  destruct (getLower_estimates_loops s env) as (E1 & E2 & E3 & E4 & E5 & E6 & E7).
  cbv zeta in P, E1, E2, E3, E4. rewrite <- P in E1, E2, E3, E4.
  revert E1 E2 E3 E4 E5 E6 E7. generalize (snd (getLowerEncodersSpeedAndAcceleration s env)).
  intros lo E1 E2 E3 E4 E5 E6 E7. unfold fed_low. cbv zeta. auto 10.
Qed.

Lemma fed_up_moves s0 s hi hi' env :
  upper_kept s0 s -> fed_up s hi env -> upper_kept hi hi' -> fed_up s0 hi' env.
Proof.
  intros (_ & a2 & a3) (f1 & f2 & f3 & f4) (b1 & b2 & b3).
  unfold fed_up, all_q_up, all_dq_up, all_d2q_up in *. cbv zeta in *.
  rewrite b1, b2, b3, <- a2, <- a3. auto.
Qed.

Lemma fed_low_moves s0 s lo lo' env :
  lower_kept s0 s -> fed_low s lo env -> lower_kept lo lo' -> fed_low s0 lo' env.
Proof.
  intros (_ & a2 & a3) (f1 & f2 & f3 & f4) (b1 & b2 & b3).
  unfold fed_low, all_q_low, all_dq_low, all_d2q_low in *. cbv zeta in *.
  rewrite b1, b2, b3, <- a2, <- a3. auto.
Qed.

Lemma readAndUpdate_estimates s env i :
  fed_up s (snd (readAndUpdate s env false i)) env
  /\ fed_low s (snd (readAndUpdate s env false i)) env.
Proof.
  unfold readAndUpdate, bindR, retR. cbv beta iota zeta.
  pose proof (read_ports_frame s env) as H1.
  set (s1 := read_ports s env false) in *.
  pose proof (read_timing_frame s1 env) as H2.
  set (s2 := read_timing s1 env) in *.
  destruct (read_inertial_estimates s2 env) as [U3 L3].
  set (s3 := read_inertial s2 env) in *.
  destruct (estimates_kept s s2) as [U2 L2]; [open_frames; congruence ..|].
  destruct (getUpper_estimates s3 env) as (F4 & l1 & l2 & l3). cbv zeta in F4, l1, l2, l3.
  destruct (getUpperEncodersSpeedAndAcceleration s3 env) as [r4 s4]. cbn [snd] in F4, l1, l2, l3.
  pose proof (setUpperMeasure_frame s4 i) as H5.
  destruct (estimates_kept s4 (setUpperMeasure s4 i)) as [U5 L5]; [open_frames; congruence ..|].
  set (s5 := setUpperMeasure s4 i) in *.
  destruct (getLower_estimates s5 env) as (F6 & u1 & u2 & u3). cbv zeta in F6, u1, u2, u3.
  destruct (getLowerEncodersSpeedAndAcceleration s5 env) as [r6 s6]. cbn [snd] in F6, u1, u2, u3.
  pose proof (setLowerMeasure_frame s6 i) as H7.
  destruct (estimates_kept s6 (setLowerMeasure s6 i)) as [U7 L7]; [open_frames; congruence ..|].
  cbn [snd]. split.
  - apply (fed_up_moves s s3 s4); [eapply upper_kept_trans; eassumption | exact F4 |].
    apply upper_kept_trans with s5; [exact U5|].
    apply upper_kept_trans with s6; [repeat split; assumption | exact U7].
  - apply (fed_low_moves s s5 s6); [| exact F6 | exact L7].
    apply lower_kept_trans with s3; [eapply lower_kept_trans; eassumption|].
    apply lower_kept_trans with s4; [repeat split; assumption | exact L5].
Qed.

Lemma run_estimates s env :
  upper_kept (snd (readAndUpdate (run_enter s env) env false false)) (run s env)
  /\ lower_kept (snd (readAndUpdate (run_enter s env) env false false)) (run s env).
Proof.
  pose proof (run_read_eq s env) as Er. cbv zeta in Er.
  revert Er. run_blocks s env. intros Er.
  assert (E1 : upper_kept (snd (readAndUpdate (run_enter s env) env false false)) s1
               /\ lower_kept (snd (readAndUpdate (run_enter s env) env false false)) s1).
  { rewrite Er. generalize (readAndUpdate (run_enter s env) env false false). intros r.
    destruct (negb (fst r)); repeat split; reflexivity. }
  destruct E1 as [U1 L1].
  destruct (estimates_kept s1 s7) as [U7 L7]; [open_frames; congruence ..|].
  split; [exact (upper_kept_trans _ _ _ U1 U7) | exact (lower_kept_trans _ _ _ L1 L7)].
Qed.

Lemma run_fed s env : fed_up s (run s env) env /\ fed_low s (run s env) env.
Proof.
  pose proof (run_enter_frame s env) as H0.
  destruct (estimates_kept s (run_enter s env)) as [U0 L0]; [open_frames; congruence ..|].
  destruct (readAndUpdate_estimates (run_enter s env) env false) as [Fu Fl].
  destruct (run_estimates s env) as [U L].
  revert Fu Fl U L. generalize (snd (readAndUpdate (run_enter s env) env false false)).
  intros r Fu Fl U L. split.
  - exact (fed_up_moves s _ r _ env U0 Fu U).
  - exact (fed_low_moves s _ r _ env L0 Fl L).
Qed.

(** X15. Every period feeds each of the four joint estimators exactly
    once, with the concatenated positions it has just read and the time of
    the call, and keeps the estimated velocities and accelerations in
    [all_dq_*] and [all_d2q_*]: clearing the rates of the limbs does not
    clear these, and nothing else in the period touches the estimators. *)
Theorem estimators_fed_each_period s env :
  let s' := run s env in
  let vel_up := lin_estimate (linEstUp s)
                  {| data := all_q_up s'; time := now_velUp (clock env) |} in
  let acc_up := quad_estimate (quadEstUp s)
                  {| data := all_q_up s'; time := now_accUp (clock env) |} in
  let vel_low := lin_estimate (linEstLow s)
                   {| data := all_q_low s'; time := now_velLow (clock env) |} in
  let acc_low := quad_estimate (quadEstLow s)
                   {| data := all_q_low s'; time := now_accLow (clock env) |} in
  (all_dq_up s' = fst vel_up /\ linEstUp s' = snd vel_up)
  /\ (all_d2q_up s' = fst acc_up /\ quadEstUp s' = snd acc_up)
  /\ (all_dq_low s' = fst vel_low /\ linEstLow s' = snd vel_low)
  /\ (all_d2q_low s' = fst acc_low /\ quadEstLow s' = snd acc_low).
Proof.
  cbv zeta. destruct (run_fed s env) as [(u1 & u2 & u3 & u4) (l1 & l2 & l3 & l4)].
  revert u1 u2 u3 u4 l1 l2 l3 l4. generalize (run s env). intros s'. tauto.
Qed.

End Facts.

(** *** On the bench *)

Import Bench.

(** C1 as stated fails: a period of the bench robot, every port and every
    board answering, sends four torque messages, not five; no message
    carries the torques of the torso. *)
Lemma torso_message_missing :
  length (torque_messages (published (C := toy) robot fresh)) <> 5%nat.
Proof. intros H. vm_compute in H. discriminate H. Qed.

(** C2 as stated fails: in a period of the bench robot the estimator
    reports a velocity of [1] for every joint of the head, and the model is
    evaluated with the velocity [0] for them. *)
Lemma estimated_rates_not_used :
  dq_head (run_read (C := toy) robot fresh) = [1; 1; 1]
  /\ ~ veq (DAng (limb_up (upperTorso (icub (run (C := toy) robot fresh)))))
           (vscale (CTRL_DEG2RAD (Collaborators := toy))
              (dq_head (run_read (C := toy) robot fresh))).
Proof.
  split; [vm_compute; reflexivity|].
  intros H. vm_compute in H. apply Forall2_cons_1 in H as [H _].
  vm_compute in H. discriminate H.
Qed.

(** C6 as stated fails: after [threadInit] the left arm has received frames
    (its pointer holds the last one); in a first period whose reads deliver
    nothing the wrench of the left arm is that raw frame, not [-1] times the
    frame minus the offset. *)
Lemma raw_wrench_after_init :
  match calibrated with
  | Some (_, s) =>
      ft_of LArm s = Some frame
      /\ rd_of LArm silent = None
      /\ F_of LArm (run s silent) = frame
      /\ ~ veq (F_of LArm (run s silent))
               (vscale (-1) (vsub frame (Offset_of LArm (run s silent))))
  | None => False
  end.
Proof.
  vm_compute. split; [reflexivity|]. split; [reflexivity|]. split; [reflexivity|].
  intros H. apply Forall2_cons_1 in H as [H _]. vm_compute in H. discriminate H.
Qed.


Lemma sized_robot : sized (C := toy) robot.
Proof. apply sized_new; lia. Qed.

(** The two readers on the bench robot. *)
Lemma torso_reversed_witness :
  sized (C := toy) robot
  /\ let lo := snd (getLowerEncodersSpeedAndAcceleration (C := toy) robot fresh) in
     let hi := snd (getUpperEncodersSpeedAndAcceleration (C := toy) robot fresh) in
     (length (q_torso lo) = 3 /\ length (q_lleg lo) = 7 /\ length (q_rleg lo) = 7
      /\ length (q_head hi) = 3 /\ length (q_larm hi) = 7 /\ length (q_rarm hi) = 7)%nat
     /\ (forall i, (i < 3)%nat ->
           q_torso lo !!! i = encoders_torso lo !!! (2 - i)%nat
           /\ all_q_low lo !!! i = q_torso lo !!! i)
     /\ (forall i, (i < 7)%nat ->
           q_lleg lo !!! i = encoders_leg_left lo !!! i
           /\ all_q_low lo !!! (3 + i)%nat = q_lleg lo !!! i)
     /\ (forall i, (i < 7)%nat ->
           q_rleg lo !!! i = encoders_leg_right lo !!! i
           /\ all_q_low lo !!! (10 + i)%nat = q_rleg lo !!! i)
     /\ (forall i, (i < 3)%nat ->
           q_head hi !!! i = encoders_head hi !!! i
           /\ all_q_up hi !!! i = q_head hi !!! i)
     /\ (forall i, (i < 7)%nat ->
           q_larm hi !!! i = encoders_arm_left hi !!! i
           /\ all_q_up hi !!! (3 + i)%nat = q_larm hi !!! i)
     /\ (forall i, (i < 7)%nat ->
           q_rarm hi !!! i = encoders_arm_right hi !!! i
           /\ all_q_up hi !!! (10 + i)%nat = q_rarm hi !!! i).
Proof.
  split; [exact sized_robot|].
  exact (torso_reversed_others_in_order (C := toy) robot fresh sized_robot).
Defined.

Lemma fresh_delivers : delivers fresh.
Proof.
  split; [|discriminate]. intros l. exists frame. destruct l; split; reflexivity.
Qed.

Lemma robot_offsets_sized l : length (Offset_of (C := toy) l robot) = 6%nat.
Proof. apply offsets_new. Qed.

Lemma robot_predictions_sized :
  Forall (fun r => forall l, length (model_wrench (C := toy) l r) = 6%nat)
    (trials (C := toy) (fun _ => fresh) 0 2 (offsets_zeroed robot)).
Proof. vm_compute. repeat constructor; intros l; destruct l; reflexivity. Qed.

(** Two trials of the bench robot, the same frame on every port. *)
Lemma calibration_witness :
  (1 <= 2)%nat
  /\ (forall t, (t < 2)%nat -> delivers ((fun _ => fresh) t))
  /\ (forall l, length (Offset_of (C := toy) l robot) = 6%nat)
  /\ Forall (fun r => forall l, length (model_wrench (C := toy) l r) = 6%nat)
       (trials (C := toy) (fun _ => fresh) 0 2 (offsets_zeroed robot))
  /\ exists s', calibrateOffset (C := toy) robot 2 (fun _ => fresh) = Some s'
       /\ forall l,
            (forall k, (k < 6)%nat ->
               Offset_of l s' !!! k
               == Qsum (fun t => measured l (fun _ => fresh) t k
                                 - predicted l (fun _ => fresh) 2 robot t k) 2
                  / QofN 2)
            /\ (forall m p : Vector,
                  length m = 6%nat -> length p = 6%nat ->
                  (forall t k, (t < 2)%nat -> (k < 6)%nat ->
                     measured l (fun _ => fresh) t k == m !!! k
                     /\ predicted l (fun _ => fresh) 2 robot t k == p !!! k) ->
                  veq (Offset_of l s') (vsub m p)).
Proof.
  assert (H1 : (1 <= 2)%nat) by lia.
  assert (H2 : forall t, (t < 2)%nat -> delivers ((fun _ => fresh) t))
    by (intros t _; exact fresh_delivers).
  split; [exact H1|]. split; [exact H2|]. split; [exact robot_offsets_sized|].
  split; [exact robot_predictions_sized|].
  exact (calibration_offset_is_mean (C := toy) robot 2 (fun _ => fresh)
           H1 H2 robot_offsets_sized robot_predictions_sized).
Defined.

(** Every blocking read of a calibration on the bench is answered. *)
Lemma bench_frames (env : Env) :
  ports env = all_ports -> forall l, rd_of l env <> None.
Proof. intros E l. unfold rd_of. rewrite E. destruct l; discriminate. Qed.

Lemma bench_inertial (env : Env) :
  ports env = all_ports -> rd_inertial (ports env) <> None.
Proof. intros E. rewrite E. discriminate. Qed.

Lemma bench_arrives (env : Env) : ports env = all_ports -> arrives env = true.
Proof. intros E. unfold arrives. rewrite E. reflexivity. Qed.

(** The bench robot is started by its calibration. *)
Lemma calibrated_started :
  exists s, calibrated = Some (true, s) /\ reaches (C := toy) robot s.
Proof.
  unfold calibrated.
  pose proof (threadInit_spec (C := toy) robot (fun _ => fresh)) as H.
  destruct (threadInit (C := toy) robot (fun _ => fresh)) as [[b s]|] eqn:E.
  - destruct H as (-> & _). exists s. split; [reflexivity|].
    apply (reaches_init (C := toy) robot (fun _ => fresh)). exact E.
  - destruct H as (t & _ & Hl). rewrite (bench_arrives fresh eq_refl) in Hl. discriminate Hl.
Qed.

Lemma robot_started (s : inverseDynamics (C := toy)) : reaches robot s -> started s.
Proof. intros H. exists 16%nat, 16%nat, 6%nat, 7%nat, 7%nat, 3%nat. exact H. Qed.

(** A calibration during which the head board fails every read. *)
Lemma threadInit_witness :
  (forall t l, (t < 10)%nat -> rd_of l ((fun _ : nat => head_lost) t) <> None)
  /\ (forall t, (t < 10)%nat -> rd_inertial (ports ((fun _ : nat => head_lost) t)) <> None)
  /\ exists s', threadInit (C := toy) robot (fun _ => head_lost) = Some (true, s')
       /\ getThreadStatus s' = STATUS_OK
       /\ sent s' = sent robot
       /\ icub s' = icub robot
       /\ test s' = test robot /\ comp s' = comp robot.
Proof.
  assert (H : forall t l, (t < 10)%nat -> rd_of l ((fun _ : nat => head_lost) t) <> None).
  { intros t l _. apply bench_frames. reflexivity. }
  assert (Hi : forall t, (t < 10)%nat
                 -> rd_inertial (ports ((fun _ : nat => head_lost) t)) <> None).
  { intros t _. apply bench_inertial. reflexivity. }
  split; [exact H|]. split; [exact Hi|].
  exact (threadInit_outcome (C := toy) robot (fun _ => head_lost) H Hi).
Defined.

(** Two trials on the bench. *)
Lemma raw_frame_witness :
  (1 <= 2)%nat
  /\ exists s', calibrateOffset (C := toy) robot 2 (fun _ => fresh) = Some s'
       /\ exists f, rd_of LArm fresh = Some f /\ ft_of LArm s' = Some f /\ F_of LArm s' = f.
Proof.
  split; [lia|].
  pose proof (calibrateOffset_spec (C := toy) robot 2 (fun _ => fresh)) as H.
  destruct (calibrateOffset (C := toy) robot 2 (fun _ => fresh)) as [s'|] eqn:E.
  - exists s'. split; [reflexivity|].
    exact (calibration_leaves_raw_frame (C := toy) robot 2 (fun _ => fresh) s' LArm
             (le_S 1 1 (le_n 1)) E).
  - destruct H as (t & _ & Hl). rewrite (bench_arrives fresh eq_refl) in Hl. discriminate Hl.
Defined.

(** The bench robot after its calibration. *)
Lemma only_torque_witness :
  exists s, calibrated = Some (true, s) /\ started s
    /\ Forall (fun m => is_torque_port (fst m) = true) (sent s)
    /\ forall env, published s env = four_messages (icub (run s env)).
Proof.
  destruct calibrated_started as (s & E & R). exists s.
  split; [exact E|]. split; [exact (robot_started s R)|].
  exact (only_torque_messages (C := toy) s (robot_started s R)).
Defined.

Lemma sensor_model_witness :
  exists s, calibrated = Some (true, s) /\ started s
    /\ icub_sens (run s fresh) = icub_sens s.
Proof.
  destruct calibrated_started as (s & E & R). exists s.
  split; [exact E|]. split; [exact (robot_started s R)|].
  exact (sensor_model_frozen (C := toy) s fresh (robot_started s R)).
Defined.

Lemma vector_sizes_witness :
  exists s, calibrated = Some (true, s) /\ reaches (C := toy) robot s
    /\ vector_sizes s = vector_sizes robot
    /\ (forall env, vector_sizes (run s env) = vector_sizes s)
    /\ (sized (C := toy) robot -> sized s).
Proof.
  destruct calibrated_started as (s & E & R). exists s.
  split; [exact E|]. split; [exact R|].
  exact (vector_sizes_never_change (C := toy) robot s R).
Defined.

(** A period of the bench robot with a sample of twelve values on the
    inertial port. *)
Lemma base_motion_witness :
  length (w0 (C := toy) robot) = 3%nat
  /\ length (d2p0 (C := toy) robot) = 3%nat
  /\ (forall v, rd_inertial (ports fresh) = Some v -> (6 <= length v)%nat)
  /\ d2p0 (run (C := toy) robot fresh) = take 3 (ramp 12)
  /\ w0 (run (C := toy) robot fresh) = take 3 (drop 3 (ramp 12))
  /\ (dw0 (run (C := toy) robot fresh), InertialEst (run (C := toy) robot fresh))
     = lin_estimate (InertialEst (C := toy) robot)
         {| data := take 3 (drop 3 (ramp 12)); time := now_domega (clock fresh) |}
  /\ inertial_measurements (run (C := toy) robot fresh) = ramp 12.
Proof.
  assert (H : forall v, rd_inertial (ports fresh) = Some v -> (6 <= length v)%nat).
  { intros v E. injection E as <-. cbn. lia. }
  split; [reflexivity|]. split; [reflexivity|]. split; [exact H|].
  exact (base_motion_from_inertial (C := toy) robot fresh eq_refl eq_refl H).
Defined.

(** A period that reads what the prefilter wrote. *)
Lemma filtered_sample_witness :
  length (Filter.g Filter.dataFilter_init) = 6%nat
  /\ (9 <= length (ramp 12))%nat
  /\ length (w0 (C := toy) robot) = 3%nat
  /\ length (d2p0 (C := toy) robot) = 3%nat
  /\ rd_inertial (ports filtered)
     = Some (Filter.g (snd (Filter.onRead Filter.dataFilter_init first_stamp (ramp 12))))
  /\ let y := fst (Filter.onRead Filter.dataFilter_init first_stamp (ramp 12)) in
     d2p0 (run (C := toy) robot filtered) = take 3 (drop 3 y)
     /\ w0 (run (C := toy) robot filtered) = take 3 (drop 6 y).
Proof.
  assert (H : (9 <= length (ramp 12))%nat) by (cbn; lia).
  split; [reflexivity|]. split; [exact H|]. split; [reflexivity|]. split; [reflexivity|].
  split; [reflexivity|].
  exact (filtered_sample_feeds_base_motion (C := toy) Filter.dataFilter_init first_stamp
           (ramp 12) robot filtered eq_refl H eq_refl eq_refl eq_refl).
Defined.

Lemma enough_fresh : enough fresh.
Proof. unfold enough. cbn. repeat split; lia. Qed.

(** A period of the bench robot: the angles of the model are the encoder
    values of the boards. *)
Lemma model_angles_witness :
  sized (C := toy) robot /\ enough fresh
  /\ let b := icub (run (C := toy) robot fresh) in
     Ang (limb_up (upperTorso b))
     = vscale (CTRL_DEG2RAD (Collaborators := toy)) (take 3 (snd (enc_head (encs fresh))))
     /\ Ang (limb_left (upperTorso b))
        = vscale (CTRL_DEG2RAD (Collaborators := toy)) (take 7 (snd (enc_arm_left (encs fresh))))
     /\ Ang (limb_right (upperTorso b))
        = vscale (CTRL_DEG2RAD (Collaborators := toy)) (take 7 (snd (enc_arm_right (encs fresh))))
     /\ Ang (limb_up (lowerTorso b))
        = vscale (CTRL_DEG2RAD (Collaborators := toy)) (reverse (take 3 (snd (enc_torso (encs fresh)))))
     /\ Ang (limb_left (lowerTorso b))
        = vscale (CTRL_DEG2RAD (Collaborators := toy)) (take 7 (snd (enc_leg_left (encs fresh))))
     /\ Ang (limb_right (lowerTorso b))
        = vscale (CTRL_DEG2RAD (Collaborators := toy)) (take 7 (snd (enc_leg_right (encs fresh)))).
Proof.
  split; [exact sized_robot|]. split; [exact enough_fresh|].
  exact (model_angles_from_encoders (C := toy) robot fresh sized_robot enough_fresh).
Defined.


End DynFacts.

(** ** The calibration on doubles *)

Module Binary64Facts.
Import SpecFloat Binary64.

Local Open Scope Z_scope.

(** C4 as the specification has it, on the arithmetic of the program:
    forty-nine trials that all measure 1.5 on an axis for which the model
    predicts 0 leave the offset [1.5 - 2 ^ -52], printed
    1.4999999999999998, and not 1.5; the ten trials of [threadInit] that
    all measure the double nearest to 0.1 leave the double below it. *)
Theorem offset_not_exact_in_binary64 :
  ratio 3 2 = S754_finite false 6755399441055744 (-52)
  /\ Offset 49 (fun _ => ratio 3 2) (fun _ => of_Z 0)
     = S754_finite false 6755399441055743 (-52)
  /\ SFeqb (Offset 49 (fun _ => ratio 3 2) (fun _ => of_Z 0))
           (sub (ratio 3 2) (of_Z 0)) = false
  /\ ratio 1 10 = S754_finite false 7205759403792794 (-56)
  /\ Offset 10 (fun _ => ratio 1 10) (fun _ => of_Z 0)
     = S754_finite false 7205759403792793 (-56)
  /\ SFeqb (Offset 10 (fun _ => ratio 1 10) (fun _ => of_Z 0))
           (sub (ratio 1 10) (of_Z 0)) = false.
Proof. repeat split; vm_compute; reflexivity. Qed.

End Binary64Facts.

(** ** Releasing the thread *)

Module ReleaseFacts.
Import Dyn.

Local Open Scope list_scope.

Lemma threadRelease_steps h :
  threadRelease h = fold_left (fun acc s => acc >>= do_step s) steps (Some h).
Proof. reflexivity. Qed.

Lemma fold_none (l : list Step) :
  fold_left (fun acc s => acc >>= do_step s) l None = None.
Proof. induction l as [|s l IH]; [reflexivity | exact IH]. Qed.

Lemma do_step_spec s h :
  match do_step s h with
  | Some h' =>
      h (step_member s) <> Dangling
      /\ h' (step_member s) = after_step s (h (step_member s))
      /\ forall m, m <> step_member s -> h' m = h m
  | None => h (step_member s) = Dangling
  end.
Proof.
  destruct s as [e|m]; cbn [do_step step_member]; unfold release, closePort.
  - destruct (h (estimator e)) eqn:E; cbn.
    + repeat split; auto; congruence.
    + split; [discriminate|]. unfold assign. split.
      * destruct (decide _); congruence.
      * intros m Hm. destruct (decide _); congruence.
    + reflexivity.
  - destruct (h m) eqn:E; cbn.
    + repeat split; auto; congruence.
    + split; [discriminate|]. unfold assign. split.
      * destruct (decide _); congruence.
      * intros m' Hm. destruct (decide _); congruence.
    + reflexivity.
Qed.

Lemma fold_steps (l : list Step) : forall h,
  NoDup (step_member <$> l) ->
  match fold_left (fun acc s => acc >>= do_step s) l (Some h) with
  | Some h' =>
      (forall s, elem_of s l -> h (step_member s) <> Dangling
                          /\ h' (step_member s) = after_step s (h (step_member s)))
      /\ (forall m, ~ elem_of m (step_member <$> l) -> h' m = h m)
  | None => exists s, elem_of s l /\ h (step_member s) = Dangling
  end.
Proof.
  induction l as [|s l IH]; intros h Hnd.
  - cbn. split; [intros s Hs; inversion Hs | reflexivity].
  - cbn [fold_left and_then fmap list_fmap] in *. apply NoDup_cons in Hnd as [Hs Hnd].
    pose proof (do_step_spec s h) as H1.
    destruct (do_step s h) as [h1|].
    + destruct H1 as (A1 & A2 & A3). specialize (IH h1 Hnd).
      destruct (fold_left _ l (Some h1)) as [h'|].
      * destruct IH as [B1 B2]. split.
        -- intros s' Hs'. apply elem_of_cons in Hs' as [->|Hs'].
           ++ split; [exact A1|]. rewrite B2 by exact Hs. exact A2.
           ++ destruct (B1 s' Hs') as [C1 C2].
              assert (Hne : step_member s' <> step_member s).
              { intros E. apply Hs. rewrite <- E. apply list_elem_of_fmap_2. exact Hs'. }
              rewrite (A3 _ Hne) in C1, C2. split; assumption.
        -- intros m Hm. rewrite not_elem_of_cons in Hm. destruct Hm as [Hm1 Hm2].
           rewrite (B2 m Hm2). apply A3. exact Hm1.
      * destruct IH as (s' & Hs' & Hd). exists s'. split; [right; exact Hs'|].
        assert (Hne : step_member s' <> step_member s).
        { intros E. apply Hs. rewrite <- E. apply list_elem_of_fmap_2. exact Hs'. }
        rewrite <- (A3 _ Hne). exact Hd.
    + rewrite fold_none. exists s. split; [left|exact H1].
Qed.

Lemma steps_NoDup : NoDup (step_member <$> steps).
Proof. apply NoDup_ListNoDup. cbn. repeat constructor; cbn; intuition discriminate. Qed.

Lemma in_steps s : List.In s steps -> elem_of s steps.
Proof. intros H. apply list_elem_of_In. exact H. Qed.

Lemma closed_in_steps m : closed_on_release m = true -> elem_of (step_close m) steps.
Proof.
  intros H. apply in_steps.
  destruct m as [e|[| | | |]|[| | | | | |]]; try discriminate H; cbn; tauto.
Qed.

Lemma released_in_steps e : elem_of (step_release e) steps.
Proof. apply in_steps. destruct e; cbn; tauto. Qed.

Lemma legs_not_in_steps :
  ~ elem_of (input port_ft_leg_left) (step_member <$> steps)
  /\ ~ elem_of (input port_ft_leg_right) (step_member <$> steps).
Proof. split; rewrite list_elem_of_In; cbn; intuition discriminate. Qed.

Lemma threadRelease_spec h :
  match threadRelease h with
  | Some h' =>
      (forall s, elem_of s steps ->
         h (step_member s) <> Dangling
         /\ h' (step_member s) = after_step s (h (step_member s)))
      /\ (forall m, ~ elem_of m (step_member <$> steps) -> h' m = h m)
  | None => exists s, elem_of s steps /\ h (step_member s) = Dangling
  end.
Proof. rewrite threadRelease_steps. apply fold_steps. exact steps_NoDup. Qed.

(** X16. What [threadRelease] does to the pointers of the thread: it never
    touches the two leg sensor ports, which stay open; it leaves the five
    estimator pointers null; a live port it closes is deleted and its
    pointer keeps the address, since [closePort] clears only its parameter.
    It has a result unless a pointer it uses was dangling before. *)
Theorem release_skips_leg_ports h :
  match threadRelease h with
  | Some h' =>
      h' (input port_ft_leg_left) = h (input port_ft_leg_left)
      /\ h' (input port_ft_leg_right) = h (input port_ft_leg_right)
      /\ (forall e, h' (estimator e) = Null)
      /\ (forall m, closed_on_release m = true ->
            h' m = match h m with Live => Dangling | p => p end)
  | None => exists m, h m = Dangling
  end.
Proof.
  pose proof (threadRelease_spec h) as H.
  destruct (threadRelease h) as [h'|].
  - destruct H as [H1 H2]. destruct legs_not_in_steps as [L1 L2].
    split; [apply H2; exact L1|]. split; [apply H2; exact L2|]. split.
    + intros e. destruct (H1 _ (released_in_steps e)) as [A B]. cbn [step_member] in A, B.
      rewrite B. destruct (h (estimator e)); [reflexivity | reflexivity | contradiction].
    + intros m Hm. destruct (H1 _ (closed_in_steps m Hm)) as [A B]. cbn [step_member] in A, B.
      rewrite B. destruct (h m); reflexivity.
  - destruct H as (s & _ & Hs). exists (step_member s). exact Hs.
Qed.

(** X17. [threadRelease] cannot be run twice: when the first run found
    one of its ports live, the second run hands [closePort] the address of
    the port the first run deleted. *)
Theorem second_release_uses_deleted_port h h' :
  threadRelease h = Some h' ->
  (exists m, closed_on_release m = true /\ h m = Live) ->
  threadRelease h' = None.
Proof.
  intros E (m & Hm & Hl).
  pose proof (threadRelease_spec h) as H. rewrite E in H. destruct H as [H1 _].
  destruct (H1 _ (closed_in_steps m Hm)) as [_ B]. cbn [step_member] in B.
  rewrite Hl in B. cbn in B.
  pose proof (threadRelease_spec h') as H'.
  destruct (threadRelease h') as [h''|]; [|reflexivity].
  destruct H' as [H1' _].
  destruct (H1' _ (closed_in_steps m Hm)) as [A _]. cbn [step_member] in A. contradiction.
Qed.

(** The thread as the constructor leaves it, released twice. *)
Lemma second_release_witness :
  exists h', threadRelease constructed = Some h'
    /\ (exists m, closed_on_release m = true /\ constructed m = Live)
    /\ threadRelease h' = None.
Proof.
  assert (H : exists m, closed_on_release m = true /\ constructed m = Live).
  { exists (output port_RATorques). split; reflexivity. }
  destruct (threadRelease constructed) as [h'|] eqn:E; [|discriminate E].
  exists h'. split; [reflexivity|]. split; [exact H|].
  exact (second_release_uses_deleted_port constructed h' E H).
Defined.

End ReleaseFacts.

(** ** The module *)

Module ObserverFacts.
Import Dyn Observer DynFacts.

Local Open Scope string_scope.
Local Open Scope list_scope.

Section Facts.
Context {C : Collaborators} {Y : Yarp}.

(** *** [configure] *)

Lemma new_device_spec l name devices m :
  Options m l = Property_new ->
  let m' := new_device l "/" name devices m in
  dd m' l = Some (devices (options_for name l))
  /\ (forall l', l' <> l -> dd m' l' = dd m l' /\ Options m' l' = Options m l')
  /\ inv_dyn m' = inv_dyn m
  /\ port_inertial_input m' = port_inertial_input m
  /\ actions m' = actions m ++ [device_new l (options_for name l)].
Proof.
  intros Ho. cbv zeta. unfold new_device. cbv zeta.
  cbn [Options set_Options dd set_dd did inv_dyn port_inertial_input actions].
  destruct (decide (l = l)) as [_|]; [|contradiction].
  rewrite Ho. fold (options_for name l). split; [reflexivity|]. split.
  - intros l' Hne. destruct (decide (l' = l)); [contradiction|]. split; reflexivity.
  - repeat split; reflexivity.
Qed.

Lemma created_app a b : created (a ++ b) = created a ++ created b.
Proof. unfold created. apply omap_app. Qed.

Lemma closed_app a b : closed (a ++ b) = closed a ++ closed b.
Proof. unfold closed. apply omap_app. Qed.

Lemma open_all_spec name devices : forall ls m,
  NoDup ls -> (forall l, elem_of l ls -> Options m l = Property_new) ->
  let good l := createDriver (Some (devices (options_for name l))) in
  let r := open_all ls name devices m in
  fst r = forallb good ls
  /\ (forall l, dd (snd r) l
                = if decide (elem_of l (attempted good ls))
                  then Some (devices (options_for name l)) else dd m l)
  /\ inv_dyn (snd r) = inv_dyn m
  /\ port_inertial_input (snd r) = port_inertial_input m
  /\ actions (snd r)
     = actions m ++ ((fun l => device_new l (options_for name l)) <$> attempted good ls).
Proof.
  induction ls as [|l ls IH]; intros m Hnd Ho; cbv zeta.
  - cbn. rewrite app_nil_r. repeat split; reflexivity.
  - apply NoDup_cons in Hnd as [Hl Hnd]. cbn [open_all attempted forallb].
    destruct (new_device_spec l name devices m (Ho l ltac:(left))) as (D1 & D2 & D3 & D4 & D5).
    cbv zeta in D1, D2, D3, D4, D5.
    revert D1 D2 D3 D4 D5. generalize (new_device l "/" name devices m). intros m1 D1 D2 D3 D4 D5.
    rewrite D1.
    destruct (createDriver (Some (devices (options_for name l)))) eqn:Eg; cbn [negb andb].
    + assert (Ho1 : forall l', elem_of l' ls -> Options m1 l' = Property_new).
      { intros l' Hl'. rewrite (proj2 (D2 l' ltac:(intros ->; contradiction))).
        apply Ho. right. exact Hl'. }
      destruct (IH m1 Hnd Ho1) as (I1 & I2 & I3 & I4 & I5). cbv zeta in *.
      split; [exact I1|]. split.
      * intros l'. rewrite I2.
        destruct (decide (elem_of l' (attempted _ ls))) as [Hin|Hin].
        -- destruct (decide _) as [_|Hn]; [reflexivity|]. exfalso. apply Hn. right. exact Hin.
        -- destruct (decide (elem_of l' (l :: attempted _ ls))) as [Hin'|Hin'].
           ++ apply elem_of_cons in Hin' as [->|Hin']; [exact D1 | contradiction].
           ++ apply D2. intros ->. apply Hin'. left.
      * split; [congruence|]. split; [congruence|].
        rewrite I5, D5. cbn [fmap list_fmap]. rewrite <- app_assoc. reflexivity.
    + cbn [fst snd]. split; [reflexivity|]. split.
      * intros l'. destruct (decide (elem_of l' [l])) as [Hin|Hin].
        -- apply list_elem_of_singleton in Hin as ->. exact D1.
        -- apply D2. intros ->. apply Hin. left.
      * repeat split; assumption.
Qed.

Lemma configure_eq m rf devices envs :
  configure m rf devices envs
  = let r := open_all opening_order (module_name rf) devices (opened_ports m) in
    if fst r then
      match new_inverseDynamics (module_rate rf) (dd (snd r) LeftArm) (dd (snd r) RightArm)
              (dd (snd r) Head) (dd (snd r) LeftLeg) (dd (snd r) RightLeg)
              (dd (snd r) Torso) with
      | Some t0 =>
          match start t0 envs with
          | Some t => Some (true, set_inv_dyn (Some t)
                                    (did (thread_start (module_rate rf))
                                       (set_inv_dyn (Some t0) (snd r))))
          | None => None
          end
      | None => None
      end
    else Some (false, snd r).
Proof.
  unfold configure. cbv zeta. fold (opened_ports m). fold (module_name rf).
  fold (module_rate rf). generalize (opened_ports m). intros m1.
  unfold opening_order. cbn [open_all].
  repeat match goal with
  | |- context [negb (createDriver ?x)] =>
      destruct (createDriver x); cbn [negb fst snd]; [|reflexivity]
  end.
  reflexivity.
Qed.

Lemma opening_order_NoDup : NoDup opening_order.
Proof.
  apply NoDup_ListNoDup. unfold opening_order. repeat constructor; cbn; intuition discriminate.
Qed.

Lemma closing_order_NoDup : NoDup closing_order.
Proof.
  apply NoDup_ListNoDup. unfold closing_order. repeat constructor; cbn; intuition discriminate.
Qed.

Lemma every_limb_opened l : elem_of l opening_order.
Proof. apply list_elem_of_In. destruct l; cbn; tauto. Qed.

Lemma every_limb_closed l : elem_of l closing_order.
Proof. apply list_elem_of_In. destruct l; cbn; tauto. Qed.

Lemma createDriver_good d :
  createDriver (Some d) = true -> exists e, view d = Some e.
Proof.
  unfold createDriver. destruct (isValid d); cbn; [|discriminate].
  destruct (view d) as [e|]; cbn; [eauto | discriminate].
Qed.

Lemma forallb_all {A} (f : A -> bool) (l : list A) :
  forallb f l = true -> forall x, elem_of x l -> f x = true.
Proof.
  intros H x Hx. rewrite forallb_forall in H. apply H. apply list_elem_of_In. exact Hx.
Qed.

Lemma attempted_all (good : Limb -> bool) ls : forallb good ls = true -> attempted good ls = ls.
Proof.
  induction ls as [|l ls IH]; cbn; [reflexivity|].
  intros H. apply andb_prop in H as [H1 H2]. rewrite H1, IH by exact H2. reflexivity.
Qed.

Lemma created_devices (f : Limb -> Property) ls :
  created ((fun l => device_new l (f l)) <$> ls) = ls.
Proof. induction ls as [|l ls IH]; cbn; [reflexivity|]. f_equal. exact IH. Qed.

Lemma configure_spec junk rf devices envs :
  let name := module_name rf in
  let good l := createDriver (Some (devices (options_for name l))) in
  let tried := attempted good opening_order in
  match configure (wholeBodyTorqueObserver_new junk) rf devices envs with
  | Some (b, m) =>
      b = forallb good opening_order
      /\ (forall l, dd m l = if decide (elem_of l tried)
                             then Some (devices (options_for name l)) else None)
      /\ actions m = configured_actions rf tried b
      /\ port_inertial_input m = Some Filter.dataFilter_init
      /\ (if b
          then exists t, inv_dyn m = Some t /\ period t = module_rate rf
                 /\ threadInit (obj (new_thread rf devices)) envs = Some (true, obj t)
          else inv_dyn m = None)
  | None =>
      forallb good opening_order = true
      /\ exists t, (t < 10)%nat /\ arrives (envs t) = false
  end.
Proof.
  cbv zeta. rewrite configure_eq. cbv zeta.
  destruct (open_all_spec (module_name rf) devices opening_order
              (opened_ports (wholeBodyTorqueObserver_new junk)) opening_order_NoDup
              ltac:(intros l _; reflexivity)) as (R1 & R2 & R3 & R4 & R5).
  cbv zeta in R1, R2, R3, R4, R5.
  revert R1 R2 R3 R4 R5.
  generalize (open_all opening_order (module_name rf) devices
                (opened_ports (wholeBodyTorqueObserver_new junk))).
  intros [b m] R1 R2 R3 R4 R5. cbn [fst snd] in *.
  set (good := fun l => createDriver (Some (devices (options_for (module_name rf) l)))) in *.
  change (actions (opened_ports (wholeBodyTorqueObserver_new junk)))
    with [ port_open "/filtered/inertial:o"; port_open "/unfiltered/inertial:i";
           network_connect "/icub/inertial" "/unfiltered/inertial:i" ] in R5.
  destruct b.
  - symmetry in R1. pose proof (forallb_all _ _ R1) as Hall.
    assert (Hdd : forall l, dd m l = Some (devices (options_for (module_name rf) l)) /\
                            exists e, view (devices (options_for (module_name rf) l)) = Some e).
    { intros l. split.
      - rewrite R2, (attempted_all good _ R1).
        destruct (decide _) as [_|Hn]; [reflexivity|]. exfalso. apply Hn.
        apply every_limb_opened.
      - apply createDriver_good. apply (Hall l). apply every_limb_opened. }
    unfold new_inverseDynamics, new_thread.
    destruct (Hdd LeftArm) as [-> [e1 E1]]. destruct (Hdd RightArm) as [-> [e2 E2]].
    destruct (Hdd Head) as [-> [e3 E3]]. destruct (Hdd LeftLeg) as [-> [e4 E4]].
    destruct (Hdd RightLeg) as [-> [e5 E5]]. destruct (Hdd Torso) as [-> [e6 E6]].
    cbn [and_then]. unfold axes. rewrite E1, E2, E3, E4, E5, E6.
    unfold start. cbn [obj period].
    pose proof (threadInit_spec
                  (inverseDynamics_new (getAxes e1) (getAxes e2) (getAxes e3)
                     (getAxes e4) (getAxes e5) (getAxes e6)) envs) as Hi.
    destruct (threadInit _ envs) as [[b1 s1]|].
    + destruct Hi as (-> & _).
      cbn [dd actions port_inertial_input inv_dyn set_inv_dyn did].
      split; [symmetry; exact R1|]. split; [exact R2|]. split.
      { rewrite R5. unfold configured_actions. rewrite <- app_assoc. reflexivity. }
      split; [rewrite R4; reflexivity|].
      eexists. split; [reflexivity|]. split; reflexivity.
    + split; [exact R1 | exact Hi].
  - split; [exact R1|]. split; [exact R2|]. split.
    { rewrite R5. unfold configured_actions. rewrite app_nil_r. reflexivity. }
    split; [rewrite R4; reflexivity | rewrite R3; reflexivity].
Qed.

(** X18. What [configure] does.  It opens the two ports and the callback,
    then creates the devices in the order head, left arm, right arm, left
    leg, right leg, torso, each with the options built from the name of the
    module, and stops at the first device that is not valid or has no view
    as encoders: it returns [false], the devices created so far stay with
    the module and no thread exists.  When all six are good it builds a
    thread on the axes of the six devices with the period of the option
    [rate], 100 without it, and starts it: [configure] then returns [true]
    once [threadInit] has returned, and never returns when one of the ten
    trials of the calibration finds a sensor port or the inertial port
    without a message.  The member [port_inertial_input], which the
    constructor leaves without a value, is set whenever [configure]
    returns. *)
Theorem configure_outcome junk rf devices envs :
  let name := module_name rf in
  let good l := createDriver (Some (devices (options_for name l))) in
  let tried := attempted good opening_order in
  match configure (wholeBodyTorqueObserver_new junk) rf devices envs with
  | Some (b, m) =>
      b = forallb good opening_order
      /\ (forall l, dd m l = if decide (elem_of l tried)
                             then Some (devices (options_for name l)) else None)
      /\ actions m = configured_actions rf tried b
      /\ port_inertial_input m = Some Filter.dataFilter_init
      /\ (if b
          then exists t, inv_dyn m = Some t /\ period t = module_rate rf
                 /\ threadInit (obj (new_thread rf devices)) envs = Some (true, obj t)
          else inv_dyn m = None)
  | None =>
      forallb good opening_order = true
      /\ exists t, (t < 10)%nat
           /\ ((exists l, rd_of l (envs t) = None) \/ rd_inertial (ports (envs t)) = None)
  end.
Proof.
  pose proof (configure_spec junk rf devices envs) as H. cbv zeta in *.
  destruct (configure (wholeBodyTorqueObserver_new junk) rf devices envs) as [[b m]|].
  - exact H.
  - destruct H as (Hg & t & Ht & Ha). split; [exact Hg|]. exists t. split; [exact Ht|].
    apply arrives_false. exact Ha.
Qed.

(** *** [updateModule] *)

(** X19. What [updateModule] answers: [false] without a thread; after a
    period of the thread, [true] exactly when the six encoder reads of that
    period succeeded; [true] when the thread has just returned from
    [threadInit]. *)
Theorem module_liveness m :
  (inv_dyn m = None -> updateModule m = false)
  /\ (forall env, updateModule (period_of m env)
                  = match inv_dyn m with Some _ => all_ok env | None => false end)
  /\ (forall t s envs, inv_dyn m = Some t ->
        threadInit s envs = Some (true, obj t) -> updateModule m = true).
Proof.
  split; [|split].
  - intros E. unfold updateModule. rewrite E. reflexivity.
  - intros env. unfold updateModule, period_of.
    destruct (inv_dyn m) as [t|] eqn:E; cbn [inv_dyn set_inv_dyn obj]; [|rewrite E; reflexivity].
    unfold getThreadStatus. rewrite run_status. destruct (all_ok env); reflexivity.
  - intros t s envs E Hi. unfold updateModule. rewrite E.
    pose proof (threadInit_spec s envs) as H. rewrite Hi in H.
    destruct H as (_ & Hst & _). unfold getThreadStatus. rewrite Hst. reflexivity.
Qed.

(** *** [close] *)

Lemma close_device_spec l m :
  let m' := close_device l m in
  dd m' l = None
  /\ (forall l', l' <> l -> dd m' l' = dd m l')
  /\ inv_dyn m' = inv_dyn m /\ port_inertial_input m' = port_inertial_input m
  /\ actions m' = actions m ++ (if has_device m l then [device_close l] else []).
Proof.
  cbv zeta. unfold close_device, has_device. destruct (dd m l) eqn:E.
  - cbn [dd set_dd did inv_dyn port_inertial_input actions].
    destruct (decide (l = l)); [|contradiction]. split; [reflexivity|]. split.
    + intros l' Hne. destruct (decide (l' = l)); [contradiction | reflexivity].
    + repeat split; reflexivity.
  - rewrite app_nil_r. repeat split; auto.
Qed.

Lemma close_all_spec : forall ls m,
  NoDup ls ->
  let m' := close_all ls m in
  (forall l, dd m' l = if decide (elem_of l ls) then None else dd m l)
  /\ inv_dyn m' = inv_dyn m /\ port_inertial_input m' = port_inertial_input m
  /\ actions m' = actions m ++ (device_close <$> List.filter (has_device m) ls).
Proof.
  induction ls as [|l ls IH]; intros m Hnd; cbv zeta.
  - cbn. rewrite app_nil_r. repeat split; reflexivity.
  - apply NoDup_cons in Hnd as [Hl Hnd]. cbn [close_all fold_left].
    destruct (close_device_spec l m) as (D1 & D2 & D3 & D4 & D5). cbv zeta in *.
    revert D1 D2 D3 D4 D5. generalize (close_device l m). intros m1 D1 D2 D3 D4 D5.
    destruct (IH m1 Hnd) as (I1 & I2 & I3 & I4). cbv zeta in *. fold (close_all ls m1).
    split; [|split; [congruence|split; [congruence|]]].
    + intros l'. rewrite I1.
      destruct (decide (elem_of l' ls)) as [Hin|Hin].
      * destruct (decide _) as [_|Hn]; [reflexivity|]. exfalso. apply Hn. right. exact Hin.
      * destruct (decide (elem_of l' (l :: ls))) as [Hin'|Hin'].
        -- apply elem_of_cons in Hin' as [->|Hin']; [exact D1 | contradiction].
        -- apply D2. intros ->. apply Hin'. left.
    + rewrite I4, D5. cbn [List.filter].
      assert (Ef : List.filter (has_device m1) ls = List.filter (has_device m) ls).
      { apply filter_ext_in. intros l' Hl'. unfold has_device. rewrite D2; [reflexivity|].
        intros ->. apply Hl. apply list_elem_of_In. exact Hl'. }
      rewrite Ef. destruct (has_device m l); cbn [fmap list_fmap app];
        rewrite <- ?app_assoc; reflexivity.
Qed.

Lemma close_eq m :
  close m
  = (true,
     close_callback
       (close_all closing_order
          (did (port_close "/filtered/inertial:o")
             (did (port_interrupt "/filtered/inertial:o") (stop_thread m))))).
Proof. reflexivity. Qed.

Lemma stop_thread_spec m :
  inv_dyn (stop_thread m) = None /\ dd (stop_thread m) = dd m
  /\ port_inertial_input (stop_thread m) = port_inertial_input m
  /\ actions (stop_thread m) = actions m ++ stopped m.
Proof.
  unfold stop_thread, stopped. destruct (inv_dyn m) as [t|] eqn:Et.
  - repeat split; reflexivity.
  - rewrite app_nil_r. repeat split; auto.
Qed.

Lemma close_spec m :
  let m' := snd (close m) in
  fst (close m) = true
  /\ inv_dyn m' = None /\ (forall l, dd m' l = None) /\ port_inertial_input m' = None
  /\ actions m'
     = actions m ++ stopped m
       ++ [port_interrupt "/filtered/inertial:o"; port_close "/filtered/inertial:o"]
       ++ (device_close <$> List.filter (has_device m) closing_order)
       ++ callback_closed m.
Proof.
  cbv zeta. rewrite close_eq. cbn [fst snd]. split; [reflexivity|].
  destruct (stop_thread_spec m) as (A1 & A2 & A3 & A4).
  revert A1 A2 A3 A4. generalize (stop_thread m). intros m2 A1 A2 A3 A4.
  set (m3 := did (port_close "/filtered/inertial:o")
               (did (port_interrupt "/filtered/inertial:o") m2)).
  destruct (close_all_spec closing_order m3 closing_order_NoDup) as (C1 & C2 & C3 & C4).
  cbv zeta in *. revert C1 C2 C3 C4. generalize (close_all closing_order m3).
  intros m4 C1 C2 C3 C4.
  assert (Ef : List.filter (has_device m3) closing_order = List.filter (has_device m) closing_order).
  { apply filter_ext. intros l. unfold has_device. subst m3. cbn [dd did]. rewrite A2.
    reflexivity. }
  assert (Ea : actions m3 = actions m ++ stopped m
                 ++ [port_interrupt "/filtered/inertial:o"; port_close "/filtered/inertial:o"]).
  { subst m3. cbn [actions did]. rewrite A4, <- !app_assoc. reflexivity. }
  assert (Ed : forall l, dd m4 l = None).
  { intros l. rewrite C1. destruct (decide _) as [_|Hn]; [reflexivity|]. exfalso. apply Hn.
    apply every_limb_closed. }
  assert (Ei : inv_dyn m4 = None) by (rewrite C2; subst m3; exact A1).
  assert (Ep : port_inertial_input m4 = port_inertial_input m)
    by (rewrite C3; subst m3; exact A3).
  unfold close_callback, callback_closed. rewrite Ep.
  destruct (port_inertial_input m) as [p|].
  - cbn [inv_dyn dd port_inertial_input actions set_port_inertial_input did].
    split; [exact Ei|]. split; [exact Ed|]. split; [reflexivity|].
    rewrite C4, Ef, Ea, <- !app_assoc. reflexivity.
  - split; [exact Ei|]. split; [exact Ed|].
    split; [exact Ep|]. rewrite C4, Ef, Ea, <- !app_assoc, app_nil_r. reflexivity.
Qed.

Lemma closed_devices ls : closed (device_close <$> ls) = ls.
Proof. induction ls as [|l ls IH]; cbn; [reflexivity|]. f_equal. exact IH. Qed.

Lemma created_closes ls : created (device_close <$> ls) = [].
Proof. induction ls as [|l ls IH]; cbn; [reflexivity | exact IH]. Qed.

Lemma closed_news (f : Limb -> Property) ls : closed ((fun l => device_new l (f l)) <$> ls) = [].
Proof. induction ls as [|l ls IH]; cbn; [reflexivity | exact IH]. Qed.

Lemma stopped_devices m : created (stopped m) = [] /\ closed (stopped m) = [].
Proof. unfold stopped. destruct (inv_dyn m); split; reflexivity. Qed.

Lemma callback_devices m : created (callback_closed m) = [] /\ closed (callback_closed m) = [].
Proof. unfold callback_closed. destruct (port_inertial_input m); split; reflexivity. Qed.

Lemma configured_devices rf tried b :
  created (configured_actions rf tried b) = tried
  /\ closed (configured_actions rf tried b) = []
  /\ ~ elem_of thread_stop (configured_actions rf tried b).
Proof.
  unfold configured_actions. rewrite !created_app, !closed_app, created_devices, closed_news.
  split; [destruct b; cbn; rewrite ?app_nil_r; reflexivity|].
  split; [destruct b; reflexivity|].
  intros Hin. rewrite !elem_of_app in Hin. destruct Hin as [Hin|[Hin|Hin]].
  - rewrite !elem_of_cons in Hin. destruct Hin as [Hin|[Hin|[Hin|Hin]]]; try discriminate Hin.
    inversion Hin.
  - apply list_elem_of_fmap in Hin as (l & Hl & _). discriminate Hl.
  - destruct b; [|inversion Hin]. apply list_elem_of_singleton in Hin. discriminate Hin.
Qed.

(** X20. [close] after [configure], whether [configure] returned [true] or
    [false]: it returns [true], closes exactly the devices [configure]
    created, each once, stops the thread exactly when one was started, and
    leaves the thread pointer, the six device pointers and the callback
    pointer null. *)
Theorem close_after_configure junk rf devices envs b m :
  configure (wholeBodyTorqueObserver_new junk) rf devices envs = Some (b, m) ->
  let m' := snd (close m) in
  fst (close m) = true
  /\ inv_dyn m' = None /\ (forall l, dd m' l = None) /\ port_inertial_input m' = None
  /\ (forall l, elem_of l (closed (actions m')) <-> elem_of l (created (actions m')))
  /\ NoDup (closed (actions m'))
  /\ (elem_of thread_stop (actions m') <-> b = true).
Proof.
  intros E. pose proof (configure_spec junk rf devices envs) as H. cbv zeta in H.
  rewrite E in H. destruct H as (Hb & Hdd & Hact & Hp & Hthread).
  set (tried := attempted _ opening_order) in *.
  destruct (close_spec m) as (Ec & C1 & C2 & C3 & C4). cbv zeta in *.
  revert C1 C2 C3 C4. generalize (snd (close m)). intros m' C1 C2 C3 C4.
  split; [exact Ec|]. split; [exact C1|]. split; [exact C2|]. split; [exact C3|].
  destruct (configured_devices rf tried b) as (K1 & K2 & K3).
  destruct (stopped_devices m) as [S1 S2]. destruct (callback_devices m) as [B1 B2].
  assert (Ecl : closed (actions m') = List.filter (has_device m) closing_order).
  { rewrite C4, !closed_app, Hact, K2, S2, B2, closed_devices, app_nil_r. reflexivity. }
  assert (Ecr : created (actions m') = tried).
  { rewrite C4, !created_app, Hact, K1, S1, B1, created_closes, !app_nil_r. reflexivity. }
  split; [|split].
  - intros l. rewrite Ecl, Ecr, list_elem_of_In, filter_In, <- list_elem_of_In.
    unfold has_device. rewrite Hdd. destruct (decide (elem_of l tried)) as [Hin|Hin].
    + split; [intros _; exact Hin|]. intros _. split; [|reflexivity].
      apply list_elem_of_In. apply list_elem_of_In. apply every_limb_closed.
    + split; [intros [_ Hf]; discriminate Hf | contradiction].
  - rewrite Ecl. apply NoDup_ListNoDup, List.NoDup_filter, NoDup_ListNoDup.
    exact closing_order_NoDup.
  - rewrite C4, Hact. rewrite !elem_of_app. split.
    + intros [Hin|[Hin|[Hin|[Hin|Hin]]]].
      * exfalso. exact (K3 Hin).
      * unfold stopped in Hin. destruct (inv_dyn m) eqn:Ei; [|inversion Hin].
        destruct b; [reflexivity | discriminate Hthread].
      * rewrite !elem_of_cons in Hin. destruct Hin as [Hin|[Hin|Hin]]; try discriminate Hin.
        inversion Hin.
      * apply list_elem_of_fmap in Hin as (l & Hl & _). discriminate Hl.
      * unfold callback_closed in Hin. destruct (port_inertial_input m); [|inversion Hin].
        rewrite !elem_of_cons in Hin. destruct Hin as [Hin|[Hin|Hin]]; try discriminate Hin.
        inversion Hin.
    + intros ->. destruct Hthread as (t & Et & _). right. left.
      unfold stopped. rewrite Et. left.
Qed.

(** X21. A second [close] finds every pointer null: whatever the module
    held, it asks yarp only to interrupt and close the filtered port once
    more, and closes no device and stops no thread again. *)
Theorem close_twice m :
  actions (snd (close (snd (close m))))
  = actions (snd (close m))
    ++ [port_interrupt "/filtered/inertial:o"; port_close "/filtered/inertial:o"].
Proof.
  destruct (close_spec m) as (_ & C1 & C2 & C3 & _). cbv zeta in *.
  revert C1 C2 C3. generalize (snd (close m)). intros m1 C1 C2 C3.
  destruct (close_spec m1) as (_ & _ & _ & _ & C4). cbv zeta in C4. rewrite C4.
  unfold stopped, callback_closed. rewrite C1, C3.
  assert (Ef : List.filter (has_device m1) closing_order = []).
  { unfold has_device, closing_order. cbn [List.filter]. rewrite !C2. reflexivity. }
  rewrite Ef. cbn [fmap list_fmap app]. rewrite ?app_nil_r. reflexivity.
Qed.

End Facts.

(** *** On the bench *)

Import Bench.

(** The bench module without options on six good boards, configured and
    closed. *)
Lemma close_witness :
  exists m,
    configure (C := toy) (Y := tables) (wholeBodyTorqueObserver_new None) no_options good_boards
      (fun _ => fresh)
    = Some (true, m)
    /\ let m' := snd (close m) in
       fst (close m) = true
       /\ inv_dyn m' = None /\ (forall l, dd m' l = None) /\ port_inertial_input m' = None
       /\ (forall l, elem_of l (closed (actions m')) <-> elem_of l (created (actions m')))
       /\ NoDup (closed (actions m'))
       /\ (elem_of thread_stop (actions m') <-> true = true).
Proof.
  pose proof (configure_spec (C := toy) (Y := tables) None no_options good_boards
                (fun _ => fresh)) as H. cbv zeta in H.
  destruct (configure (C := toy) (Y := tables) (wholeBodyTorqueObserver_new None)
              no_options good_boards (fun _ => fresh)) as [[b m]|] eqn:E.
  - destruct H as (-> & _). exists m. split; [reflexivity|].
    exact (close_after_configure (C := toy) (Y := tables) None no_options good_boards
             (fun _ => fresh) _ m E).
  - destruct H as (_ & t & _ & Ha).
    rewrite (DynFacts.bench_arrives fresh eq_refl) in Ha. discriminate Ha.
Defined.

End ObserverFacts.
